(** * Ingestion pipeline and bounded tenant pool of the RAG agent

    A shallow embedding of [agents/data-processing]:

    - [processor/html_cleaner.py]   ([html_cleaner])
    - [models/messages.py]          ([PageContent], [IndexingJobMessage],
                                     [ProcessingResult])
    - [rag/pool.py]                 ([LightRAGPool])
    - [processor/pipeline.py]       ([DocumentProcessor])
    - [consumer/kafka_consumer.py]  ([IndexingJobConsumer])

    The coroutines are embedded as computations in a state-and-exception
    monad over one [World]: the attributes of the three long-lived objects
    the agent wires together, a counter of calls made to the outside, and
    the trace of observable events.  What the outside answers (the clock,
    the LightRAG backend, the Kafka commit) is read from an [Env], indexed
    by that counter, so every statement below quantifies over every possible
    behaviour of the collaborators.  Library code that is not part of the
    repository (base64, gzip, BeautifulSoup, pydantic's field validators) is
    taken as a [Library] of pure functions.

    The coroutines of the source interleave only where they await. The
    pool's methods hold one [asyncio.Lock] from their first statement to
    their last, and the loop awaits the handler and the commit of a record
    before it asks for the next record: each method, and each turn of the
    loop, is one uninterrupted computation here. The pipeline's semaphore is
    its counter: acquiring it with no slot left suspends the caller.

    Timestamps ([time.time()], a float in the source) are integers here.
    Exceptions are the subclasses of [Exception]; [BaseException]s such as
    task cancellation are outside the model.  Of the logging calls only the
    warning and error ones are kept as events; they are what tells a
    swallowed failure from no failure. *)

From Stdlib Require Import ZArith List String Ascii Bool Lia DecimalString.
Import ListNotations.
Local Open Scope string_scope.
Local Open Scope Z_scope.

(** ** Python exceptions *)

Inductive exc_class : Type :=
| JSONDecodeError
| ValidationError
| TypeError
| ValueError
| KeyError
| RuntimeError
| KafkaError
| OtherException.

(** An exception instance: its class and [str(e)]. *)
Record exn : Type := mkExn { exc : exc_class; str : string }.

(** [except json.JSONDecodeError]: no other class of [exc_class] derives
    from it. *)
Definition is_JSONDecodeError (e : exn) : bool :=
  match exc e with JSONDecodeError => true | _ => false end.

(** [except KafkaError]. *)
Definition is_KafkaError (e : exn) : bool :=
  match exc e with KafkaError => true | _ => false end.

(** [not s] for a [str]. *)
Definition is_empty (s : string) : bool :=
  match s with EmptyString => true | String _ _ => false end.

(** ** Values produced by [json.loads] *)

#[local] Set Warnings "-register-all".

Inductive pyval : Type :=
| PyNone
| PyBool (b : bool)
| PyInt (z : Z)
| PyStr (s : string)
| PyList (l : list pyval)
| PyDict (items : list (string * pyval)).

(** ** The opaque backend handle *)

Module LightRAG.
(** A LightRAG object: the workspace it was built for, and the call at
    which it was built (two objects built at different calls differ). *)
Record t : Type := mk { workspace : string; serial : nat }.
End LightRAG.

(** ** [models/messages.py] *)

Module PageContent.
Record t : Type := mk {
  html : string;
  text : string;
  title : string;
  content_type : string;
  encoding : string;
  html_size : Z
}.
End PageContent.

Module IndexingJobMessage.
Record t : Type := mk {
  job_id : Z;
  request_id : Z;
  project_id : Z;
  user_id : string;
  collection_id : string;
  url : string;
  depth : Z;
  parent_url : string;
  content : option PageContent.t;
  discovered_at : option pyval;
  metadata : option pyval
}.
End IndexingJobMessage.

Module ProcessingResult.
Record t : Type := mk {
  job_id : Z;
  collection_id : string;
  url : string;
  success : bool;
  error_message : option string;
  text_length : Z;
  processing_time_ms : Z
}.
End ProcessingResult.

(** ** [rag/pool.py]: the wrapper dataclass *)

Module LightRAGWrapper.
Record t : Type := mk {
  rag : LightRAG.t;
  collection_id : string;
  created_at : Z;
  last_used : Z
}.

Definition touch (now : Z) (w : t) : t :=
  mk (rag w) (collection_id w) (created_at w) now.
End LightRAGWrapper.

(** ** [collections.OrderedDict], keyed by [str]

    Insertion order is the LRU order of the pool, so the dictionary is an
    association list, oldest entry first. *)

Module OrderedDict.
Section Dict.
Context {V : Type}.

Definition t : Type := list (string * V).

Definition keys (d : t) : list string := map fst d.

(** [k in d] *)
Fixpoint contains (k : string) (d : t) : bool :=
  match d with
  | [] => false
  | (k', _) :: d' => if String.eqb k k' then true else contains k d'
  end.

(** [d[k]] *)
Fixpoint getitem (k : string) (d : t) : option V :=
  match d with
  | [] => None
  | (k', v) :: d' => if String.eqb k k' then Some v else getitem k d'
  end.

(** The dictionary without key [k]. *)
Definition remove (k : string) (d : t) : t :=
  filter (fun kv => negb (String.eqb k (fst kv))) d.

(** [d[k] = v]: an existing key keeps its position, a new one goes last. *)
Fixpoint setitem (k : string) (v : V) (d : t) : t :=
  match d with
  | [] => [(k, v)]
  | (k', v') :: d' =>
      if String.eqb k k' then (k', v) :: d' else (k', v') :: setitem k v d'
  end.

(** [d.move_to_end(k)]; [None] is the [KeyError] of a missing key. *)
Definition move_to_end (k : string) (d : t) : option t :=
  match getitem k d with
  | Some v => Some (remove k d ++ [(k, v)])%list
  | None => None
  end.

(** [d.pop(k)]; [None] is the [KeyError] of a missing key. *)
Definition pop (k : string) (d : t) : option (V * t) :=
  match getitem k d with
  | Some v => Some (v, remove k d)
  | None => None
  end.
End Dict.
Arguments t : clear implicits.
End OrderedDict.

(** ** Observable events *)

Inductive log_level : Type := WARNING | ERROR.

Inductive Event : Type :=
| EvPoolGet (cid : string)
    (** [LightRAGPool.get(cid)] was entered *)
| EvCreate (cid workspace : string) (err : option exn)
    (** [_create_instance]: the backend was constructed and initialised,
        or failed with [err] *)
| EvFinalize (cid : string) (rag : LightRAG.t) (err : option exn)
    (** [rag.finalize_storages()] was awaited *)
| EvInsert (rag : LightRAG.t) (doc_id text : string) (err : option exn)
    (** [rag.ainsert(doc_id, text)] was awaited *)
| EvDispatch (job_id : Z)
    (** the loop awaited [message_handler(job)] *)
| EvResult (job_id : Z) (success : bool)
    (** ... and the handler returned a result *)
| EvCommit (partition offset : Z) (err : option exn)
    (** [consumer.commit()] was awaited while handling that record *)
| EvLog (level : log_level) (msg : string).

(** ** The world *)

Record World : Type := mkWorld {
  tick : nat;                 (** calls made to the outside so far *)
  trace : list Event;         (** events so far, oldest first *)
  instances : OrderedDict.t LightRAGWrapper.t;  (** [LightRAGPool.instances] *)
  _semaphore : Z;             (** [DocumentProcessor._semaphore._value] *)
  _jobs_processed : Z;
  _jobs_failed : Z;
  _running : bool;            (** [IndexingJobConsumer._running] *)
  consumer : bool             (** [IndexingJobConsumer.consumer is not None] *)
}.

(** What the collaborators answer at each call. [None] is success. The
    backend may raise any exception; a commit that fails raises a
    [KafkaError] ([CommitFailedError] and the like), of which [commit]
    gives the message. *)
Record Env : Type := mkEnv {
  time_time : nat -> Z;
  initialize_storages : nat -> option exn;
  finalize_storages : nat -> option exn;
  ainsert : nat -> option exn;
  commit : nat -> option string
}.

(** [app/config.py], the fields the core reads. *)
Record Settings : Type := mkSettings {
  max_workers : Z;
  max_rag_instances : Z;
  rag_instance_ttl : Z
}.

Definition default_settings : Settings := mkSettings 5 10 300.

(** Library functions outside the repository. [inl] is a raised exception. *)
Record Library : Type := mkLibrary {
  b64decode : string -> exn + list Byte.byte;
  gzip_read : list Byte.byte -> exn + list Byte.byte;
  utf8_decode : list Byte.byte -> exn + string;
  soup_text : string -> exn + string;
      (** [BeautifulSoup(html)], dropping the listed tags, [get_text], and
          the whitespace clean-up *)
  validate_int : pyval -> option Z;
  validate_str : pyval -> option string;
  validate_datetime : pyval -> bool;
  validate_dict : pyval -> bool
}.

(** ** The monad of coroutines

    A coroutine run to completion returns, raises, or suspends for ever
    (it waits on a semaphore nobody will release). *)

Inductive outcome (A : Type) : Type :=
| Return (a : A)
| Raise (e : exn)
| Suspend.
Arguments Return {A} a.
Arguments Raise {A} e.
Arguments Suspend {A}.

Definition M (A : Type) : Type := World -> outcome A * World.

Definition ret {A} (a : A) : M A := fun w => (Return a, w).

Definition raise {A} (e : exn) : M A := fun w => (Raise e, w).

Definition bind {A B} (m : M A) (k : A -> M B) : M B :=
  fun w =>
    match m w with
    | (Return a, w') => k a w'
    | (Raise e, w') => (Raise e, w')
    | (Suspend, w') => (Suspend, w')
    end.

(** [try: body  except Exception as e: handler e] *)
Definition try_except {A} (body : M A) (handler : exn -> M A) : M A :=
  fun w =>
    match body w with
    | (Raise e, w') => handler e w'
    | r => r
    end.

(** [try: body  finally: cleanup] *)
Definition try_finally {A} (body : M A) (cleanup : M unit) : M A :=
  fun w =>
    match body w with
    | (Return a, w') =>
        match cleanup w' with
        | (Return _, w'') => (Return a, w'')
        | (Raise e, w'') => (Raise e, w'')
        | (Suspend, w'') => (Suspend, w'')
        end
    | (Raise e, w') =>
        match cleanup w' with
        | (Return _, w'') => (Raise e, w'')
        | (Raise e', w'') => (Raise e', w'')
        | (Suspend, w'') => (Suspend, w'')
        end
    | (Suspend, w') => (Suspend, w')
    end.

Declare Scope py_scope.
Delimit Scope py_scope with py.
Notation "x <- m ;; k" := (bind m (fun x => k))
  (at level 61, m at next level, right associativity) : py_scope.
Notation "m ;; k" := (bind m (fun _ => k))
  (at level 61, right associativity) : py_scope.
Local Open Scope py_scope.

Definition lift {A} (r : exn + A) : M A :=
  match r with inl e => raise e | inr a => ret a end.

Definition emit (e : Event) : M unit :=
  fun w => (Return tt,
            mkWorld (tick w) (trace w ++ [e])%list (instances w) (_semaphore w)
                    (_jobs_processed w) (_jobs_failed w) (_running w)
                    (consumer w)).

(** The index of the next call to the outside. *)
Definition next_call : M nat :=
  fun w => (Return (tick w),
            mkWorld (S (tick w)) (trace w) (instances w) (_semaphore w)
                    (_jobs_processed w) (_jobs_failed w) (_running w)
                    (consumer w)).

Definition get_instances : M (OrderedDict.t LightRAGWrapper.t) :=
  fun w => (Return (instances w), w).

Definition set_instances (d : OrderedDict.t LightRAGWrapper.t) : M unit :=
  fun w => (Return tt,
            mkWorld (tick w) (trace w) d (_semaphore w)
                    (_jobs_processed w) (_jobs_failed w) (_running w)
                    (consumer w)).

Definition set_semaphore (v : Z) (w : World) : World :=
  mkWorld (tick w) (trace w) (instances w) v
          (_jobs_processed w) (_jobs_failed w) (_running w) (consumer w).

Definition set_running (b : bool) : M unit :=
  fun w => (Return tt,
            mkWorld (tick w) (trace w) (instances w) (_semaphore w)
                    (_jobs_processed w) (_jobs_failed w) b (consumer w)).

Definition incr_jobs_processed : M unit :=
  fun w => (Return tt,
            mkWorld (tick w) (trace w) (instances w) (_semaphore w)
                    (_jobs_processed w + 1) (_jobs_failed w) (_running w)
                    (consumer w)).

Definition incr_jobs_failed : M unit :=
  fun w => (Return tt,
            mkWorld (tick w) (trace w) (instances w) (_semaphore w)
                    (_jobs_processed w) (_jobs_failed w + 1) (_running w)
                    (consumer w)).

(** [for x in xs: body x] *)
Fixpoint for_each {A} (xs : list A) (body : A -> M unit) : M unit :=
  match xs with
  | [] => ret tt
  | x :: xs' => body x ;; for_each xs' body
  end.

(** ** [processor/html_cleaner.py] *)

Module html_cleaner.
Section WithLibrary.
Variable lib : Library.

Definition gunzip_b64 (compressed : string) : exn + string :=
  match b64decode lib compressed with
  | inl e => inl e
  | inr compressed_bytes =>
      match gzip_read lib compressed_bytes with
      | inl e => inl e
      | inr raw => utf8_decode lib raw
      end
  end.

Definition decompress_html (compressed encoding : string) : M string :=
  if String.eqb encoding "plain" || is_empty compressed then
    ret compressed
  else if String.eqb encoding "gzip+base64" then
    try_except
      (lift (gunzip_b64 compressed))
      (fun e =>
         emit (EvLog ERROR ("Failed to decompress HTML: " ++ str e)) ;;
         raise (mkExn ValueError ("Failed to decompress HTML: " ++ str e)))
  else
    raise (mkExn ValueError ("Unknown encoding: " ++ encoding)).

Definition clean_html_to_text (html : string) : M string :=
  if is_empty html then ret ""
  else
    try_except
      (lift (soup_text lib html))
      (fun e =>
         emit (EvLog ERROR ("Failed to clean HTML: " ++ str e)) ;;
         ret "").
End WithLibrary.
End html_cleaner.

(** ** [rag/pool.py] *)

Module LightRAGPool.
Import LightRAGWrapper.

(** [s.replace(a, b)] for single characters. *)
Fixpoint replace_char (a b : ascii) (s : string) : string :=
  match s with
  | EmptyString => EmptyString
  | String c s' =>
      String (if Ascii.eqb c a then b else c) (replace_char a b s')
  end.

Section WithEnv.
Variable env : Env.
Variable settings : Settings.

Definition max_instances : Z := max_rag_instances settings.
Definition ttl_seconds : Z := rag_instance_ttl settings.

(** [time.time()] *)
Definition time : M Z :=
  t <- next_call ;; ret (time_time env t).

(** [await rag.finalize_storages()] *)
Definition rag_finalize_storages (cid : string) (r : LightRAG.t) : M unit :=
  t <- next_call ;;
  emit (EvFinalize cid r (finalize_storages env t)) ;;
  match finalize_storages env t with
  | None => ret tt
  | Some e => raise e
  end.

(** [try: await wrapper.rag.finalize_storages()]
    [except Exception as e: logger.warning(f"{warning}{e}")] *)
Definition finalize_logged (cid : string) (wrapper : LightRAGWrapper.t)
    (warning : string) : M unit :=
  try_except
    (rag_finalize_storages cid (rag wrapper))
    (fun e => emit (EvLog WARNING (warning ++ str e))).

(** The constructor [LightRAG(...)] and [await rag.initialize_storages()]
    are one call to the outside: either may raise. The defaults written to
    [os.environ] beforehand are not kept. *)
Definition _create_instance (collection_id : string) : M LightRAG.t :=
  let workspace_name := "ws_" ++ replace_char "-" "_" collection_id in
  t <- next_call ;;
  emit (EvCreate collection_id workspace_name (initialize_storages env t)) ;;
  match initialize_storages env t with
  | None => ret (LightRAG.mk workspace_name t)
  | Some e => raise e
  end.

(** [while len(self.instances) >= self.max_instances: ...]; the
    argument is [self.instances] at the loop head. Every turn pops the
    oldest entry ([popitem(last=False)], the head of the list, a [KeyError]
    on the empty dictionary), so the recursion is on the dictionary
    itself. *)
Fixpoint evict_while_full (d : OrderedDict.t LightRAGWrapper.t) : M unit :=
  if max_instances <=? Z.of_nat (List.length d) then
    match d with
    | [] => raise (mkExn KeyError "'dictionary is empty'")
    | (oldest_id, oldest_wrapper) :: rest =>
        set_instances rest ;;
        finalize_logged oldest_id oldest_wrapper
          "Error finalizing evicted RAG instance: " ;;
        evict_while_full rest
    end
  else ret tt.

(** The body runs under [self._lock], as do the bodies of [release],
    [cleanup_expired] and [close_all]: no two of them interleave, so each
    is one uninterrupted computation on the world. *)
Definition get (collection_id : string) : M LightRAG.t :=
  emit (EvPoolGet collection_id) ;;
  d <- get_instances ;;
  if OrderedDict.contains collection_id d then
    match OrderedDict.move_to_end collection_id d with
    | None => raise (mkExn KeyError collection_id)
    | Some d1 =>
        set_instances d1 ;;
        match OrderedDict.getitem collection_id d1 with
        | None => raise (mkExn KeyError collection_id)
        | Some wrapper =>
            now <- time ;;
            set_instances
              (OrderedDict.setitem collection_id (touch now wrapper) d1) ;;
            ret (rag wrapper)
        end
    end
  else
    evict_while_full d ;;
    r <- _create_instance collection_id ;;
    created <- time ;;
    used <- time ;;
    d2 <- get_instances ;;
    set_instances
      (OrderedDict.setitem collection_id
         (LightRAGWrapper.mk r collection_id created used) d2) ;;
    ret r.

Definition release (collection_id : string) : M unit :=
  d <- get_instances ;;
  if OrderedDict.contains collection_id d then
    match OrderedDict.pop collection_id d with
    | None => raise (mkExn KeyError collection_id)
    | Some (wrapper, d') =>
        set_instances d' ;;
        finalize_logged collection_id wrapper
          "Error finalizing RAG instance: "
    end
  else ret tt.

(** [now - wrapper.last_used > self.ttl_seconds] *)
Definition expired (now : Z) (kv : string * LightRAGWrapper.t) : bool :=
  ttl_seconds <? now - last_used (snd kv).

Definition cleanup_expired : M Z :=
  now <- time ;;
  d <- get_instances ;;
  let expired_ids := map fst (filter (expired now) d) in
  for_each expired_ids
    (fun collection_id =>
       d1 <- get_instances ;;
       match OrderedDict.pop collection_id d1 with
       | None => raise (mkExn KeyError collection_id)
       | Some (wrapper, d') =>
           set_instances d' ;;
           finalize_logged collection_id wrapper
             "Error finalizing expired RAG instance: "
       end) ;;
  ret (Z.of_nat (List.length expired_ids)).

Definition close_all : M unit :=
  d <- get_instances ;;
  for_each d
    (fun kv =>
       finalize_logged (fst kv) (snd kv)
         ("Error closing RAG instance " ++ fst kv ++ ": ")) ;;
  set_instances [].

(** [active_instances] *)
Definition active_instances (w : World) : Z :=
  Z.of_nat (List.length (instances w)).
End WithEnv.
End LightRAGPool.

(** ** [processor/pipeline.py] *)

Module DocumentProcessor.
Section WithEnv.
Variable lib : Library.
Variable env : Env.
Variable settings : Settings.

Definition str_of_int (z : Z) : string :=
  NilZero.string_of_int (Z.to_int z).

(** [await rag.ainsert(doc_id, text)] *)
Definition rag_ainsert (r : LightRAG.t) (doc_id text : string) : M unit :=
  t <- next_call ;;
  emit (EvInsert r doc_id text (ainsert env t)) ;;
  match ainsert env t with
  | None => ret tt
  | Some e => raise e
  end.

Definition _extract_text (job : IndexingJobMessage.t) : M string :=
  match IndexingJobMessage.content job with
  | None => raise (mkExn ValueError "Job has no content")
  | Some c =>
      if negb (is_empty (PageContent.text c)) then
        ret (PageContent.text c)
      else if negb (is_empty (PageContent.html c)) then
        html <- html_cleaner.decompress_html lib
                  (PageContent.html c) (PageContent.encoding c) ;;
        text <- html_cleaner.clean_html_to_text lib html ;;
        ret text
      else
        raise (mkExn ValueError "Job has neither text nor HTML content")
  end.

(** The [try] block of [_process_internal]. *)
Definition process_try (job : IndexingJobMessage.t) (start_time : Z)
    : M ProcessingResult.t :=
  text <- _extract_text job ;;
  if is_empty text then
    raise (mkExn ValueError "No text content extracted from document")
  else
    r <- LightRAGPool.get env settings
           (IndexingJobMessage.collection_id job) ;;
    let doc_id := IndexingJobMessage.url job in
    rag_ainsert r doc_id text ;;
    end_time <- LightRAGPool.time env ;;
    incr_jobs_processed ;;
    ret (ProcessingResult.mk
           (IndexingJobMessage.job_id job)
           (IndexingJobMessage.collection_id job)
           (IndexingJobMessage.url job)
           true None
           (Z.of_nat (String.length text))
           ((end_time - start_time) * 1000)).

(** Its [except Exception as e] block. *)
Definition process_except (job : IndexingJobMessage.t) (start_time : Z)
    (e : exn) : M ProcessingResult.t :=
  end_time <- LightRAGPool.time env ;;
  let error_msg := str e in
  incr_jobs_failed ;;
  emit (EvLog ERROR
          ("Failed to process job "
             ++ str_of_int (IndexingJobMessage.job_id job)
             ++ ": " ++ error_msg)) ;;
  ret (ProcessingResult.mk
         (IndexingJobMessage.job_id job)
         (IndexingJobMessage.collection_id job)
         (IndexingJobMessage.url job)
         false (Some error_msg)
         0
         ((end_time - start_time) * 1000)).

Definition _process_internal (job : IndexingJobMessage.t)
    : M ProcessingResult.t :=
  start_time <- LightRAGPool.time env ;;
  try_except (process_try job start_time) (process_except job start_time).

(** [asyncio.Semaphore.acquire]: takes a slot, or waits for one. *)
Definition semaphore_acquire : M unit :=
  fun w =>
    if 0 <? _semaphore w
    then (Return tt, set_semaphore (_semaphore w - 1) w)
    else (Suspend, w).

Definition semaphore_release : M unit :=
  fun w => (Return tt, set_semaphore (_semaphore w + 1) w).

(** [async with self._semaphore: return await self._process_internal(job)] *)
Definition process (job : IndexingJobMessage.t) : M ProcessingResult.t :=
  semaphore_acquire ;;
  try_finally (_process_internal job) semaphore_release.

(** [active_workers] *)
Definition active_workers (w : World) : Z :=
  max_workers settings - _semaphore w.
End WithEnv.
End DocumentProcessor.

(** ** [models/messages.py]: construction from keyword arguments *)

Module messages.
Section WithLibrary.
Variable lib : Library.

Definition kwargs : Type := list (string * pyval).

(** A field declared [Field(...)]: it must be given, and valid. *)
Definition required {A} (validate : pyval -> option A) (name : string)
    (kw : kwargs) : option A :=
  match OrderedDict.getitem name kw with
  | Some v => validate v
  | None => None
  end.

(** A field with a default: valid when given. *)
Definition defaulted {A} (validate : pyval -> option A) (name : string)
    (default : A) (kw : kwargs) : option A :=
  match OrderedDict.getitem name kw with
  | Some v => validate v
  | None => Some default
  end.

Definition checked (check : pyval -> bool) (v : pyval) : option (option pyval) :=
  if check v then Some (Some v) else None.

Definition and_then {A B} (o : option A) (k : A -> option B) : option B :=
  match o with Some a => k a | None => None end.

Definition PageContent_validate (v : pyval) : option PageContent.t :=
  match v with
  | PyDict kw =>
      and_then (defaulted (validate_str lib) "html" "" kw) (fun html =>
      and_then (defaulted (validate_str lib) "text" "" kw) (fun text =>
      and_then (defaulted (validate_str lib) "title" "" kw) (fun title =>
      and_then (defaulted (validate_str lib) "content_type" "text/html" kw)
        (fun content_type =>
      and_then (defaulted (validate_str lib) "encoding" "gzip+base64" kw)
        (fun encoding =>
      and_then (defaulted (validate_int lib) "html_size" 0 kw)
        (fun html_size =>
      Some (PageContent.mk html text title content_type encoding
              html_size)))))))
  | _ => None
  end.

(** [content: Optional[PageContent] = None] *)
Definition content_validate (v : pyval) : option (option PageContent.t) :=
  match v with
  | PyNone => Some None
  | _ => option_map Some (PageContent_validate v)
  end.

Definition IndexingJobMessage_validate (kw : kwargs)
    : option IndexingJobMessage.t :=
  and_then (required (validate_int lib) "job_id" kw) (fun job_id =>
  and_then (required (validate_int lib) "request_id" kw) (fun request_id =>
  and_then (required (validate_int lib) "project_id" kw) (fun project_id =>
  and_then (required (validate_str lib) "user_id" kw) (fun user_id =>
  and_then (required (validate_str lib) "collection_id" kw)
    (fun collection_id =>
  and_then (required (validate_str lib) "url" kw) (fun url =>
  and_then (defaulted (validate_int lib) "depth" 0 kw) (fun depth =>
  and_then (defaulted (validate_str lib) "parent_url" "" kw)
    (fun parent_url =>
  and_then (defaulted content_validate "content" None kw) (fun content =>
  and_then (defaulted (checked (validate_datetime lib)) "discovered_at"
              None kw) (fun discovered_at =>
  and_then (defaulted (checked (validate_dict lib)) "metadata" None kw)
    (fun metadata =>
  Some (IndexingJobMessage.mk job_id request_id project_id user_id
          collection_id url depth parent_url content discovered_at
          metadata)))))))))))).

(** The constructor called with [value] unpacked into keyword
    arguments. *)
Definition IndexingJobMessage_init (value : pyval)
    : exn + IndexingJobMessage.t :=
  match value with
  | PyDict kw =>
      match IndexingJobMessage_validate kw with
      | Some job => inr job
      | None =>
          inl (mkExn ValidationError
                 "validation error for IndexingJobMessage")
      end
  | _ =>
      inl (mkExn TypeError
             "IndexingJobMessage() argument after ** must be a mapping")
  end.
End WithLibrary.
End messages.

(** ** [consumer/kafka_consumer.py] *)

Module IndexingJobConsumer.
(** A record as the Kafka client hands it over: [value] is what the
    [value_deserializer] made of the payload. *)
Record ConsumerRecord : Type := mkRecord {
  value : pyval;
  partition : Z;
  offset : Z
}.

(** What [async for message in self.consumer] meets, in order. *)
Inductive delivery : Type :=
| Message (message : ConsumerRecord)   (** the iterator yields a record *)
| IteratorError (e : exn)              (** the iterator raises *)
| StopRequested.                       (** [stop()] set [_running = False] *)

Section WithEnv.
Variable lib : Library.
Variable env : Env.
Variable message_handler : IndexingJobMessage.t -> M ProcessingResult.t.

(** [await self.consumer.commit()] while [message] is the current record *)
Definition consumer_commit (message : ConsumerRecord) : M unit :=
  t <- next_call ;;
  let failure := option_map (mkExn KafkaError) (commit env t) in
  emit (EvCommit (partition message) (offset message) failure) ;;
  match failure with
  | None => ret tt
  | Some e => raise e
  end.

(** The body of the loop: the inner [try] with its two [except]s. *)
Definition handle_message (message : ConsumerRecord) : M unit :=
  try_except
    (job <- lift (messages.IndexingJobMessage_init lib (value message)) ;;
     emit (EvDispatch (IndexingJobMessage.job_id job)) ;;
     result <- message_handler job ;;
     emit (EvResult (IndexingJobMessage.job_id job)
             (ProcessingResult.success result)) ;;
     consumer_commit message)
    (fun e =>
       if is_JSONDecodeError e then
         emit (EvLog ERROR "Failed to decode message") ;;
         consumer_commit message
       else
         emit (EvLog ERROR "Error processing message")).

Fixpoint consume_loop (stream : list delivery) : M unit :=
  match stream with
  | [] => ret tt
  | StopRequested :: rest => set_running false ;; consume_loop rest
  | IteratorError e :: _ => raise e
  | Message message :: rest =>
      fun w =>
        if negb (_running w) then (Return tt, w)
        else (handle_message message ;; consume_loop rest) w
  end.

Definition consume (stream : list delivery) : M unit :=
  fun w =>
    if negb (consumer w) then
      raise (mkExn RuntimeError "Consumer not started. Call start() first.") w
    else
      try_except (consume_loop stream)
        (fun e =>
           if is_KafkaError e then
             emit (EvLog ERROR ("Kafka error: " ++ str e)) ;; raise e
           else raise e) w.
End WithEnv.
End IndexingJobConsumer.

(** ** [app/main.py]: the wiring *)

Module RAGAgent.
Section WithEnv.
Variable lib : Library.
Variable env : Env.
Variable settings : Settings.

(** The world once [initialize()] has built the pool and the processor
    and the consumer has started. *)
Definition started : World :=
  mkWorld 0 [] [] (max_workers settings) 0 0 true true.

(** [message_handler=self.processor.process] *)
Definition consume : list IndexingJobConsumer.delivery -> M unit :=
  IndexingJobConsumer.consume lib env
    (DocumentProcessor.process lib env settings).

Definition handle_message : IndexingJobConsumer.ConsumerRecord -> M unit :=
  IndexingJobConsumer.handle_message lib env
    (DocumentProcessor.process lib env settings).
End WithEnv.
End RAGAgent.

(** ** Test doubles

    Concrete collaborators for the closed examples: a library whose
    validators accept exactly the JSON value of the declared type and whose
    codec knows one blob, and environments that always succeed or always
    fail. *)

Module Doubles.
Definition binascii_error : exn := mkExn OtherException "Incorrect padding".
Definition backend_error : exn := mkExn OtherException "connection refused".

Definition library : Library :=
  mkLibrary
    (fun s => if String.eqb s "aGk=" then inr [Byte.x68; Byte.x69]
              else inl binascii_error)
    (fun b => inr b)
    (fun b => inr (string_of_list_byte b))
    (fun html => inr html)
    (fun v => match v with PyInt z => Some z | _ => None end)
    (fun v => match v with PyStr s => Some s | _ => None end)
    (fun v => match v with PyStr _ => true | _ => false end)
    (fun v => match v with PyDict _ => true | _ => false end).

(** The clock reads the call index; nothing fails. *)
Definition healthy : Env :=
  mkEnv (fun t => Z.of_nat t) (fun _ => None) (fun _ => None)
        (fun _ => None) (fun _ => None).

(** Every backend call fails; the clock and Kafka work. *)
Definition broken_backend : Env :=
  mkEnv (fun t => Z.of_nat t) (fun _ => Some backend_error)
        (fun _ => Some backend_error) (fun _ => Some backend_error)
        (fun _ => None).

(** Only closing fails. *)
Definition broken_close : Env :=
  mkEnv (fun t => Z.of_nat t) (fun _ => None)
        (fun _ => Some backend_error) (fun _ => None) (fun _ => None).

Definition idle : World := mkWorld 0 [] [] 5 0 0 true true.
End Doubles.

(** * Vocabulary of the statements

    What the theorems speak of: the events a run added to the trace, the
    world a run leaves, and the shapes of traces. *)

(** The events added between [w] and a later world [w']. *)
Definition events_since (w w' : World) : list Event :=
  skipn (List.length (trace w)) (trace w').

(** [w] after [n] more calls to the outside, with events [evs] added and
    the pool holding [d]; nothing else changed. *)
Definition advance (w : World) (n : nat) (evs : list Event)
    (d : OrderedDict.t LightRAGWrapper.t) : World :=
  mkWorld (n + tick w) (trace w ++ evs)%list d (_semaphore w)
          (_jobs_processed w) (_jobs_failed w) (_running w) (consumer w).

(** The tenants on which [finalize_storages] was awaited, in order. *)
Fixpoint finalized (evs : list Event) : list string :=
  match evs with
  | [] => []
  | EvFinalize cid _ _ :: evs' => cid :: finalized evs'
  | _ :: evs' => finalized evs'
  end.

(** The tenants for which a backend was constructed, in order. *)
Fixpoint constructed (evs : list Event) : list string :=
  match evs with
  | [] => []
  | EvCreate cid _ None :: evs' => cid :: constructed evs'
  | _ :: evs' => constructed evs'
  end.

(** The loop's own events, as against those of the pool and the backend. *)
Definition is_loop_event (e : Event) : bool :=
  match e with
  | EvDispatch _ | EvResult _ _ | EvCommit _ _ _ => true
  | _ => false
  end.

Definition is_log (e : Event) : bool :=
  match e with EvLog _ _ => true | _ => false end.

Definition is_close_event (e : Event) : bool :=
  match e with EvFinalize _ _ _ | EvLog _ _ => true | _ => false end.

(** [w] with [evs] added to the trace. *)
Definition logged (w : World) (evs : list Event) : World :=
  advance w 0 evs (instances w).

(** The records of a stream, in the order of their delivery. *)
Fixpoint records (stream : list IndexingJobConsumer.delivery)
    : list IndexingJobConsumer.ConsumerRecord :=
  match stream with
  | [] => []
  | IndexingJobConsumer.Message m :: rest => m :: records rest
  | _ :: rest => records rest
  end.

(** The offsets on which [commit] was awaited, in order. *)
Fixpoint commits (evs : list Event) : list (Z * Z) :=
  match evs with
  | [] => []
  | EvCommit p o _ :: evs' => (p, o) :: commits evs'
  | _ :: evs' => commits evs'
  end.

Definition position (m : IndexingJobConsumer.ConsumerRecord) : Z * Z :=
  (IndexingJobConsumer.partition m, IndexingJobConsumer.offset m).

(** The loop's events for the records [ms], in order: a record that did
    not construct a message leaves none; a handled record leaves its
    dispatch, the handler's return and the commit, in that order and before
    anything of the next record; a record whose handler never returns leaves
    its dispatch, and nothing follows. *)
Inductive sequential
    : list IndexingJobConsumer.ConsumerRecord -> list Event -> Prop :=
| seq_end : sequential [] []
| seq_skipped m ms evs :
    sequential ms evs -> sequential (m :: ms) evs
| seq_handled m ms j s c evs :
    sequential ms evs ->
    sequential (m :: ms)
      (EvDispatch j :: EvResult j s
         :: EvCommit (IndexingJobConsumer.partition m)
              (IndexingJobConsumer.offset m) c :: evs)
| seq_waiting m j : sequential [m] [EvDispatch j].

(** The largest number of handler calls that were awaited and had not
    returned, over the prefixes of [evs], starting from [cur]. *)
Fixpoint peak_in_flight (cur : nat) (evs : list Event) : nat :=
  match evs with
  | [] => cur
  | EvDispatch _ :: evs' => Nat.max cur (peak_in_flight (S cur) evs')
  | EvResult _ _ :: evs' => Nat.max cur (peak_in_flight (Nat.pred cur) evs')
  | _ :: evs' => peak_in_flight cur evs'
  end.

Inductive subseq {A : Type} : list A -> list A -> Prop :=
| sub_nil l : subseq [] l
| sub_take x l1 l2 : subseq l1 l2 -> subseq (x :: l1) (x :: l2)
| sub_skip x l1 l2 : subseq l1 l2 -> subseq l1 (x :: l2).

(** The operations callers make on the pool. *)
Inductive pool_op : Type :=
| Get (cid : string)
| Release (cid : string)
| EvictExpired
| CloseAll.


Definition popitem_KeyError : exn := mkExn KeyError "'dictionary is empty'".

Definition expired_warning (_ : string) : string :=
  "Error finalizing expired RAG instance: ".

Definition evicted_warning (_ : string) : string :=
  "Error finalizing evicted RAG instance: ".


(** [w'] is [w] but for the pool, the counters and the events [evs]. *)
Definition pipeline_step (w w' : World) (evs : list Event) : Prop :=
  trace w' = (trace w ++ evs)%list
  /\ _semaphore w' = _semaphore w
  /\ _running w' = _running w
  /\ consumer w' = consumer w.

Definition no_pool_get (evs : list Event) : Prop :=
  forall cid, ~ In (EvPoolGet cid) evs.

Section Vocabulary.
Variable lib : Library.
Variable env : Env.
Variable settings : Settings.
Import LightRAGPool LightRAGWrapper DocumentProcessor IndexingJobConsumer.

Abbreviation max := (max_rag_instances settings).
Abbreviation dict := (OrderedDict.t LightRAGWrapper.t).

Definition workspace_name (cid : string) : string :=
  "ws_" ++ replace_char "-" "_" cid.

(** [d] after [d.pop(k)] for each [k] of [ks]. *)
Definition remove_all (ks : list string) (d : dict) : dict :=
  fold_left (fun d' k => OrderedDict.remove k d') ks d.

(** The events of one guarded [finalize_storages] made at call [t]. *)
Definition finalize_events (t : nat) (cid : string) (wr : LightRAGWrapper.t)
    (warning : string) : list Event :=
  EvFinalize cid (rag wr) (finalize_storages env t)
  :: match finalize_storages env t with
     | None => []
     | Some e => [EvLog WARNING (warning ++ str e)]
     end.

(** How many entries the eviction loop pops from [d]. *)
Fixpoint evicted (d : dict) : nat :=
  if max <=? Z.of_nat (List.length d) then
    match d with
    | [] => O
    | _ :: rest => S (evicted rest)
    end
  else O.

(** The events of the eviction loop started at call [t] on [d]. *)
Fixpoint evict_events (t : nat) (d : dict) : list Event :=
  if max <=? Z.of_nat (List.length d) then
    match d with
    | [] => []
    | (oldest_id, oldest_wrapper) :: rest =>
        (finalize_events t oldest_id oldest_wrapper
           "Error finalizing evicted RAG instance: "
         ++ evict_events (S t) rest)%list
    end
  else [].

(** The events of closing [victims] one after the other from call [t]. *)
Fixpoint close_events (warning : string -> string) (t : nat)
    (victims : dict) : list Event :=
  match victims with
  | [] => []
  | (cid, wr) :: rest =>
      (finalize_events t cid wr (warning cid)
       ++ close_events warning (S t) rest)%list
  end.

Definition run_op (op : pool_op) : M unit :=
  match op with
  | Get cid => _ <- get env settings cid ;; ret tt
  | Release cid => release env cid
  | EvictExpired => _ <- cleanup_expired env settings ;; ret tt
  | CloseAll => close_all env
  end.

(** The world after the operations ran one after the other; one that
    raised leaves the world as it was when it raised. *)
Definition run_ops (ops : list pool_op) (w : World) : World :=
  fold_left (fun w' op => snd (run_op op w')) ops w.

(** The pool's invariant: at most [max_rag_instances] entries - none when
    the setting is not positive - and no key twice. *)
Definition pool_ok (w : World) : Prop :=
  Z.of_nat (List.length (instances w)) <= Z.max 0 (max_rag_instances settings)
  /\ NoDup (OrderedDict.keys (instances w)).

(** What one run of [_process_internal] amounts to. *)
Record processed (job : IndexingJobMessage.t) (w w' : World)
    (evs : list Event) (r : ProcessingResult.t) : Prop := {
  run_step : pipeline_step w w' evs;
  run_backend_only : Forall (fun e => is_loop_event e = false) evs;
  run_ids :
    ProcessingResult.job_id r = IndexingJobMessage.job_id job
    /\ ProcessingResult.url r = IndexingJobMessage.url job
    /\ ProcessingResult.collection_id r
       = IndexingJobMessage.collection_id job;
  run_success :
    ProcessingResult.success r = true ->
    ProcessingResult.error_message r = None
    /\ exists rag text,
         In (EvInsert rag (IndexingJobMessage.url job) text None) evs
         /\ fst (_extract_text lib job w) = Return text
         /\ ProcessingResult.text_length r = Z.of_nat (String.length text);
  run_failure :
    ProcessingResult.success r = false ->
    exists msg, ProcessingResult.error_message r = Some msg;
  run_extraction_failure :
    forall e, fst (_extract_text lib job w) = Raise e ->
    ProcessingResult.success r = false
    /\ ProcessingResult.error_message r = Some (str e)
    /\ no_pool_get evs /\ instances w' = instances w;
  run_no_text :
    fst (_extract_text lib job w) = Return "" ->
    ProcessingResult.success r = false
    /\ ProcessingResult.error_message r
       = Some "No text content extracted from document"
    /\ no_pool_get evs /\ instances w' = instances w;
  run_construction_failure :
    forall cid ws e, In (EvCreate cid ws (Some e)) evs ->
    ProcessingResult.success r = false
    /\ ProcessingResult.error_message r = Some (str e);
  run_write_failure :
    forall rag doc_id text e, In (EvInsert rag doc_id text (Some e)) evs ->
    ProcessingResult.success r = false
    /\ ProcessingResult.error_message r = Some (str e)
}.

Definition commit_failure (t : nat) : option exn :=
  option_map (mkExn KafkaError) (commit env t).

(** What a handled record adds to the trace after the handler's own
    events: the result, the commit, and the log line of a failed
    commit. *)
Definition after_handler (m : ConsumerRecord) (job_id : Z) (success : bool)
    (t : nat) : list Event :=
  [EvResult job_id success;
   EvCommit (partition m) (offset m) (commit_failure t)]
  ++ match commit_failure t with
     | None => []
     | Some _ => [EvLog ERROR "Error processing message"]
     end.

End Vocabulary.

(** Jobs and payloads of the examples. *)

Module Examples.
Definition empty_content : PageContent.t :=
  PageContent.mk "" "" "" "text/html" "gzip+base64" 0.

Definition job (content : option PageContent.t) : IndexingJobMessage.t :=
  IndexingJobMessage.mk 1 1 1 "u1" "t1" "https://x/doc" 0 "" content
    None None.

Definition hello : PageContent.t :=
  PageContent.mk "" "hello world" "" "text/html" "gzip+base64" 0.
End Examples.

Module Payloads.
(** The job of the spec's scenario, content [{html: "", text: ""}]. *)
Definition empty_content_job : pyval :=
  PyDict [("job_id", PyInt 1); ("request_id", PyInt 1);
          ("project_id", PyInt 1); ("user_id", PyStr "u1");
          ("collection_id", PyStr "t1"); ("url", PyStr "https://x/doc");
          ("content", PyDict [("html", PyStr ""); ("text", PyStr "")])].

(** A JSON object with none of the required fields. *)
Definition no_fields : pyval := PyDict [].
End Payloads.

From Stdlib Require Import Sorted.

(** * Further vocabulary: the pool *)

(** [c in s] for a character. *)
Fixpoint has_char (c : ascii) (s : string) : bool :=
  match s with
  | EmptyString => false
  | String c' s' => Ascii.eqb c' c || has_char c s'
  end.

(** Every entry sits under its own tenant: the wrapper names the key it is
    stored under, and its backend was built for that tenant's workspace. *)
Definition well_keyed (d : OrderedDict.t LightRAGWrapper.t) : Prop :=
  Forall (fun kv =>
            LightRAGWrapper.collection_id (snd kv) = fst kv
            /\ LightRAG.workspace (LightRAGWrapper.rag (snd kv))
               = workspace_name (fst kv)) d.

(** [time.time()] never goes back. *)
Definition monotone_clock (env : Env) : Prop :=
  forall t t' : nat, (t <= t')%nat -> time_time env t <= time_time env t'.

(** [a] was last used no later than [b]. *)
Definition used_before (a b : string * LightRAGWrapper.t) : Prop :=
  LightRAGWrapper.last_used (snd a) <= LightRAGWrapper.last_used (snd b).

(** Both timestamps of every entry were read from the clock before the
    call [t], the creation no later than the last use. *)
Definition stamped_before (env : Env) (t : nat)
    (d : OrderedDict.t LightRAGWrapper.t) : Prop :=
  Forall (fun kv =>
            exists c u : nat,
              (c <= u)%nat /\ (u < t)%nat
              /\ LightRAGWrapper.created_at (snd kv) = time_time env c
              /\ LightRAGWrapper.last_used (snd kv) = time_time env u) d.

(** * Further vocabulary: the pipeline *)

(** The backend writes of a trace, in order: the handle, the document id,
    the text, and how the write ended. *)
Fixpoint writes (evs : list Event)
    : list (LightRAG.t * string * string * option exn) :=
  match evs with
  | [] => []
  | EvInsert rag doc_id text err :: evs' =>
      (rag, doc_id, text, err) :: writes evs'
  | _ :: evs' => writes evs'
  end.

(** What a run leaves of the books: the events it added, the slot count,
    the two counters, the pool. *)
Record account (w w' : World) (evs : list Event) (done failed : Z) : Prop := {
  acc_trace : trace w' = (trace w ++ evs)%list;
  acc_semaphore : _semaphore w' = _semaphore w;
  acc_processed : _jobs_processed w' = _jobs_processed w + done;
  acc_failed : _jobs_failed w' = _jobs_failed w + failed
}.

(** * Further vocabulary: the loop *)

(** [IndexingJobMessage(...)] accepts the value of the record. *)
Definition constructs (lib : Library)
    (m : IndexingJobConsumer.ConsumerRecord) : bool :=
  match messages.IndexingJobMessage_init lib (IndexingJobConsumer.value m) with
  | inr _ => true
  | inl _ => false
  end.

(** The jobs the loop handed to the handler, in order. *)
Fixpoint dispatched (evs : list Event) : list Z :=
  match evs with
  | [] => []
  | EvDispatch job_id :: evs' => job_id :: dispatched evs'
  | _ :: evs' => dispatched evs'
  end.

(** The job id a record carries, when it constructs a message. *)
Definition job_ids (lib : Library)
    (ms : list IndexingJobConsumer.ConsumerRecord) : list Z :=
  flat_map
    (fun m =>
       match messages.IndexingJobMessage_init lib
               (IndexingJobConsumer.value m) with
       | inr job => [IndexingJobMessage.job_id job]
       | inl _ => []
       end) ms.

(** What the loop keeps from one record to the next. *)
Record turn (w w' : World) (evs : list Event) : Prop := {
  turn_trace : trace w' = (trace w ++ evs)%list;
  turn_semaphore : _semaphore w' = _semaphore w;
  turn_running : _running w' = _running w;
  turn_consumer : consumer w' = consumer w
}.

(** * [consumer/kafka_consumer.py]: [start], [stop], [run]

    What the Kafka client answers - the constructor [AIOKafkaConsumer(...)],
    [await consumer.start()], [await consumer.stop()] - is read by call
    index, as for the other collaborators; [None] is success. *)

Record KafkaClient : Type := mkKafkaClient {
  AIOKafkaConsumer : nat -> option exn;
  consumer_start : nat -> option exn;
  consumer_stop : nat -> option exn
}.

Module ConsumerLifecycle.
Section WithEnv.
Variable lib : Library.
Variable env : Env.
Variable kafka : KafkaClient.
Variable message_handler : IndexingJobMessage.t -> M ProcessingResult.t.

(** [self.consumer = ...] *)
Definition set_consumer (b : bool) : M unit :=
  fun w => (Return tt,
            mkWorld (tick w) (trace w) (instances w) (_semaphore w)
                    (_jobs_processed w) (_jobs_failed w) (_running w) b).

Definition get_consumer : M bool :=
  fun w => (Return (consumer w), w).

(** One call to the client. *)
Definition kafka_call (answer : nat -> option exn) : M unit :=
  t <- next_call ;;
  match answer t with
  | None => ret tt
  | Some e => raise e
  end.

Definition start : M unit :=
  kafka_call (AIOKafkaConsumer kafka) ;;
  set_consumer true ;;
  kafka_call (consumer_start kafka) ;;
  set_running true.

(** [self._tasks] is created empty and nothing adds to it: there is never
    a task to wait for. *)
Definition stop : M unit :=
  set_running false ;;
  started <- get_consumer ;;
  if started then kafka_call (consumer_stop kafka) else ret tt.

Definition run (stream : list IndexingJobConsumer.delivery) : M unit :=
  start ;;
  try_finally
    (IndexingJobConsumer.consume lib env message_handler stream)
    stop.
End WithEnv.
End ConsumerLifecycle.

(** * The constructors of the components *)

Module Components.
(** [LightRAGPool.__init__]: no instance yet. *)
Definition LightRAGPool_init : M unit := set_instances [].

(** [DocumentProcessor.__init__]: the semaphore and the two counters.
    [asyncio.Semaphore] refuses a negative value. *)
Definition DocumentProcessor_init (settings : Settings) : M unit :=
  fun w =>
    if max_workers settings <? 0 then
      (Raise (mkExn ValueError "Semaphore initial value must be >= 0"), w)
    else
      (Return tt,
       mkWorld (tick w) (trace w) (instances w) (max_workers settings) 0 0
               (_running w) (consumer w)).

(** [IndexingJobConsumer.__init__]: no client, not running. *)
Definition IndexingJobConsumer_init : M unit :=
  fun w =>
    (Return tt,
     mkWorld (tick w) (trace w) (instances w) (_semaphore w)
             (_jobs_processed w) (_jobs_failed w) false false).

(** [IndexingJobConsumer.__init__(self, settings, message_handler)] *)
Definition IndexingJobConsumer_parameters : list string :=
  ["settings"; "message_handler"].

(** Calling [callee] with keyword arguments: a keyword that is not among
    its parameters is a [TypeError]. *)
Definition unexpected_keyword (callee : string)
    (parameters keywords : list string) : option exn :=
  match filter (fun k => negb (existsb (String.eqb k) parameters)) keywords with
  | [] => None
  | k :: _ =>
      Some (mkExn TypeError
              (callee ++ "() got an unexpected keyword argument '"
                 ++ k ++ "'"))
  end.
End Components.

(** * Coroutines over any state

    The monad of [M], for the objects that are not part of the [World]. *)

Module Co.
Section WithState.
Context {S : Type}.

Definition t (X : Type) : Type := S -> outcome X * S.

Definition ret {X} (x : X) : t X := fun s => (Return x, s).

Definition raise {X} (e : exn) : t X := fun s => (Raise e, s).

Definition bind {X Y} (m : t X) (k : X -> t Y) : t Y :=
  fun s =>
    match m s with
    | (Return x, s') => k x s'
    | (Raise e, s') => (Raise e, s')
    | (Suspend, s') => (Suspend, s')
    end.

(** [try: body  except Exception as e: handler e] *)
Definition try_except {X} (body : t X) (handler : exn -> t X) : t X :=
  fun s =>
    match body s with
    | (Raise e, s') => handler e s'
    | r => r
    end.

(** [try: body  finally: cleanup] *)
Definition try_finally {X} (body : t X) (cleanup : t unit) : t X :=
  fun s =>
    match body s with
    | (Return x, s') =>
        match cleanup s' with
        | (Return _, s'') => (Return x, s'')
        | (Raise e, s'') => (Raise e, s'')
        | (Suspend, s'') => (Suspend, s'')
        end
    | (Raise e, s') =>
        match cleanup s' with
        | (Return _, s'') => (Raise e, s'')
        | (Raise e', s'') => (Raise e', s'')
        | (Suspend, s'') => (Suspend, s'')
        end
    | (Suspend, s') => (Suspend, s')
    end.

Definition get : t S := fun s => (Return s, s).

Definition put (s' : S) : t unit := fun _ => (Return tt, s').
End WithState.
Arguments t : clear implicits.
End Co.

Declare Scope co_scope.
Delimit Scope co_scope with co.
Notation "x <- m ;; k" := (Co.bind m (fun x => k))
  (at level 61, m at next level, right associativity) : co_scope.
Notation "m ;; k" := (Co.bind m (fun _ => k))
  (at level 61, right associativity) : co_scope.

(** * [app/main.py]: [initialize], [shutdown], [main]

    The attributes of the [RAGAgent] object say which components exist;
    the components themselves are the [World]. *)

Module Agent.
Record t : Type := mk {
  _running : bool;
  rag_pool : bool;       (** [self.rag_pool is not None] *)
  processor : bool;      (** [self.processor is not None] *)
  consumer : bool;       (** [self.consumer is not None] *)
  world : World
}.

(** [RAGAgent()] *)
Definition new (w : World) : t := mk false false false false w.

Definition A (X : Type) : Type := Co.t t X.

(** A coroutine of a component, awaited by the agent. *)
Definition on_world {X} (m : M X) : A X :=
  fun a =>
    let (o, w') := m (world a) in
    (o, mk (_running a) (rag_pool a) (processor a) (consumer a) w').

Local Open Scope co_scope.

Definition set_running (b : bool) : A unit :=
  fun a => (Return tt, mk b (rag_pool a) (processor a) (consumer a) (world a)).

Definition set_rag_pool : A unit :=
  fun a => (Return tt, mk (_running a) true (processor a) (consumer a)
                          (world a)).

Definition set_processor : A unit :=
  fun a => (Return tt, mk (_running a) (rag_pool a) true (consumer a)
                          (world a)).

Definition set_consumer : A unit :=
  fun a => (Return tt, mk (_running a) (rag_pool a) (processor a) true
                          (world a)).

Definition get_consumer : A bool := fun a => (Return (consumer a), a).

Definition get_rag_pool : A bool := fun a => (Return (rag_pool a), a).

Section WithEnv.
Variable env : Env.
Variable kafka : KafkaClient.
Variable settings : Settings.
(** [logging.getLogger().setLevel(self.settings.log_level)]: a
    [ValueError] for a level that [logging] does not know. *)
Variable setLevel : option exn.

(** [init_metrics] catches every [Exception] and returns a [Metrics] or
    [None]; what it returns is passed on and not looked at. *)
Definition initialize : A unit :=
  match setLevel with Some e => Co.raise e | None => Co.ret tt end ;;
  on_world Components.LightRAGPool_init ;;
  set_rag_pool ;;
  on_world (Components.DocumentProcessor_init settings) ;;
  set_processor ;;
  match Components.unexpected_keyword "IndexingJobConsumer.__init__"
          Components.IndexingJobConsumer_parameters
          ["settings"; "message_handler"; "metrics"] with
  | Some e => Co.raise e
  | None => on_world Components.IndexingJobConsumer_init ;; set_consumer
  end.

Definition shutdown : A unit :=
  set_running false ;;
  has_consumer <- get_consumer ;;
  (if has_consumer then on_world (ConsumerLifecycle.stop kafka)
   else Co.ret tt) ;;
  has_pool <- get_rag_pool ;;
  if has_pool then on_world (LightRAGPool.close_all env) else Co.ret tt.

(** [RAGAgent.run] starts the clean-up task beside the consumer: it is
    any coroutine [run] here. [KeyboardInterrupt] is no [Exception]. *)
Definition main (run : A unit) : A unit :=
  Co.try_finally (initialize ;; run) shutdown.
End WithEnv.
End Agent.

(** * [api/status_client.py] and [JobStatusUpdate] of [models/messages.py] *)

Module JobStatusUpdate.
Record t : Type := mk {
  status : string;
  error_msg : option string
}.

(** [payload.model_dump(exclude_none=True)] *)
Definition model_dump_exclude_none (payload : t) : pyval :=
  PyDict
    (("status", PyStr (status payload))
     :: match error_msg payload with
        | Some msg => [("error_msg", PyStr msg)]
        | None => []
        end).
End JobStatusUpdate.

Module StatusClient.
(** [s.rstrip(c)] for one character. *)
Fixpoint rstrip (c : ascii) (s : string) : string :=
  match s with
  | EmptyString => EmptyString
  | String a s' =>
      match rstrip c s' with
      | EmptyString => if Ascii.eqb a c then EmptyString else String a EmptyString
      | rest => String a rest
      end
  end.

(** An [aiohttp.ClientSession]: what it was built with, and whether it
    has been closed. *)
Record ClientSession : Type := mkSession {
  session_timeout : Z;
  headers : list (string * string);
  closed : bool
}.

(** A request handed to a session, and what came of it: the status of
    the response, or the exception raised on the way. *)
Record Exchange : Type := mkExchange {
  method : string;
  url : string;
  json : option pyval;
  sent_headers : list (string * string);
  answer : exn + Z
}.

(** What aiohttp answers, by call index. A session that fails to close
    is taken to stay open. *)
Record Http : Type := mkHttp {
  ClientSession_init : nat -> option exn;
  request : nat -> exn + Z;
  resp_text : nat -> exn + string;
  session_close : nat -> option exn
}.

Record t : Type := mk {
  base_url : string;
  timeout : Z;
  internal_api_key : string;
  _session : option ClientSession;
  calls : nat;                  (** calls made to aiohttp so far *)
  sessions_created : nat;       (** sessions built so far *)
  exchanges : list Exchange     (** oldest first *)
}.

Definition __init__ (go_backend_url : string) (go_backend_timeout : Z)
    (internal_api_key : string) : t :=
  mk (rstrip "/" go_backend_url) go_backend_timeout internal_api_key None
     0 0 [].

Local Open Scope co_scope.

Definition next_call : Co.t t nat :=
  fun c => (Return (calls c),
            mk (base_url c) (timeout c) (internal_api_key c) (_session c)
               (S (calls c)) (sessions_created c) (exchanges c)).

Definition set_session (s : ClientSession) (built : bool) : Co.t t unit :=
  fun c => (Return tt,
            mk (base_url c) (timeout c) (internal_api_key c) (Some s)
               (calls c)
               (if built then S (sessions_created c) else sessions_created c)
               (exchanges c)).

Definition record (x : Exchange) : Co.t t unit :=
  fun c => (Return tt,
            mk (base_url c) (timeout c) (internal_api_key c) (_session c)
               (calls c) (sessions_created c) (exchanges c ++ [x])%list).

Section WithHttp.
Variable http : Http.

(** [aiohttp.ClientSession(timeout=self.timeout, headers=headers)] *)
Definition new_session : Co.t t ClientSession :=
  c <- Co.get ;;
  let headers :=
    if is_empty (internal_api_key c) then []
    else [("X-Internal-API-Key", internal_api_key c)] in
  k <- next_call ;;
  match ClientSession_init http k with
  | Some e => Co.raise e
  | None =>
      let session := mkSession (timeout c) headers false in
      set_session session true ;;
      Co.ret session
  end.

Definition _get_session : Co.t t ClientSession :=
  c <- Co.get ;;
  match _session c with
  | None => new_session
  | Some session => if closed session then new_session else Co.ret session
  end.

Definition close : Co.t t unit :=
  c <- Co.get ;;
  match _session c with
  | None => Co.ret tt
  | Some session =>
      if closed session then Co.ret tt
      else
        k <- next_call ;;
        match session_close http k with
        | Some e => Co.raise e
        | None =>
            set_session
              (mkSession (session_timeout session) (headers session) true)
              false
        end
  end.

(** Entering [async with session.put(url, json=...) as resp], or
    [session.get(url)]: the status of the response. *)
Definition send (session : ClientSession) (method url : string)
    (json : option pyval) : Co.t t Z :=
  k <- next_call ;;
  record (mkExchange method url json (headers session) (request http k)) ;;
  match request http k with
  | inl e => Co.raise e
  | inr status => Co.ret status
  end.

(** [await resp.text()] *)
Definition text : Co.t t string :=
  k <- next_call ;;
  match resp_text http k with
  | inl e => Co.raise e
  | inr body => Co.ret body
  end.

(** Both [except] clauses log and return [False]. *)
Definition update_job_status (job_id : Z) (status : string)
    (error_msg : option string) : Co.t t bool :=
  c <- Co.get ;;
  let url := base_url c ++ "/api/indexing/jobs/"
               ++ DocumentProcessor.str_of_int job_id ++ "/status" in
  let payload := JobStatusUpdate.mk status error_msg in
  Co.try_except
    (session <- _get_session ;;
     resp_status <-
       send session "PUT" url
         (Some (JobStatusUpdate.model_dump_exclude_none payload)) ;;
     if resp_status =? 200 then Co.ret true
     else
       response_text <- text ;;
       Co.ret false)
    (fun e => Co.ret false).

Definition increment_completed_jobs (request_id : Z) : Co.t t bool :=
  c <- Co.get ;;
  let url := base_url c ++ "/api/indexing/requests/"
               ++ DocumentProcessor.str_of_int request_id ++ "/status" in
  let payload := PyDict [("increment_completed_jobs", PyBool true)] in
  Co.try_except
    (session <- _get_session ;;
     resp_status <- send session "PUT" url (Some payload) ;;
     if resp_status =? 200 then Co.ret true
     else
       response_text <- text ;;
       Co.ret false)
    (fun e => Co.ret false).

Definition health_check : Co.t t bool :=
  c <- Co.get ;;
  let url := base_url c ++ "/health" in
  Co.try_except
    (session <- _get_session ;;
     resp_status <- send session "GET" url None ;;
     Co.ret (resp_status =? 200))
    (fun e => Co.ret false).
End WithHttp.
End StatusClient.

(** The calls made on a status client. *)
Inductive client_op : Type :=
| UpdateJobStatus (job_id : Z) (status : string) (error_msg : option string)
| IncrementCompletedJobs (request_id : Z)
| HealthCheck
| Close.

Definition run_client_op (http : StatusClient.Http) (op : client_op)
    (c : StatusClient.t) : StatusClient.t :=
  match op with
  | UpdateJobStatus job_id status error_msg =>
      snd (StatusClient.update_job_status http job_id status error_msg c)
  | IncrementCompletedJobs request_id =>
      snd (StatusClient.increment_completed_jobs http request_id c)
  | HealthCheck => snd (StatusClient.health_check http c)
  | Close => snd (StatusClient.close http c)
  end.

(** The client after the calls were made one after the other. *)
Definition run_client_ops (http : StatusClient.Http) (ops : list client_op)
    (c : StatusClient.t) : StatusClient.t :=
  fold_left (fun c' op => run_client_op http op c') ops c.

Definition is_close (op : client_op) : bool :=
  match op with Close => true | _ => false end.

(** The headers of a session of a client with that key. *)
Definition api_key_headers (key : string) : list (string * string) :=
  if is_empty key then [] else [("X-Internal-API-Key", key)].

(** [s.endswith(c)] for one character. *)
Fixpoint ends_with (c : ascii) (s : string) : bool :=
  match s with
  | EmptyString => false
  | String a EmptyString => Ascii.eqb a c
  | String _ s' => ends_with c s'
  end.

(** The session of the client, if it has one that is open. *)
Definition open_session (c : StatusClient.t) : option StatusClient.ClientSession :=
  match StatusClient._session c with
  | Some session =>
      if StatusClient.closed session then None else Some session
  | None => None
  end.

(** A client built for [go_backend_url] and [key], [closes] calls of
    [close] later: its sessions and its requests carry the headers of the
    key, its requests go to paths under the base url, and it has built no
    more sessions than it was asked to close, plus the one it may hold. *)
Record client_ok (go_backend_url key : string) (closes : nat)
    (c : StatusClient.t) : Prop := {
  ok_base : StatusClient.base_url c = StatusClient.rstrip "/" go_backend_url;
  ok_key : StatusClient.internal_api_key c = key;
  ok_session :
    forall s, StatusClient._session c = Some s ->
              StatusClient.headers s = api_key_headers key;
  ok_sent :
    Forall (fun x =>
              StatusClient.sent_headers x = api_key_headers key
              /\ exists path,
                   StatusClient.url x
                   = StatusClient.rstrip "/" go_backend_url
                     ++ String "/" path)
      (StatusClient.exchanges c);
  ok_count :
    (StatusClient.sessions_created c
     <= closes + match open_session c with Some _ => 1 | None => 0 end)%nat
}.

(** What a call that reports on one request leaves: nothing was sent and
    the report is [False], or one exchange was added - that request - and
    the report tells whether its answer was a response with status 200. *)
Definition reports (c c' : StatusClient.t) (b : bool)
    (method url : string) (json : option pyval) : Prop :=
  (StatusClient.exchanges c' = StatusClient.exchanges c /\ b = false)
  \/ exists x,
       StatusClient.exchanges c' = (StatusClient.exchanges c ++ [x])%list
       /\ StatusClient.method x = method
       /\ StatusClient.url x = url
       /\ StatusClient.json x = json
       /\ b = match StatusClient.answer x with
              | inr status => status =? 200
              | inl _ => false
              end.

(** * [src/indexer/scrapper.py] *)

Module scrapper.
(** An entry of [pages]: the dict with keys [url], [html], [text]. *)
Record Page : Type := mkPage {
  url : string;
  html : string;
  text : string
}.

(** The site and the libraries the crawl goes through. [inl] is a raised
    exception; only [requests.get] is guarded, by a bare [except].
    [is_relevant_docs_url] is imported from [utils.url_filter], which is
    not among the sources: it is any function here. *)
Record Web : Type := mkWeb {
  netloc : string -> exn + string;
      (** [urlparse(url).netloc] *)
  urljoin : string -> string -> exn + string;
  is_relevant_docs_url : string -> string -> exn + bool;
  requests_get : string -> option string;
      (** [res.text]; [None] when [requests.get] raised *)
  soup : string -> exn + (string * list (option string))
      (** [BeautifulSoup(html, "html.parser")]: its
          [get_text(" ", strip=True)] and [a.get("href")] for each [a] of
          [find_all("a")] *)
}.

Section WithWeb.
Variable web : Web.
Variable base_url : string.
Variable max_depth : Z.
Variable domain : string.

(** [for a in soup.find_all("a"): ...]: what the loop appends to the
    queue. *)
Fixpoint new_links (url : string) (depth : Z) (hrefs : list (option string))
    : exn + list (string * Z) :=
  match hrefs with
  | [] => inr []
  | None :: rest => new_links url depth rest
  | Some href :: rest =>
      if is_empty href then new_links url depth rest
      else
        match urljoin web url href with
        | inl e => inl e
        | inr full =>
            match netloc web full with
            | inl e => inl e
            | inr n =>
                match new_links url depth rest with
                | inl e => inl e
                | inr more =>
                    inr (if String.eqb n domain
                         then (full, depth + 1) :: more else more)
                end
            end
        end
  end.

(** The loop while [len(pages) < max_pages]: [pages] stays as it is until
    a page is appended, and the loop goes on as [continue_with] from
    there. *)
Fixpoint scan
    (continue_with :
       list (string * Z) -> list string -> list Page -> exn + list Page)
    (pages : list Page) (queue : list (string * Z)) (visited : list string)
    {struct queue} : exn + list Page :=
  match queue with
  | [] => inr pages
  | (url, depth) :: rest =>
      if max_depth <? depth then scan continue_with pages rest visited
      else if existsb (String.eqb url) visited then
        scan continue_with pages rest visited
      else
        let visited' := url :: visited in
        match is_relevant_docs_url web url base_url with
        | inl e => inl e
        | inr false => scan continue_with pages rest visited'
        | inr true =>
            match requests_get web url with
            | None => scan continue_with pages rest visited'
            | Some res_text =>
                match soup web res_text with
                | inl e => inl e
                | inr (text, hrefs) =>
                    match new_links url depth hrefs with
                    | inl e => inl e
                    | inr links =>
                        continue_with (rest ++ links)%list visited'
                          (pages ++ [mkPage url res_text text])%list
                    end
                end
            end
        end
  end.

(** [while queue: ...], with [budget] pages still to take: at
    [len(pages) >= max_pages] the loop only skips entries until it
    breaks. *)
Fixpoint crawl (budget : nat) (queue : list (string * Z))
    (visited : list string) (pages : list Page) {struct budget}
    : exn + list Page :=
  match budget with
  | O => inr pages
  | S budget' => scan (crawl budget') pages queue visited
  end.
End WithWeb.

Definition scrape_site (web : Web) (base_url : string) (max_pages max_depth : Z)
    : exn + list Page :=
  match netloc web base_url with
  | inl e => inl e
  | inr domain =>
      crawl web base_url max_depth domain (Z.to_nat max_pages)
        [(base_url, 0)] [] []
  end.
End scrapper.

(** A page that [scrape_site] may return: it was judged relevant, fetched
    and parsed, and it lies on the domain of the base url. *)
Definition scraped (web : scrapper.Web) (base_url domain : string)
    (p : scrapper.Page) : Prop :=
  scrapper.is_relevant_docs_url web (scrapper.url p) base_url = inr true
  /\ scrapper.requests_get web (scrapper.url p) = Some (scrapper.html p)
  /\ (exists hrefs,
        scrapper.soup web (scrapper.html p) = inr (scrapper.text p, hrefs))
  /\ scrapper.netloc web (scrapper.url p) = inr domain.

(** The state of the crawl: pages, the urls seen and the queue. *)
Definition crawl_state (web : scrapper.Web) (base_url domain : string)
    (queue : list (string * Z)) (visited : list string)
    (pages : list scrapper.Page) : Prop :=
  NoDup (map scrapper.url pages)
  /\ Forall (scraped web base_url domain) pages
  /\ (forall p, In p pages -> In (scrapper.url p) visited)
  /\ Forall (fun entry => scrapper.netloc web (fst entry) = inr domain) queue.

(** What a crawl with [bound] pages to go returns, started with
    [pages0]. *)
Definition crawled (web : scrapper.Web) (base_url domain : string)
    (bound : nat) (pages0 : list scrapper.Page)
    (result : exn + list scrapper.Page) : Prop :=
  forall pages, result = inr pages ->
    (List.length pages <= List.length pages0 + bound)%nat
    /\ NoDup (map scrapper.url pages)
    /\ Forall (scraped web base_url domain) pages
    /\ exists more, pages = (pages0 ++ more)%list.

(** No library call of the crawl raises. *)
Definition libraries_return (web : scrapper.Web) : Prop :=
  (forall u, exists n, scrapper.netloc web u = inr n)
  /\ (forall u h, exists full, scrapper.urljoin web u h = inr full)
  /\ (forall u b, exists r, scrapper.is_relevant_docs_url web u b = inr r)
  /\ (forall h, exists parsed, scrapper.soup web h = inr parsed).

(** * [src/config.py]: where the API key comes from

    The process environment and the two kinds of file the module reads
    and writes. A file is what reading it gives: a [.env] file is the
    variables python-dotenv finds in it, the global [config.json] is what
    [open] and [json.load] make of it, and what [json.dump] wrote is what
    [json.load] reads back. *)

Module config.
(** The global [config.json]. *)
Inductive stored : Type :=
| Missing                 (** the file does not exist *)
| Unreadable              (** [open] or [read] raises [IOError] *)
| Malformed               (** [json.load] raises [JSONDecodeError] *)
| Holds (v : pyval).      (** [json.load] returns [v] *)

Record Os : Type := mkOs {
  environ : list (string * string);      (** [os.environ] *)
  dotenv_available : bool;               (** [DOTENV_AVAILABLE] *)
  env_files : list (string * list (string * option string));
      (** the [.env] files that exist, by path *)
  global_config : stored;
  fs_error : option exn
      (** what creating the configuration directory or writing a file
          raises, if anything *)
}.

(** [bool(v)] *)
Definition truthy (v : pyval) : bool :=
  match v with
  | PyNone => false
  | PyBool b => b
  | PyInt z => negb (z =? 0)
  | PyStr s => negb (is_empty s)
  | PyList l => match l with [] => false | _ :: _ => true end
  | PyDict items => match items with [] => false | _ :: _ => true end
  end.

(** [os.getenv(name)] *)
Definition getenv (name : string) (os : Os) : option string :=
  OrderedDict.getitem name (environ os).

(** [load_dotenv(path, override=False)] of python-dotenv: a variable of
    the file is set unless the environment has it already, or the file
    gives it no value. *)
Fixpoint load_dotenv (vars : list (string * option string))
    (environ : list (string * string)) : list (string * string) :=
  match vars with
  | [] => environ
  | (name, value) :: rest =>
      load_dotenv rest
        (if OrderedDict.contains name environ then environ
         else match value with
              | Some v => (environ ++ [(name, v)])%list
              | None => environ
              end)
  end.

(** [config.get(key)] for a dict. *)
Definition dict_get (key : string) (items : list (string * pyval)) : pyval :=
  match OrderedDict.getitem key items with
  | Some v => v
  | None => PyNone
  end.

(** [a or b] *)
Definition py_or (a b : pyval) : pyval := if truthy a then a else b.

(** [projects_dir / project_name / '.env'] *)
Definition _get_project_env_path (project_name projects_dir : string)
    : string :=
  projects_dir ++ "/" ++ project_name ++ "/.env".

Definition global_config_path : string := "~/.config/mcp-docs/config.json".

Local Open Scope co_scope.

Definition set_environ (environ' : list (string * string)) : Co.t Os unit :=
  fun os => (Return tt,
             mkOs environ' (dotenv_available os) (env_files os)
                  (global_config os) (fs_error os)).

Definition set_global_config (v : pyval) : Co.t Os unit :=
  fun os => (Return tt,
             mkOs (environ os) (dotenv_available os) (env_files os)
                  (Holds v) (fs_error os)).

Definition set_env_file (path : string)
    (vars : list (string * option string)) : Co.t Os unit :=
  fun os => (Return tt,
             mkOs (environ os) (dotenv_available os)
                  (OrderedDict.setitem path vars (env_files os))
                  (global_config os) (fs_error os)).

(** A step that needs the file system to take a write: [mkdir], [open]
    for writing, [chmod]. *)
Definition fs_write : Co.t Os unit :=
  os <- Co.get ;;
  match fs_error os with
  | Some e => Co.raise e
  | None => Co.ret tt
  end.

(** [_get_config_dir] creates the directory on the way. *)
Definition _get_global_config_path : Co.t Os string :=
  fs_write ;; Co.ret global_config_path.

(** [project_name and projects_dir] *)
Definition project_given (project_name projects_dir : option string)
    : option (string * string) :=
  match project_name, projects_dir with
  | Some name, Some dir => if is_empty name then None else Some (name, dir)
  | _, _ => None
  end.

(** The non-empty value of [OPENAI_API_KEY], if the environment has
    one. *)
Definition env_api_key (os : Os) : option string :=
  match getenv "OPENAI_API_KEY" os with
  | Some key => if is_empty key then None else Some key
  | None => None
  end.

Definition get_api_key (project_name projects_dir : option string)
    : Co.t Os pyval :=
  os <- Co.get ;;
  match env_api_key os with
  | Some api_key => Co.ret (PyStr api_key)
  | None =>
      from_project <-
        match project_given project_name projects_dir with
        | Some (name, dir) =>
            match OrderedDict.getitem (_get_project_env_path name dir)
                    (env_files os) with
            | Some vars =>
                if dotenv_available os then
                  set_environ (load_dotenv vars (environ os)) ;;
                  os1 <- Co.get ;;
                  Co.ret (env_api_key os1)
                else Co.ret None
            | None => Co.ret None
            end
        | None => Co.ret None
        end ;;
      match from_project with
      | Some api_key => Co.ret (PyStr api_key)
      | None =>
          _get_global_config_path ;;
          os2 <- Co.get ;;
          match global_config os2 with
          | Holds (PyDict items) =>
              let api_key :=
                py_or (dict_get "openai_api_key" items)
                      (dict_get "OPENAI_API_KEY" items) in
              if truthy api_key then Co.ret api_key else Co.ret PyNone
          | Holds _ =>
              Co.raise (mkExn OtherException
                          "AttributeError: object has no attribute 'get'")
          | Missing | Unreadable | Malformed => Co.ret PyNone
          end
      end
  end.

Section WithDotenv.
(** What python-dotenv reads back from the lines [key=value] that
    [save_api_key] writes for these variables. *)
Variable written : list (string * option string)
                   -> list (string * option string).

Definition save_api_key (api_key scope : string)
    (project_name projects_dir : option string) : Co.t Os string :=
  if String.eqb scope "project" then
    match project_given project_name projects_dir with
    | None =>
        Co.raise (mkExn ValueError
                    "project_name and projects_dir required for project scope")
    | Some (name, dir) =>
        let env_path := _get_project_env_path name dir in
        fs_write ;;
        os <- Co.get ;;
        let existing_vars :=
          match OrderedDict.getitem env_path (env_files os) with
          | Some vars => if dotenv_available os then vars else []
          | None => []
          end in
        fs_write ;;
        set_env_file env_path
          (written
             (OrderedDict.setitem "OPENAI_API_KEY" (Some api_key)
                existing_vars)) ;;
        Co.ret env_path
    end
  else
    config_path <- _get_global_config_path ;;
    os <- Co.get ;;
    let config :=
      match global_config os with
      | Holds v => v
      | Missing | Unreadable | Malformed => PyDict []
      end in
    match config with
    | PyDict items =>
        fs_write ;;
        set_global_config
          (PyDict (OrderedDict.setitem "openai_api_key" (PyStr api_key)
                     items)) ;;
        Co.ret config_path
    | _ =>
        Co.raise (mkExn TypeError
                    "object does not support item assignment")
    end.

(** [str.strip] and [str.lower]. *)
Variable strip : string -> string.
Variable lower : string -> string.

(** [prompt_api_key]. [reads] is what the terminal gives to the calls of
    [getpass.getpass] and [input], in the order they are made; when it
    runs out the read raises [EOFError]. *)
Fixpoint prompt_api_key (reads : list string) : exn + string :=
  match reads with
  | [] => inl (mkExn OtherException "EOFError")
  | typed :: reads' =>
      let api_key := strip typed in
      if is_empty api_key then prompt_api_key reads'
      else if String.prefix "sk-" api_key then inr api_key
      else
        match reads' with
        | [] => inl (mkExn OtherException "EOFError")
        | answer :: reads'' =>
            let response := lower (strip answer) in
            if String.eqb response "y" then inr api_key
            else prompt_api_key reads''
        end
  end.

End WithDotenv.
End config.

(** The third source: the global configuration, whatever the
    environment holds. *)
Definition from_global_config (os : config.Os) : outcome pyval :=
  match config.fs_error os with
  | Some e => Raise e
  | None =>
      match config.global_config os with
      | config.Holds (PyDict items) =>
          let api_key :=
            config.py_or (config.dict_get "openai_api_key" items)
                  (config.dict_get "OPENAI_API_KEY" items) in
          if config.truthy api_key then Return api_key else Return PyNone
      | config.Holds _ =>
          Raise (mkExn OtherException
                   "AttributeError: object has no attribute 'get'")
      | config.Missing | config.Unreadable | config.Malformed => Return PyNone
      end
  end.

(** The environment once the [.env] of a project has been loaded. *)
Definition with_dotenv (vars : list (string * option string))
    (os : config.Os) : config.Os :=
  config.mkOs (config.load_dotenv vars (config.environ os))
    (config.dotenv_available os) (config.env_files os)
    (config.global_config os) (config.fs_error os).

(** More test doubles. *)

Module MoreDoubles.
(** A Kafka client that works. *)
Definition kafka_up : KafkaClient :=
  mkKafkaClient (fun _ => None) (fun _ => None) (fun _ => None).

Definition broker_gone : exn := mkExn KafkaError "broker gone".

(** One that is built but cannot connect, nor stop. *)
Definition kafka_down : KafkaClient :=
  mkKafkaClient (fun _ => None) (fun _ => Some broker_gone)
    (fun _ => Some broker_gone).

(** A healthy backend; every commit fails. *)
Definition failing_commits : Env :=
  mkEnv (fun t => Z.of_nat t) (fun _ => None) (fun _ => None)
        (fun _ => None) (fun _ => Some "commit failed").

(** The codec of [Doubles.library], and a parser that fails on
    everything. *)
Definition broken_parser : Library :=
  mkLibrary (b64decode Doubles.library) (gzip_read Doubles.library)
    (utf8_decode Doubles.library)
    (fun _ => inl (mkExn OtherException "maximum recursion depth exceeded"))
    (validate_int Doubles.library) (validate_str Doubles.library)
    (validate_datetime Doubles.library) (validate_dict Doubles.library).

(** A page given as plain html only. *)
Definition html_only : PageContent.t :=
  PageContent.mk "<p>hello</p>" "" "" "text/html" "plain" 12.

(** A site of two pages: [http://d/a] links to [http://d/b], to a page
    of another host and to itself. *)
Definition two_pages : scrapper.Web :=
  scrapper.mkWeb
    (fun u => inr (if String.prefix "http://d/" u then "d" else "e"))
    (fun _ href => inr href)
    (fun _ _ => inr true)
    (fun u => if String.eqb u "http://d/a" then Some "A"
              else if String.eqb u "http://d/b" then Some "B" else None)
    (fun html =>
       if String.eqb html "A" then
         inr ("page a",
              [Some "http://d/b"; Some "http://e/x"; None; Some "http://d/a"])
       else inr ("page b", [Some "http://d/a"])).

(** A machine without a key: no variable, no file. *)
Definition no_key : config.Os := config.mkOs [] true [] config.Missing None.

(** Two projects with a key each. *)
Definition two_projects : config.Os :=
  config.mkOs [] true
    [("projects/a/.env", [("OPENAI_API_KEY", Some "sk-a")]);
     ("projects/b/.env", [("OPENAI_API_KEY", Some "sk-b")])]
    config.Missing None.

(** The variable is set; the project has another key. *)
Definition key_in_environment : config.Os :=
  config.mkOs [("OPENAI_API_KEY", "sk-env")] true
    [("projects/a/.env", [("OPENAI_API_KEY", Some "sk-a")])]
    config.Missing None.

(** [config.json] holds a list. *)
Definition list_in_config : config.Os :=
  config.mkOs [] true [] (config.Holds (PyList [])) None.

(** A job with text, and an object without fields. *)
Definition two_records : list IndexingJobConsumer.ConsumerRecord :=
  [IndexingJobConsumer.mkRecord
     (PyDict [("job_id", PyInt 7); ("request_id", PyInt 1);
              ("project_id", PyInt 1); ("user_id", PyStr "u1");
              ("collection_id", PyStr "t1");
              ("url", PyStr "https://x/doc");
              ("content", PyDict [("text", PyStr "hello world")])])
     0 40;
   IndexingJobConsumer.mkRecord Payloads.no_fields 0 41].
End MoreDoubles.

(** * Properties *)

(** ** [decompress_html] *)

Section Decompress.
Variable lib : Library.
Import html_cleaner.

Lemma is_empty_true (s : string) : is_empty s = true <-> s = "".
Proof. destruct s; simpl; split; congruence. Qed.

Lemma is_empty_false (s : string) : is_empty s = false <-> s <> "".
Proof. destruct s; simpl; split; congruence. Qed.




End Decompress.



(** ** Worlds and traces *)

Lemma advance_id (w : World) : advance w 0 [] (instances w) = w.
Proof. destruct w. unfold advance. cbn. rewrite app_nil_r. reflexivity. Qed.

Lemma advance_advance (w : World) n evs d n' evs' d' :
  advance (advance w n evs d) n' evs' d'
  = advance w (n' + n) (evs ++ evs')%list d'.
Proof.
  unfold advance. cbn. rewrite <- app_assoc, Nat.add_assoc. reflexivity.
Qed.

Lemma events_since_app (w : World) (tr : list Event) (evs : list Event) :
  skipn (List.length (trace w)) (trace w ++ evs)%list = evs.
Proof.
  rewrite skipn_app, skipn_all, Nat.sub_diag. reflexivity.
Qed.

Lemma events_since_app_raw (tr evs : list Event) :
  skipn (List.length tr) (tr ++ evs)%list = evs.
Proof. rewrite skipn_app, skipn_all, Nat.sub_diag. reflexivity. Qed.

Lemma events_since_advance (w : World) n evs d :
  events_since w (advance w n evs d) = evs.
Proof. unfold events_since, advance. cbn. apply (events_since_app w []). Qed.

Lemma events_since_refl (w : World) : events_since w w = [].
Proof. unfold events_since. apply skipn_all. Qed.

Lemma finalized_app (a b : list Event) :
  finalized (a ++ b)%list = (finalized a ++ finalized b)%list.
Proof.
  induction a as [| e a IH]; [reflexivity |].
  destruct e; cbn; rewrite ?IH; reflexivity.
Qed.

Lemma finalized_In (evs : list Event) cid r err :
  In (EvFinalize cid r err) evs -> In cid (finalized evs).
Proof.
  induction evs as [| e evs IH]; [intros [] |].
  intros [-> | H]; [left; reflexivity |].
  destruct e; cbn; auto.
Qed.

(** ** [OrderedDict] facts *)

Section DictFacts.
Context {V : Type}.
Implicit Types (d : OrderedDict.t V) (k : string) (v : V).
Import OrderedDict.

Lemma contains_In k d : contains k d = true <-> In k (keys d).
Proof.
  induction d as [| [k' v'] d IH]; cbn.
  - split; [discriminate | intros []].
  - destruct (String.eqb_spec k k') as [-> | Hne].
    + split; auto.
    + rewrite IH. split; [auto | intros [E | H]; [congruence | exact H]].
Qed.

Lemma contains_false_In k d : contains k d = false <-> ~ In k (keys d).
Proof.
  rewrite <- contains_In. destruct (contains k d); split; congruence.
Qed.

Lemma contains_getitem k d :
  contains k d = true -> exists v, getitem k d = Some v.
Proof.
  induction d as [| [k' v'] d IH]; cbn; [discriminate |].
  destruct (String.eqb k k'); eauto.
Qed.

Lemma getitem_In k d v : getitem k d = Some v -> In (k, v) d.
Proof.
  induction d as [| [k' v'] d IH]; cbn; [discriminate |].
  destruct (String.eqb_spec k k') as [-> | Hne].
  - intros [= ->]. left. reflexivity.
  - auto.
Qed.

Lemma keys_remove k d :
  keys (remove k d) = filter (fun k' => negb (String.eqb k k')) (keys d).
Proof.
  unfold remove, keys.
  induction d as [| [k' v'] d IH]; cbn; [reflexivity |].
  destruct (String.eqb k k'); cbn; rewrite IH; reflexivity.
Qed.

Lemma remove_not_In k d : ~ In k (keys (remove k d)).
Proof.
  rewrite keys_remove. intros H. apply filter_In in H as [_ H].
  rewrite String.eqb_refl in H. discriminate.
Qed.

Lemma contains_remove_same k d : contains k (remove k d) = false.
Proof. apply contains_false_In, remove_not_In. Qed.

Lemma remove_absent k d : contains k d = false -> remove k d = d.
Proof.
  unfold remove.
  induction d as [| [k' v'] d IH]; cbn; [reflexivity |].
  destruct (String.eqb k k'); [discriminate |].
  intros H. cbn. rewrite IH by exact H. reflexivity.
Qed.

Lemma length_remove_le k d : (List.length (remove k d) <= List.length d)%nat.
Proof. apply filter_length_le. Qed.

Lemma length_remove_lt k d :
  contains k d = true -> (List.length (remove k d) < List.length d)%nat.
Proof.
  pose proof (length_remove_le k) as Hle. unfold remove in *.
  induction d as [| [k' v'] d IH]; cbn; [discriminate |].
  destruct (String.eqb k k'); cbn.
  - intros _. specialize (Hle d). lia.
  - intros H. apply IH in H. lia.
Qed.

Lemma NoDup_keys_remove k d : NoDup (keys d) -> NoDup (keys (remove k d)).
Proof. rewrite keys_remove. apply NoDup_filter. Qed.

Lemma remove_In_other k k' d :
  In k' (keys (remove k d)) <-> In k' (keys d) /\ k <> k'.
Proof.
  rewrite keys_remove, filter_In, negb_true_iff, String.eqb_neq.
  reflexivity.
Qed.

Lemma getitem_app_absent k d v :
  contains k d = false -> getitem k (d ++ [(k, v)])%list = Some v.
Proof.
  induction d as [| [k' v'] d IH]; cbn.
  - rewrite String.eqb_refl. reflexivity.
  - destruct (String.eqb k k'); [discriminate | exact IH].
Qed.

Lemma setitem_app_absent k v v' d :
  contains k d = false ->
  setitem k v' (d ++ [(k, v)])%list = (d ++ [(k, v')])%list.
Proof.
  induction d as [| [k1 v1] d IH]; cbn.
  - rewrite String.eqb_refl. reflexivity.
  - destruct (String.eqb k k1); [discriminate |].
    intros H. rewrite IH by exact H. reflexivity.
Qed.

Lemma setitem_absent k v d :
  contains k d = false -> setitem k v d = (d ++ [(k, v)])%list.
Proof.
  induction d as [| [k1 v1] d IH]; cbn; [reflexivity |].
  destruct (String.eqb k k1); [discriminate |].
  intros H. rewrite IH by exact H. reflexivity.
Qed.

Lemma keys_app d1 d2 : keys (d1 ++ d2)%list = (keys d1 ++ keys d2)%list.
Proof. apply map_app. Qed.

Lemma contains_skipn_false k d n :
  contains k d = false -> contains k (skipn n d) = false.
Proof.
  rewrite !contains_false_In. intros H Hin. apply H.
  unfold keys in *. apply in_map_iff in Hin as (kv & E & Hin).
  apply in_map_iff. exists kv. split; [exact E |].
  rewrite <- (firstn_skipn n d). apply in_or_app. right. exact Hin.
Qed.

Lemma NoDup_keys_skipn d n : NoDup (keys d) -> NoDup (keys (skipn n d)).
Proof.
  intros H. rewrite <- (firstn_skipn n d) in H. rewrite keys_app in H.
  apply NoDup_app_remove_l in H. exact H.
Qed.

Lemma NoDup_keys_snoc k v d :
  NoDup (keys d) -> contains k d = false ->
  NoDup (keys (d ++ [(k, v)])%list).
Proof.
  intros Hnd Hk. rewrite keys_app. cbn.
  apply contains_false_In in Hk.
  apply NoDup_app; [exact Hnd | repeat constructor; intros [] |].
  intros x Hx [<- | []]. exact (Hk Hx).
Qed.
End DictFacts.

(** ** What each pool operation does to the world *)

Section PoolRuns.
Variable env : Env.
Variable settings : Settings.
Import LightRAGPool LightRAGWrapper.

Abbreviation max := (max_rag_instances settings).
Abbreviation dict := (OrderedDict.t LightRAGWrapper.t).

Lemma finalized_finalize_events t cid wr warning :
  finalized (finalize_events env t cid wr warning) = [cid].
Proof.
  unfold finalize_events. destruct (finalize_storages env t); reflexivity.
Qed.

Lemma finalize_logged_run cid wr warning (w : World) :
  finalize_logged env cid wr warning w
  = (Return tt,
     advance w 1 (finalize_events env (tick w) cid wr warning) (instances w)).
Proof.
  destruct w. unfold finalize_logged, rag_finalize_storages, try_except,
    bind, next_call, emit, ret, raise, advance, finalize_events. cbn.
  destruct (finalize_storages env tick0); cbn.
  - rewrite <- app_assoc. reflexivity.
  - reflexivity.
Qed.

Lemma evict_while_full_run (d : dict) (w : World) :
  instances w = d ->
  evict_while_full env settings d w
  = (if max <=? 0 then Raise popitem_KeyError else Return tt,
     advance w (evicted settings d) (evict_events env settings (tick w) d)
   (skipn (evicted settings d) d)).
Proof.
  revert w. induction d as [| [k wr] rest IH]; intros w Hw.
  - assert (E : advance w 0 [] [] = w) by (rewrite <- Hw; apply advance_id).
    cbn. unfold max_instances. destruct (max <=? 0); cbn; rewrite E;
      reflexivity.
  - cbn [evict_while_full evicted evict_events].
    unfold max_instances.
    destruct (max <=? Z.of_nat (List.length ((k, wr) :: rest))) eqn:Hfull.
    + unfold bind at 1. unfold set_instances at 1.
      unfold bind at 1. rewrite finalize_logged_run.
      cbn [instances tick]. rewrite IH by reflexivity.
      cbn [skipn]. rewrite advance_advance.
      f_equal. destruct w. unfold advance. cbn.
      f_equal. lia.
    + cbn [skipn]. rewrite <- Hw, advance_id.
      assert ((max <=? 0) = false) as ->; [| reflexivity].
      apply Z.leb_gt in Hfull. apply Z.leb_gt. lia.
Qed.

Lemma getitem_contains {V} k (d : OrderedDict.t V) v :
  OrderedDict.getitem k d = Some v -> OrderedDict.contains k d = true.
Proof.
  induction d as [| [k' v'] d IH]; cbn; [discriminate |].
  destruct (String.eqb k k'); auto.
Qed.

(** A hit: the entry moves to the tail with a fresh [last_used]; nothing
    is asked of the backend. *)
Lemma get_hit cid (w : World) wr :
  OrderedDict.getitem cid (instances w) = Some wr ->
  get env settings cid w
  = (Return (rag wr),
     advance w 1 [EvPoolGet cid]
       (OrderedDict.remove cid (instances w)
          ++ [(cid, touch (time_time env (tick w)) wr)])%list).
Proof.
  intros Hget. pose proof (getitem_contains _ _ _ Hget) as Hin.
  destruct w as [t tr d s jp jf r c]. cbn in Hget, Hin.
  unfold get, bind, emit, get_instances, set_instances, time, next_call,
    ret, raise. cbn.
  rewrite Hin. unfold OrderedDict.move_to_end. rewrite Hget.
  rewrite getitem_app_absent by apply contains_remove_same.
  rewrite setitem_app_absent by apply contains_remove_same.
  reflexivity.
Qed.

(** A miss: evict while full, construct, append. *)
Lemma get_miss cid (w : World) :
  OrderedDict.contains cid (instances w) = false ->
  let d := instances w in
  let n := evicted settings d in
  let t := (n + tick w)%nat in
  let evs := EvPoolGet cid :: evict_events env settings (tick w) d in
  let r := LightRAG.mk (workspace_name cid) t in
  get env settings cid w
  = if max <=? 0 then
      (Raise popitem_KeyError, advance w n evs (skipn n d))
    else
      match initialize_storages env t with
      | Some e =>
          (Raise e,
           advance w (1 + n)
             (evs ++ [EvCreate cid (workspace_name cid) (Some e)])%list
             (skipn n d))
      | None =>
          (Return r,
           advance w (3 + n)
             (evs ++ [EvCreate cid (workspace_name cid) None])%list
             (skipn n d
                ++ [(cid, LightRAGWrapper.mk r cid
                            (time_time env (1 + t))
                            (time_time env (2 + t)))])%list)
      end.
Proof.
  intros Hmiss d n t evs r. subst r evs t n d.
  pose proof (contains_skipn_false cid (instances w)
                (evicted settings (instances w)) Hmiss) as Hmiss'.
  unfold get. unfold bind at 1. unfold emit at 1.
  unfold bind at 1. unfold get_instances at 1. cbn [instances].
  rewrite Hmiss.
  unfold bind at 1. rewrite evict_while_full_run by reflexivity.
  cbn [tick].
  destruct (max <=? 0).
  { f_equal. destruct w. unfold advance. cbn. rewrite <- app_assoc.
    reflexivity. }
  unfold _create_instance, time, bind, next_call, emit, get_instances,
    set_instances, ret, raise. cbn.
  fold (workspace_name cid).
  destruct (initialize_storages env
            (evicted settings (instances w) + tick w)).
  - f_equal. destruct w. unfold advance. cbn. rewrite <- !app_assoc.
    reflexivity.
  - rewrite setitem_absent by exact Hmiss'.
    f_equal. destruct w. unfold advance. cbn. rewrite <- !app_assoc.
    reflexivity.
Qed.

Lemma release_absent cid (w : World) :
  OrderedDict.contains cid (instances w) = false ->
  release env cid w = (Return tt, w).
Proof.
  intros H. unfold release, bind, get_instances, ret. rewrite H.
  reflexivity.
Qed.

Lemma release_present cid (w : World) wr :
  OrderedDict.getitem cid (instances w) = Some wr ->
  release env cid w
  = (Return tt,
     advance w 1
       (finalize_events env (tick w) cid wr "Error finalizing RAG instance: ")
       (OrderedDict.remove cid (instances w))).
Proof.
  intros Hget. pose proof (getitem_contains _ _ _ Hget) as Hin.
  unfold release. unfold bind at 1. unfold get_instances at 1.
  rewrite Hin. unfold OrderedDict.pop. rewrite Hget.
  unfold bind, set_instances. rewrite finalize_logged_run.
  reflexivity.
Qed.

Lemma finalized_close_events warning t victims :
  finalized (close_events env warning t victims) = OrderedDict.keys victims.
Proof.
  revert t. induction victims as [| [cid wr] rest IH]; intros t; cbn.
  - reflexivity.
  - rewrite finalized_app, IH.
    unfold finalize_events. destruct (finalize_storages env t); reflexivity.
Qed.

Lemma close_all_run (w : World) :
  close_all env w
  = (Return tt,
     advance w (List.length (instances w))
       (close_events env
          (fun cid => "Error closing RAG instance " ++ cid ++ ": ")
          (tick w) (instances w))
       []).
Proof.
  unfold close_all. unfold bind at 1. unfold get_instances at 1.
  assert (Hloop : forall (d : dict) (w1 : World),
    for_each d
      (fun kv => finalize_logged env (fst kv) (snd kv)
                   ("Error closing RAG instance " ++ fst kv ++ ": ")) w1
    = (Return tt,
       advance w1 (List.length d)
         (close_events env
            (fun cid => "Error closing RAG instance " ++ cid ++ ": ")
            (tick w1) d)
         (instances w1))).
  { induction d as [| [cid wr] rest IH]; intros w1.
    - cbn. rewrite advance_id. reflexivity.
    - cbn [for_each]. unfold bind at 1. rewrite finalize_logged_run.
      rewrite IH. rewrite advance_advance. cbn [fst snd tick instances].
      f_equal. destruct w1. unfold advance. cbn. f_equal. lia. }
  unfold bind. rewrite Hloop. unfold set_instances.
  reflexivity.
Qed.

Lemma filter_filter {A} (f g : A -> bool) (l : list A) :
  filter f (filter g l) = filter (fun x => g x && f x) l.
Proof.
  induction l as [| x l IH]; cbn; [reflexivity |].
  destruct (g x); cbn; [destruct (f x) |]; rewrite IH; reflexivity.
Qed.

Lemma remove_all_filter ks (d : dict) :
  remove_all ks d
  = filter (fun kv => negb (existsb (String.eqb (fst kv)) ks)) d.
Proof.
  revert d. induction ks as [| k ks IH]; intros d; cbn.
  - symmetry. apply forallb_filter_id. apply forallb_forall. reflexivity.
  - unfold remove_all in IH. rewrite IH. unfold OrderedDict.remove.
    rewrite filter_filter. apply filter_ext. intros [k' v]. cbn.
    rewrite (String.eqb_sym k' k), negb_orb. reflexivity.
Qed.

Lemma In_keys_filter (p : string * LightRAGWrapper.t -> bool) (d : dict) k :
  In k (OrderedDict.keys (filter p d)) -> In k (OrderedDict.keys d).
Proof.
  unfold OrderedDict.keys. rewrite !in_map_iff.
  intros (kv & E & H). apply filter_In in H as [H _]. eauto.
Qed.

Lemma NoDup_keys_filter (p : string * LightRAGWrapper.t -> bool) (d : dict) :
  NoDup (OrderedDict.keys d) -> NoDup (OrderedDict.keys (filter p d)).
Proof.
  induction d as [| [k v] d IH]; cbn; [auto |].
  intros H. inversion H as [| ? ? Hk Hd]; subst.
  destruct (p (k, v)); cbn; [constructor |]; auto.
  intros Hin. apply Hk. eapply In_keys_filter. exact Hin.
Qed.

Lemma In_getitem (d : dict) k v :
  NoDup (OrderedDict.keys d) -> In (k, v) d ->
  OrderedDict.getitem k d = Some v.
Proof.
  induction d as [| [k' v'] d IH]; cbn; [intros _ [] |].
  intros H. inversion H as [| ? ? Hk Hd]; subst.
  intros [[= -> ->] | Hin].
  - rewrite String.eqb_refl. reflexivity.
  - destruct (String.eqb_spec k k') as [-> | Hne]; [| auto].
    exfalso. apply Hk. apply in_map_iff. exists (k', v). auto.
Qed.

(** On a dictionary, popping the keys of the entries that satisfy [p]
    leaves the entries that do not. *)
Lemma remove_all_selected (p : string * LightRAGWrapper.t -> bool) (d : dict) :
  NoDup (OrderedDict.keys d) ->
  remove_all (OrderedDict.keys (filter p d)) d
  = filter (fun kv => negb (p kv)) d.
Proof.
  intros Hnd. rewrite remove_all_filter. apply filter_ext_in.
  intros [k v] Hin. f_equal. cbn.
  destruct (p (k, v)) eqn:Hp.
  - apply existsb_exists. exists k. split; [| apply String.eqb_refl].
    apply in_map_iff. exists (k, v). split; [reflexivity |].
    apply filter_In. auto.
  - apply not_true_is_false. intros H.
    apply existsb_exists in H as (k' & Hk' & E).
    apply String.eqb_eq in E. subst k'.
    apply in_map_iff in Hk' as ([k1 v1] & E & H1). cbn in E. subst k1.
    apply filter_In in H1 as [H1 Hp1].
    assert (v1 = v).
    { pose proof (In_getitem d k v Hnd Hin) as G.
      pose proof (In_getitem d k v1 Hnd H1) as G1. congruence. }
    subst v1. congruence.
Qed.

Lemma cleanup_loop (victims : dict) : forall (w1 : World),
  (forall k wr, In (k, wr) victims ->
                OrderedDict.getitem k (instances w1) = Some wr) ->
  NoDup (OrderedDict.keys victims) ->
  for_each (map fst victims)
    (fun collection_id =>
       d1 <- get_instances ;;
       match OrderedDict.pop collection_id d1 with
       | None => raise (mkExn KeyError collection_id)
       | Some (wrapper, d') =>
           set_instances d' ;;
           finalize_logged env collection_id wrapper
             "Error finalizing expired RAG instance: "
       end) w1
  = (Return tt,
     advance w1 (List.length victims)
       (close_events env expired_warning (tick w1) victims)
       (remove_all (OrderedDict.keys victims) (instances w1))).
Proof.
  induction victims as [| [k wr] rest IH]; intros w1 Hget Hnd.
  - cbn. rewrite advance_id. reflexivity.
  - cbn [map fst for_each]. unfold bind at 1. unfold bind at 1.
    unfold get_instances at 1. unfold OrderedDict.pop.
    rewrite (Hget k wr) by (left; reflexivity).
    unfold bind at 1. unfold set_instances at 1.
    rewrite finalize_logged_run. cbn [instances tick].
    inversion Hnd as [| ? ? Hk Hrest]; subst.
    rewrite IH; [| | exact Hrest].
    + rewrite advance_advance. cbn [instances tick OrderedDict.keys map fst
        remove_all fold_left close_events].
      f_equal. destruct w1. unfold advance, expired_warning. cbn.
      f_equal. lia.
    + intros k' wr' Hin. cbn [instances].
      assert (Hne : k <> k').
      { intros ->. apply Hk. apply in_map_iff. exists (k', wr'). auto. }
      specialize (Hget k' wr' (or_intror Hin)).
      revert Hget. generalize (instances w1). intros d.
      induction d as [| [k1 v1] d IHd]; cbn; [discriminate |].
      destruct (String.eqb_spec k' k1) as [-> | Hne1].
      * intros [= ->]. apply String.eqb_neq in Hne. rewrite Hne. cbn.
        rewrite String.eqb_refl. reflexivity.
      * intros H. destruct (String.eqb k k1); cbn.
        -- apply IHd, H.
        -- apply String.eqb_neq in Hne1. rewrite Hne1. apply IHd, H.
Qed.

Lemma cleanup_expired_run (w : World) :
  NoDup (OrderedDict.keys (instances w)) ->
  let now := time_time env (tick w) in
  let victims := filter (expired settings now) (instances w) in
  cleanup_expired env settings w
  = (Return (Z.of_nat (List.length victims)),
     advance w (1 + List.length victims)
       (close_events env expired_warning (1 + tick w) victims)
       (filter (fun kv => negb (expired settings now kv)) (instances w))).
Proof.
  intros Hnd now victims. subst victims now.
  unfold cleanup_expired. unfold bind at 1. unfold time.
  unfold bind at 1. unfold next_call at 1. unfold ret at 1.
  unfold bind at 1. unfold get_instances at 1. cbn [instances tick].
  unfold bind at 1.
  set (now := time_time env (tick w)).
  set (w1 := mkWorld _ _ _ _ _ _ _ _).
  change (instances w) with (instances w1).
  rewrite cleanup_loop.
  - unfold ret. rewrite length_map. fold (OrderedDict.keys
      (filter (expired settings now) (instances w1))).
    rewrite remove_all_selected by exact Hnd.
    f_equal. subst w1. destruct w. unfold advance. cbn.
    f_equal. lia.
  - intros k wr Hin. apply In_getitem; [exact Hnd |].
    apply filter_In in Hin as [Hin _]. exact Hin.
  - apply NoDup_keys_filter. exact Hnd.
Qed.
End PoolRuns.

(** ** C5: TTL clean-up *)

Section CleanupExpired.
Variable env : Env.
Variable settings : Settings.
Import LightRAGPool LightRAGWrapper.

(** C5. On a pool (a dictionary: no key twice), [cleanup_expired] reads
    the clock once and then: returns the number of entries whose idle
    time [now - last_used] exceeds [ttl_seconds]; awaits
    [finalize_storages] on exactly those entries, each once, oldest
    first; and leaves in the pool exactly the entries whose idle time is
    within the TTL, in their order. *)
Theorem cleanup_expired_removes_exactly_the_idle (w : World) :
  NoDup (OrderedDict.keys (instances w)) ->
  let now := time_time env (tick w) in
  let ttl := rag_instance_ttl settings in
  let idle (kv : string * LightRAGWrapper.t) := now - last_used (snd kv) in
  let r := cleanup_expired env settings w in
  fst r = Return (Z.of_nat (List.length
                    (filter (fun kv => ttl <? idle kv) (instances w))))
  /\ finalized (events_since w (snd r))
     = OrderedDict.keys (filter (fun kv => ttl <? idle kv) (instances w))
  /\ instances (snd r) = filter (fun kv => idle kv <=? ttl) (instances w)
  /\ (forall kv, In kv (instances (snd r))
                 <-> In kv (instances w) /\ idle kv <= ttl).
Proof.
  intros Hnd now ttl idle r. subst r idle ttl now.
  rewrite (cleanup_expired_run env settings w Hnd). cbn [fst snd].
  rewrite events_since_advance, finalized_close_events.
  unfold advance. cbn [instances].
  assert (E : filter (fun kv => negb (expired settings
                                        (time_time env (tick w)) kv))
                (instances w)
              = filter (fun kv => time_time env (tick w) - last_used (snd kv)
                                  <=? rag_instance_ttl settings)
                  (instances w)).
  { apply filter_ext. intros kv. unfold expired, ttl_seconds.
    rewrite Z.leb_antisym. reflexivity. }
  rewrite E.
  split; [reflexivity | split; [reflexivity | split; [reflexivity |]]].
  intros kv. rewrite filter_In, Z.leb_le. reflexivity.
Qed.
End CleanupExpired.

(** C5 at work: of three tenants last used at 0, 90 and 100, a clean-up at
    time 400 with a TTL of 300 closes the first two - although closing
    fails - and keeps the third. *)
Lemma cleanup_expired_witness :
  let wr (cid : string) (used : Z) :=
    (cid, LightRAGWrapper.mk (LightRAG.mk cid 0) cid 0 used) in
  let w := mkWorld 400 [] [wr "a" 0; wr "b" 90; wr "c" 100] 5 0 0 true true in
  let r := LightRAGPool.cleanup_expired Doubles.broken_close default_settings w in
  fst r = Return 2
  /\ finalized (events_since w (snd r)) = ["a"; "b"]
  /\ instances (snd r) = [wr "c" 100].
Proof.
  cbv zeta.
  destruct (cleanup_expired_removes_exactly_the_idle Doubles.broken_close
              default_settings
              (mkWorld 400 []
                 [("a", LightRAGWrapper.mk (LightRAG.mk "a" 0) "a" 0 0);
                  ("b", LightRAGWrapper.mk (LightRAG.mk "b" 0) "b" 0 90);
                  ("c", LightRAGWrapper.mk (LightRAG.mk "c" 0) "c" 0 100)]
                 5 0 0 true true))
    as (Hcount & Hclosed & Hkept & _).
  { cbn. repeat constructor; cbn; intuition discriminate. }
  split; [exact Hcount | split; [exact Hclosed | exact Hkept]].
Defined.

(** ** C3: the pool stays bounded and keyed by tenant *)

Section PoolInvariant.
Variable env : Env.
Variable settings : Settings.
Import LightRAGPool LightRAGWrapper.

Lemma getitem_None_contains {V} k (d : OrderedDict.t V) :
  OrderedDict.getitem k d = None -> OrderedDict.contains k d = false.
Proof.
  induction d as [| [k' v'] d IH]; cbn; [reflexivity |].
  destruct (String.eqb k k'); [discriminate | exact IH].
Qed.

(** Once the loop is through, there is room for one more entry. *)
Lemma evicted_leaves_room (d : OrderedDict.t LightRAGWrapper.t) :
  0 < max_rag_instances settings ->
  Z.of_nat (List.length (skipn (evicted settings d) d))
  < max_rag_instances settings.
Proof.
  intros Hmax. induction d as [| kv rest IH].
  - cbn. destruct (_ <=? _); cbn; lia.
  - cbn [evicted].
    destruct (max_rag_instances settings
              <=? Z.of_nat (List.length (kv :: rest))) eqn:Hfull.
    + cbn [skipn]. exact IH.
    + cbn [skipn]. apply Z.leb_gt in Hfull. exact Hfull.
Qed.

Lemma snd_bind_ret {A} (m : M A) (w : World) :
  snd ((_ <- m ;; ret tt) w) = snd (m w).
Proof. unfold bind, ret. destruct (m w) as [[a | e |] w']; reflexivity. Qed.

Lemma get_preserves (cid : string) (w : World) :
  pool_ok settings w -> pool_ok settings (snd (get env settings cid w)).
Proof.
  intros [Hlen Hnd]. unfold pool_ok.
  destruct (OrderedDict.getitem cid (instances w)) as [wr |] eqn:Hget.
  - rewrite (get_hit env settings cid w wr Hget). cbn [snd advance instances].
    pose proof (length_remove_lt cid (instances w)
                  (getitem_contains _ _ _ Hget)) as Hlt.
    split.
    + rewrite length_app. cbn [List.length]. lia.
    + apply NoDup_keys_snoc; [apply NoDup_keys_remove, Hnd |].
      apply contains_remove_same.
  - apply getitem_None_contains in Hget.
    pose proof (get_miss env settings cid w Hget) as Hrun.
    cbv zeta in Hrun. rewrite Hrun. clear Hrun.
    set (n := evicted settings (instances w)).
    assert (Hskip : (List.length (skipn n (instances w))
                     <= List.length (instances w))%nat)
      by (rewrite length_skipn; lia).
    pose proof (NoDup_keys_skipn (instances w) n Hnd) as Hnd'.
    destruct (max_rag_instances settings <=? 0) eqn:Hzero;
      [cbn [snd advance instances]; split; [lia | exact Hnd'] |].
    apply Z.leb_gt in Hzero.
    destruct (initialize_storages env (n + tick w));
      cbn [snd advance instances]; [split; [lia | exact Hnd'] |].
    split.
    + rewrite length_app. cbn [List.length].
      pose proof (evicted_leaves_room (instances w) Hzero). fold n in H.
      lia.
    + apply NoDup_keys_snoc; [exact Hnd' |].
      apply contains_skipn_false, Hget.
Qed.

Lemma run_op_preserves (op : pool_op) (w : World) :
  pool_ok settings w -> pool_ok settings (snd (run_op env settings op w)).
Proof.
  intros Hok. destruct op as [cid | cid | |]; cbn [run_op].
  - rewrite snd_bind_ret. apply get_preserves; assumption.
  - destruct Hok as [Hlen Hnd]. unfold pool_ok.
    destruct (OrderedDict.getitem cid (instances w)) as [wr |] eqn:Hget.
    + rewrite (release_present env cid w wr Hget).
      cbn [snd advance instances].
      pose proof (length_remove_le cid (instances w)).
      split; [lia | apply NoDup_keys_remove, Hnd].
    + rewrite release_absent by (apply getitem_None_contains, Hget).
      split; assumption.
  - rewrite snd_bind_ret. destruct Hok as [Hlen Hnd]. unfold pool_ok.
    pose proof (cleanup_expired_run env settings w Hnd) as Hrun.
    cbv zeta in Hrun. rewrite Hrun. cbn [snd advance instances].
    split; [| apply NoDup_keys_filter, Hnd].
    pose proof (filter_length_le
                  (fun kv => negb (expired settings
                                     (time_time env (tick w)) kv))
                  (instances w)).
    lia.
  - rewrite close_all_run. cbn [snd advance instances].
    split; [cbn; lia | constructor].
Qed.

Lemma run_ops_preserves (ops : list pool_op) (w : World) :
  pool_ok settings w -> pool_ok settings (run_ops env settings ops w).
Proof.
  revert w. induction ops as [| op ops IH]; intros w Hok.
  - exact Hok.
  - cbn. apply IH. apply run_op_preserves; assumption.
Qed.

(** C3. Starting from the empty pool that [__init__] builds, after each
    operation of any sequence of [get], [release], [cleanup_expired] and
    [close_all] - whatever the backend and the clock answer, whether the
    operation returned or raised - the pool holds no tenant twice and at
    most [max_rag_instances] entries. The setting is an [int] that nothing
    validates: when it is negative the bound that holds is zero, the pool
    stays empty. *)
Theorem pool_bounded_and_unique_after_each_operation
    (ops : list pool_op) (n : nat) (w0 : World) :
  instances w0 = [] ->
  let w := run_ops env settings (firstn n ops) w0 in
  (0 <= max_rag_instances settings ->
   Z.of_nat (List.length (instances w)) <= max_rag_instances settings)
  /\ Z.of_nat (List.length (instances w))
     <= Z.max 0 (max_rag_instances settings)
  /\ NoDup (OrderedDict.keys (instances w)).
Proof.
  intros Hempty w.
  assert (Hok : pool_ok settings w).
  { apply run_ops_preserves. split; rewrite Hempty; [cbn; lia | constructor]. }
  destruct Hok as [Hlen Hnd].
  split; [intros Hmax; lia | split; assumption].
Qed.
End PoolInvariant.

(** C3 at work: three tenants on a pool of two, on a backend that cannot
    close; two are left. *)
Lemma pool_bounded_witness :
  let w := run_ops Doubles.broken_close (mkSettings 5 2 300)
             [Get "a"; Get "b"; Get "c"] Doubles.idle in
  Z.of_nat (List.length (instances w)) <= 2
  /\ OrderedDict.keys (instances w) = ["b"; "c"]
  /\ NoDup (OrderedDict.keys (instances w)).
Proof.
  destruct (pool_bounded_and_unique_after_each_operation Doubles.broken_close
              (mkSettings 5 2 300)
              [Get "a"; Get "b"; Get "c"; EvictExpired; Release "b"; CloseAll]
              3 Doubles.idle eq_refl) as (Hbound & _ & Hunique).
  split; [apply Hbound; cbn; lia | split; [reflexivity | exact Hunique]].
Defined.

(** ** C4: least-recently-used eviction *)

Lemma constructed_app (a b : list Event) :
  constructed (a ++ b)%list = (constructed a ++ constructed b)%list.
Proof.
  induction a as [| e a IH]; [reflexivity |].
  destruct e as [| ? ? [?|] | | | | | |]; cbn; rewrite ?IH; reflexivity.
Qed.

Lemma constructed_finalize_events env t cid wr warning :
  constructed (finalize_events env t cid wr warning) = [].
Proof.
  unfold finalize_events. destruct (finalize_storages env t); reflexivity.
Qed.

(** Rewrites the next [get cid] of the goal, a miss, by [get_miss]. *)
Ltac get_misses cid Hinit :=
  match goal with
  | |- context [LightRAGPool.get ?e ?st cid ?w] =>
      let H := fresh in
      pose proof (get_miss e st cid w eq_refl) as H;
      cbv zeta in H; rewrite H; clear H
  end;
  cbn -[LightRAGPool.get finalize_events workspace_name events_since];
  rewrite ?Hinit; cbn [snd].

Section LRU.
Variable env : Env.
Variable settings : Settings.
Import LightRAGPool LightRAGWrapper.

(** A miss on a pool that is exactly full, with room for at least one:
    the head of the dictionary - the entry used longest ago - is the one
    closed and dropped, and the new tenant goes to the tail. *)
Lemma evict_exactly_full t oldest wr rest :
  Z.of_nat (List.length ((oldest, wr) :: rest)) = max_rag_instances settings ->
  evicted settings ((oldest, wr) :: rest) = 1%nat
  /\ evict_events env settings t ((oldest, wr) :: rest)
     = finalize_events env t oldest wr
         "Error finalizing evicted RAG instance: ".
Proof.
  intros Hfull.
  assert (H1 : (max_rag_instances settings
                <=? Z.of_nat (List.length ((oldest, wr) :: rest))) = true)
    by (apply Z.leb_le; lia).
  assert (H2 : (max_rag_instances settings
                <=? Z.of_nat (List.length rest)) = false)
    by (apply Z.leb_gt; cbn [List.length] in Hfull; lia).
  cbn [evicted evict_events]. rewrite H1.
  destruct rest as [| kv rest']; cbn [evicted evict_events]; rewrite H2;
    rewrite ?app_nil_r; split; reflexivity.
Qed.

Lemma get_miss_at_capacity cid oldest wr rest (w : World) :
  instances w = (oldest, wr) :: rest ->
  OrderedDict.contains cid (instances w) = false ->
  Z.of_nat (List.length (instances w)) = max_rag_instances settings ->
  initialize_storages env (1 + tick w) = None ->
  let w' := snd (get env settings cid w) in
  OrderedDict.keys (instances w') = (OrderedDict.keys rest ++ [cid])%list
  /\ finalized (events_since w w') = [oldest].
Proof.
  intros Hd Hmiss Hfull Hinit w'. subst w'.
  pose proof (get_miss env settings cid w Hmiss) as Hrun.
  cbv zeta in Hrun. rewrite Hrun. clear Hrun.
  rewrite Hd in Hfull.
  destruct (evict_exactly_full (tick w) oldest wr rest Hfull) as [Hn Hevs].
  assert (Hpos : (max_rag_instances settings <=? 0) = false)
    by (apply Z.leb_gt; cbn [List.length] in Hfull; lia).
  rewrite Hpos, Hd, Hn, Hevs, Hinit. cbn [snd].
  rewrite events_since_advance.
  unfold advance. cbn [instances skipn].
  split.
  - rewrite keys_app. reflexivity.
  - rewrite finalized_app. cbn [finalized].
    rewrite finalized_finalize_events. reflexivity.
Qed.

(** The scenario: [get(A)], [get(B)], [get(A)], [get(C)] on a pool of
    two. *)
Lemma lru_scenario (w0 : World) :
  max_rag_instances settings = 2 ->
  instances w0 = [] ->
  (forall t, initialize_storages env t = None) ->
  let w := run_ops env settings [Get "A"; Get "B"; Get "A"; Get "C"] w0 in
  OrderedDict.keys (instances w) = ["A"; "C"]
  /\ finalized (events_since w0 w) = ["B"]
  /\ constructed (events_since w0 w) = ["A"; "B"; "C"].
Proof.
  intros Hmax Hempty Hinit.
  destruct w0 as [t tr d s jp jf r c]. cbn in Hempty. subst d.
  destruct settings as [mw mi ttl]. cbn in Hmax. subst mi.
  unfold run_ops. cbn [fold_left run_op]. rewrite !snd_bind_ret.
  get_misses "A" Hinit.
  get_misses "B" Hinit.
  match goal with |- context [get ?e ?st "A" ?w] =>
    rewrite (get_hit e st "A" w _ eq_refl) end.
  cbn -[get finalize_events workspace_name events_since].
  get_misses "C" Hinit.
  rewrite !advance_advance, events_since_advance.
  unfold advance. cbn [instances].
  split; [reflexivity |].
  rewrite !finalized_app, !constructed_app.
  cbn [finalized constructed app].
  rewrite !finalized_app, !constructed_app, finalized_finalize_events,
    constructed_finalize_events.
  split; reflexivity.
Qed.

(** C4. A hit moves the tenant to the tail of the dictionary - the
    most-recently-used end - and asks nothing of the backend. A miss on a
    pool that is exactly full closes and drops the head - the tenant used
    longest ago - and puts the new tenant at the tail. So with
    [max_rag_instances = 2] and a backend that can be constructed,
    [get(A)], [get(B)], [get(A)], [get(C)] on the empty pool leave exactly
    A and C in it, A the older; B is the one tenant that was closed; and A
    was built once. Closing B may fail or not, and the clock may read
    anything. *)
Theorem get_evicts_least_recently_used (cid : string) (w : World) :
  (forall wr,
     OrderedDict.getitem cid (instances w) = Some wr ->
     let w' := snd (get env settings cid w) in
     OrderedDict.keys (instances w')
     = (OrderedDict.keys (OrderedDict.remove cid (instances w)) ++ [cid])%list
     /\ events_since w w' = [EvPoolGet cid])
  /\ (forall oldest wr rest,
        instances w = (oldest, wr) :: rest ->
        OrderedDict.contains cid (instances w) = false ->
        Z.of_nat (List.length (instances w)) = max_rag_instances settings ->
        initialize_storages env (1 + tick w) = None ->
        let w' := snd (get env settings cid w) in
        OrderedDict.keys (instances w')
        = (OrderedDict.keys rest ++ [cid])%list
        /\ finalized (events_since w w') = [oldest])
  /\ (max_rag_instances settings = 2 ->
      instances w = [] ->
      (forall t, initialize_storages env t = None) ->
      let w' := run_ops env settings
                  [Get "A"; Get "B"; Get "A"; Get "C"] w in
      OrderedDict.keys (instances w') = ["A"; "C"]
      /\ finalized (events_since w w') = ["B"]
      /\ constructed (events_since w w') = ["A"; "B"; "C"]).
Proof.
  split; [| split].
  - intros wr Hget w'. subst w'.
    rewrite (get_hit env settings cid w wr Hget). cbn [snd].
    rewrite events_since_advance. unfold advance. cbn [instances].
    rewrite keys_app. split; reflexivity.
  - intros oldest wr rest. apply get_miss_at_capacity.
  - apply lru_scenario.
Qed.
End LRU.

(** C4 at work on a backend where everything succeeds. *)
Lemma get_evicts_least_recently_used_witness :
  let w := run_ops Doubles.healthy (mkSettings 5 2 300)
             [Get "A"; Get "B"; Get "A"; Get "C"] Doubles.idle in
  OrderedDict.keys (instances w) = ["A"; "C"]
  /\ finalized (events_since Doubles.idle w) = ["B"]
  /\ constructed (events_since Doubles.idle w) = ["A"; "B"; "C"].
Proof.
  exact (proj2 (proj2 (get_evicts_least_recently_used Doubles.healthy
                         (mkSettings 5 2 300) "A" Doubles.idle))
           eq_refl eq_refl (fun _ => eq_refl)).
Defined.



(** ** C8: construction failures propagate, close failures do not *)

Section PoolFailures.
Variable env : Env.
Variable settings : Settings.
Import LightRAGPool LightRAGWrapper.


Lemma evict_events_close_events t (d : OrderedDict.t LightRAGWrapper.t) :
  evict_events env settings t d
  = close_events env evicted_warning t (firstn (evicted settings d) d).
Proof.
  revert t. induction d as [| [k wr] rest IH]; intros t.
  - cbn. destruct (_ <=? _); reflexivity.
  - cbn [evict_events evicted].
    destruct (max_rag_instances settings
              <=? Z.of_nat (List.length ((k, wr) :: rest))).
    + cbn [firstn close_events]. rewrite IH. reflexivity.
    + reflexivity.
Qed.




Lemma contains_app {V} k (d1 d2 : OrderedDict.t V) :
  OrderedDict.contains k (d1 ++ d2)%list
  = OrderedDict.contains k d1 || OrderedDict.contains k d2.
Proof.
  induction d1 as [| [k' v'] d1 IH]; cbn; [reflexivity |].
  destruct (String.eqb k k'); [reflexivity | exact IH].
Qed.




End PoolFailures.


(** ** What the pipeline does to the world *)

Lemma logged_nil (w : World) : logged w [] = w.
Proof. apply advance_id. Qed.

Lemma logged_logged (w : World) evs evs' :
  logged (logged w evs) evs' = logged w (evs ++ evs')%list.
Proof. unfold logged. rewrite advance_advance. reflexivity. Qed.

Lemma close_events_are_close_events env warning t victims :
  Forall (fun e => is_close_event e = true) (close_events env warning t victims).
Proof.
  revert t. induction victims as [| [k wr] rest IH]; intros t; cbn.
  - constructor.
  - constructor; [reflexivity |]. apply Forall_app. split; [| apply IH].
    destruct (finalize_storages env t); repeat constructor.
  Qed.

Section PipelineRuns.
Variable lib : Library.
Variable env : Env.
Variable settings : Settings.
Import DocumentProcessor.

Lemma decompress_html_run compressed encoding :
  exists o evs,
    (forall w, html_cleaner.decompress_html lib compressed encoding w
               = (o, logged w evs))
    /\ o <> Suspend
    /\ Forall (fun e => is_log e = true) evs.
Proof.
  unfold html_cleaner.decompress_html.
  destruct (String.eqb encoding "plain" || is_empty compressed).
  { exists (Return compressed), []. split; [| split; [discriminate | constructor]].
    intros w. rewrite logged_nil. reflexivity. }
  destruct (String.eqb encoding "gzip+base64").
  - unfold try_except, lift.
    destruct (html_cleaner.gunzip_b64 lib compressed) as [e | html].
    + eexists (Raise _), [_].
      split; [intros w; reflexivity |].
      split; [discriminate | repeat constructor].
    + exists (Return html), [].
      split; [| split; [discriminate | constructor]].
      intros w. rewrite logged_nil. reflexivity.
  - eexists (Raise _), [].
    split; [intros w; rewrite logged_nil; reflexivity |].
    split; [discriminate | constructor].
Qed.

Lemma clean_html_to_text_run html :
  exists text evs,
    (forall w, html_cleaner.clean_html_to_text lib html w
               = (Return text, logged w evs))
    /\ Forall (fun e => is_log e = true) evs.
Proof.
  unfold html_cleaner.clean_html_to_text.
  destruct (is_empty html).
  { exists "", []. split; [| constructor].
    intros w. rewrite logged_nil. reflexivity. }
  unfold try_except, lift.
  destruct (soup_text lib html) as [e | text].
  - eexists "", [_]. split; [intros w; reflexivity | repeat constructor].
  - exists text, []. split; [| constructor].
    intros w. rewrite logged_nil. reflexivity.
Qed.

(** Extraction only logs; what it returns or raises does not depend on
    the world. *)
Lemma _extract_text_run (job : IndexingJobMessage.t) :
  exists o evs,
    (forall w, _extract_text lib job w = (o, logged w evs))
    /\ o <> Suspend
    /\ Forall (fun e => is_log e = true) evs.
Proof.
  unfold _extract_text.
  destruct (IndexingJobMessage.content job) as [c |].
  2: { eexists (Raise _), [].
       split; [intros w; rewrite logged_nil; reflexivity |].
       split; [discriminate | constructor]. }
  destruct (is_empty (PageContent.text c)); cbn [negb].
  2: { eexists (Return _), [].
       split; [intros w; rewrite logged_nil; reflexivity |].
       split; [discriminate | constructor]. }
  destruct (is_empty (PageContent.html c)); cbn [negb].
  { eexists (Raise _), [].
    split; [intros w; rewrite logged_nil; reflexivity |].
    split; [discriminate | constructor]. }
  destruct (decompress_html_run (PageContent.html c) (PageContent.encoding c))
    as (o & evs & Hrun & Ho & Hevs).
  destruct o as [html | e |]; [| | congruence].
  - destruct (clean_html_to_text_run html) as (text & evs' & Hrun' & Hevs').
    exists (Return text), (evs ++ evs')%list.
    split; [| split; [discriminate | apply Forall_app; auto]].
    intros w. unfold bind. rewrite Hrun, Hrun', logged_logged. reflexivity.
  - exists (Raise e), evs. split; [| split; [discriminate | exact Hevs]].
    intros w. unfold bind. rewrite Hrun. reflexivity.
Qed.

(** What [get] adds to the trace. *)
Lemma get_summary (cid : string) (w : World) :
  exists o n evs d',
    LightRAGPool.get env settings cid w = (o, advance w n evs d')
    /\ o <> Suspend
    /\ In (EvPoolGet cid) evs
    /\ Forall (fun e => is_loop_event e = false) evs
    /\ (forall r d t err, ~ In (EvInsert r d t err) evs)
    /\ (forall c ws e, In (EvCreate c ws (Some e)) evs -> o = Raise e).
Proof.
  assert (Hclose : forall t victims ev,
            In ev (close_events env evicted_warning t victims) ->
            is_close_event ev = true).
  { intros t victims ev.
    pose proof (close_events_are_close_events env evicted_warning t victims)
      as H.
    rewrite Forall_forall in H. apply H. }
  destruct (OrderedDict.getitem cid (instances w)) as [wr |] eqn:Hget.
  - rewrite (get_hit env settings cid w wr Hget).
    do 4 eexists. split; [reflexivity |].
    split; [discriminate |]. split; [left; reflexivity |].
    split; [repeat constructor |].
    split; [intros r d t err [H | []]; discriminate |].
    intros c ws e [H | []]; discriminate.
  - apply getitem_None_contains in Hget.
    pose proof (get_miss env settings cid w Hget) as Hrun.
    cbv zeta in Hrun. rewrite Hrun. clear Hrun.
    rewrite evict_events_close_events.
    set (victims := firstn _ _).
    assert (Hloop : Forall (fun e => is_loop_event e = false)
                      (close_events env evicted_warning (tick w) victims)).
    { apply Forall_forall. intros ev Hev. apply Hclose in Hev.
      destruct ev; cbn in *; congruence. }
    assert (Hins : forall r d t err,
              ~ In (EvInsert r d t err)
                  (close_events env evicted_warning (tick w) victims)).
    { intros r d t err Hev. apply Hclose in Hev. discriminate. }
    assert (Hcre : forall c ws err,
              ~ In (EvCreate c ws err)
                  (close_events env evicted_warning (tick w) victims)).
    { intros c ws err Hev. apply Hclose in Hev. discriminate. }
    destruct (max_rag_instances settings <=? 0);
      [| destruct (initialize_storages env _) as [e' |]];
      do 4 eexists; (split; [reflexivity |]);
      (split; [discriminate |]); (split; [left; reflexivity |]).
    + split; [constructor; [reflexivity | exact Hloop] |].
      split.
      * intros r d t err [H | H]; [discriminate | exact (Hins _ _ _ _ H)].
      * intros c ws e [H | H]; [discriminate | destruct (Hcre _ _ _ H)].
    + split; [constructor; [reflexivity |]; apply Forall_app; split;
              [exact Hloop | repeat constructor] |].
      split.
      * intros r d t err [H | H]; [discriminate |].
        apply in_app_or in H as [H | [H | []]];
          [exact (Hins _ _ _ _ H) | discriminate].
      * intros c ws e [H | H]; [discriminate |].
        apply in_app_or in H as [H | [H | []]];
          [destruct (Hcre _ _ _ H) | congruence].
    + split; [constructor; [reflexivity |]; apply Forall_app; split;
              [exact Hloop | repeat constructor] |].
      split.
      * intros r d t err [H | H]; [discriminate |].
        apply in_app_or in H as [H | [H | []]];
          [exact (Hins _ _ _ _ H) | discriminate].
      * intros c ws e [H | H]; [discriminate |].
        apply in_app_or in H as [H | [H | []]];
          [destruct (Hcre _ _ _ H) | discriminate].
Qed.

Lemma logs_no_pool_get evs :
  Forall (fun e => is_log e = true) evs -> no_pool_get evs.
Proof.
  intros H cid Hin. rewrite Forall_forall in H. apply H in Hin.
  discriminate.
Qed.

Lemma logs_not_loop evs :
  Forall (fun e => is_log e = true) evs ->
  Forall (fun e => is_loop_event e = false) evs.
Proof.
  apply Forall_impl. intros [] H; try discriminate; reflexivity.
Qed.

(** The [except] block: one clock reading, one counter, one log line, a
    failed result carrying [str(e)]. *)
Lemma process_except_run job start e (w : World) :
  exists r w' ev,
    process_except env job start e w = (Return r, w')
    /\ pipeline_step w w' [ev]
    /\ is_log ev = true
    /\ instances w' = instances w
    /\ ProcessingResult.success r = false
    /\ ProcessingResult.error_message r = Some (str e)
    /\ ProcessingResult.job_id r = IndexingJobMessage.job_id job
    /\ ProcessingResult.url r = IndexingJobMessage.url job
    /\ ProcessingResult.collection_id r
       = IndexingJobMessage.collection_id job.
Proof.
  destruct w. do 3 eexists.
  split.
  { unfold process_except, LightRAGPool.time, bind, next_call,
      incr_jobs_failed, emit, ret. cbn. reflexivity. }
  repeat split; reflexivity.
Qed.

Lemma pipeline_step_trans w w1 w2 evs1 evs2 :
  pipeline_step w w1 evs1 -> pipeline_step w1 w2 evs2 ->
  pipeline_step w w2 (evs1 ++ evs2)%list.
Proof.
  intros (T1 & S1 & R1 & C1) (T2 & S2 & R2 & C2).
  unfold pipeline_step. rewrite T2, T1, S2, S1, R2, R1, C2, C1, app_assoc.
  repeat split; reflexivity.
Qed.

Lemma pipeline_step_advance w n evs d :
  pipeline_step w (advance w n evs d) evs.
Proof. repeat split; reflexivity. Qed.

Lemma pipeline_step_next_call (w : World) :
  pipeline_step w (snd (next_call w)) [].
Proof. destruct w. unfold pipeline_step. cbn. rewrite app_nil_r. auto. Qed.

(** Every way into the [except] block ends in a failed result. *)
Lemma failed_run job start e (w wk : World) evsk :
  pipeline_step w wk evsk ->
  Forall (fun ev => is_loop_event ev = false) evsk ->
  (forall e0, fst (_extract_text lib job w) = Raise e0 ->
              e0 = e /\ no_pool_get evsk /\ instances wk = instances w) ->
  (fst (_extract_text lib job w) = Return "" ->
   str e = "No text content extracted from document"
   /\ no_pool_get evsk /\ instances wk = instances w) ->
  (forall c ws e0, In (EvCreate c ws (Some e0)) evsk -> e0 = e) ->
  (forall rag d t e0, In (EvInsert rag d t (Some e0)) evsk -> e0 = e) ->
  exists r w' evs,
    process_except env job start e wk = (Return r, w')
    /\ processed lib job w w' evs r.
Proof.
  intros Hstep Hloop Hext Hempty Hcre Hins.
  destruct (process_except_run job start e wk)
    as (r & w' & ev & Hrun & Hstep' & Hev & Hinst & Hfail & Hmsg & Hids).
  exists r, w', (evsk ++ [ev])%list. split; [exact Hrun |].
  assert (Hlast : forall x, In x (evsk ++ [ev])%list -> is_log x = false ->
                            In x evsk).
  { intros x Hx Hnl. apply in_app_or in Hx as [Hx | [<- | []]];
      [exact Hx | congruence]. }
  constructor.
  - eapply pipeline_step_trans; eassumption.
  - apply Forall_app. split; [exact Hloop |].
    constructor; [| constructor]. destruct ev; try discriminate; reflexivity.
  - exact Hids.
  - intros H. congruence.
  - intros _. eexists. exact Hmsg.
  - intros e0 He0. destruct (Hext e0 He0) as (-> & Hnp & Hi).
    repeat split; [exact Hfail | exact Hmsg | | congruence].
    intros cid Hin. apply Hlast in Hin; [| reflexivity]. exact (Hnp cid Hin).
  - intros He0. destruct (Hempty He0) as (Hs & Hnp & Hi).
    repeat split; [exact Hfail | congruence | | congruence].
    intros cid Hin. apply Hlast in Hin; [| reflexivity]. exact (Hnp cid Hin).
  - intros c ws e0 Hin. apply Hlast in Hin; [| reflexivity].
    rewrite (Hcre _ _ _ Hin). split; assumption.
  - intros rag d t e0 Hin. apply Hlast in Hin; [| reflexivity].
    rewrite (Hins _ _ _ _ Hin). split; assumption.
Qed.

Lemma logs_no_create evs c ws err :
  Forall (fun e => is_log e = true) evs -> ~ In (EvCreate c ws err) evs.
Proof.
  intros H Hin. rewrite Forall_forall in H. apply H in Hin. discriminate.
Qed.

Lemma logs_no_insert evs r d t err :
  Forall (fun e => is_log e = true) evs -> ~ In (EvInsert r d t err) evs.
Proof.
  intros H Hin. rewrite Forall_forall in H. apply H in Hin. discriminate.
Qed.

(** [_process_internal] always returns a result. *)
Lemma _process_internal_run job (w : World) :
  exists r w' evs,
    _process_internal lib env settings job w = (Return r, w')
    /\ processed lib job w w' evs r.
Proof.
  destruct (_extract_text_run job) as (oe & evse & Hext & Hoe & Hlogs).
  pose proof (Hext w) as Hw. apply (f_equal fst) in Hw. cbn [fst] in Hw.
  unfold _process_internal. unfold bind at 1. unfold LightRAGPool.time at 1.
  unfold bind at 1. unfold next_call at 1. unfold ret at 1.
  set (start := time_time env (tick w)).
  set (w1 := mkWorld _ _ _ _ _ _ _ _).
  assert (Hstep1 : pipeline_step w (logged w1 evse) evse).
  { subst w1. repeat split; reflexivity. }
  assert (Hinst1 : instances (logged w1 evse) = instances w) by reflexivity.
  unfold try_except, process_try. unfold bind at 1. rewrite Hext.
  destruct oe as [text | e |]; [| | congruence].
  2: { (* extraction raised *)
    apply failed_run with (evsk := evse); auto using logs_not_loop.
    - intros e0 He0. rewrite Hw in He0. injection He0 as <-.
      auto using logs_no_pool_get.
    - rewrite Hw. discriminate.
    - intros c ws e0 Hin. destruct (logs_no_create _ _ _ _ Hlogs Hin).
    - intros r d t e0 Hin. destruct (logs_no_insert _ _ _ _ _ Hlogs Hin). }
  destruct (is_empty text) eqn:Hempty.
  { (* nothing extracted *)
    apply is_empty_true in Hempty. subst text. unfold raise.
    apply failed_run with (evsk := evse); auto using logs_not_loop.
    - rewrite Hw. discriminate.
    - auto using logs_no_pool_get.
    - intros c ws e0 Hin. destruct (logs_no_create _ _ _ _ Hlogs Hin).
    - intros r d t e0 Hin. destruct (logs_no_insert _ _ _ _ _ Hlogs Hin). }
  apply is_empty_false in Hempty.
  destruct (get_summary (IndexingJobMessage.collection_id job)
              (logged w1 evse))
    as (og & n & evsg & d' & Hget & Hog & Hpg & Hgloop & Hgins & Hgcre).
  unfold bind at 1. rewrite Hget.
  set (w3 := advance (logged w1 evse) n evsg d').
  assert (Hstep3 : pipeline_step w w3 (evse ++ evsg)%list).
  { eapply pipeline_step_trans; [exact Hstep1 |].
    apply pipeline_step_advance. }
  assert (Hloop3 : Forall (fun ev => is_loop_event ev = false)
                     (evse ++ evsg)%list).
  { apply Forall_app. auto using logs_not_loop. }
  assert (Hcre3 : forall c ws e0,
            In (EvCreate c ws (Some e0)) (evse ++ evsg)%list ->
            og = Raise e0).
  { intros c ws e0 Hin. apply in_app_or in Hin as [Hin | Hin].
    - destruct (logs_no_create _ _ _ _ Hlogs Hin).
    - eauto. }
  assert (Hins3 : forall r d t err,
            ~ In (EvInsert r d t err) (evse ++ evsg)%list).
  { intros r d t err Hin. apply in_app_or in Hin as [Hin | Hin].
    - exact (logs_no_insert _ _ _ _ _ Hlogs Hin).
    - exact (Hgins _ _ _ _ Hin). }
  destruct og as [rag | e |]; [| | congruence].
  2: { (* the pool raised *)
    apply failed_run with (evsk := (evse ++ evsg)%list); auto.
    - rewrite Hw. discriminate.
    - rewrite Hw. intros [= ->]. congruence.
    - intros c ws e0 Hin. apply Hcre3 in Hin. congruence.
    - intros r d t e0 Hin. destruct (Hins3 _ _ _ _ Hin). }
  unfold bind at 1. unfold rag_ainsert. unfold bind at 1.
  unfold next_call at 1. unfold bind at 1. unfold emit at 1.
  cbn [tick trace instances _semaphore _jobs_processed _jobs_failed
       _running consumer].
  set (write := EvInsert rag (IndexingJobMessage.url job) text
                  (ainsert env (tick w3))).
  set (w4 := mkWorld _ _ _ _ _ _ _ _).
  assert (Hstep4 : pipeline_step w w4 ((evse ++ evsg) ++ [write])%list).
  { eapply pipeline_step_trans; [exact Hstep3 |].
    subst w4. repeat split; reflexivity. }
  assert (Hloop4 : Forall (fun ev => is_loop_event ev = false)
                     ((evse ++ evsg) ++ [write])%list).
  { apply Forall_app. split; [exact Hloop3 | repeat constructor]. }
  assert (Hcre4 : forall c ws e0,
            ~ In (EvCreate c ws (Some e0)) ((evse ++ evsg) ++ [write])%list).
  { intros c ws e0 Hin. apply in_app_or in Hin as [Hin | [Hin | []]].
    - apply Hcre3 in Hin. discriminate.
    - discriminate. }
  destruct (ainsert env (tick w3)) as [e |] eqn:Hwrite.
  { (* the write raised *)
    unfold raise.
    apply failed_run with (evsk := ((evse ++ evsg) ++ [write])%list); auto.
    - rewrite Hw. discriminate.
    - rewrite Hw. intros [= ->]. congruence.
    - intros c ws e0 Hin. destruct (Hcre4 _ _ _ Hin).
    - intros r d t e0 Hin. apply in_app_or in Hin as [Hin | [Hin | []]].
      + destruct (Hins3 _ _ _ _ Hin).
      + subst write. congruence. }
  (* the write went through *)
  unfold ret at 1. unfold bind at 1. unfold LightRAGPool.time, bind,
    next_call, ret, incr_jobs_processed.
  cbn [tick trace instances _semaphore _jobs_processed _jobs_failed
       _running consumer].
  do 3 eexists. split; [reflexivity |].
  constructor; cbn [ProcessingResult.success ProcessingResult.error_message
    ProcessingResult.job_id ProcessingResult.url
    ProcessingResult.collection_id ProcessingResult.text_length].
  - destruct Hstep4 as (T & S & R & C). repeat split; cbn; eassumption.
  - exact Hloop4.
  - auto.
  - intros _. split; [reflexivity |]. exists rag, text.
    split; [| split; [exact Hw | reflexivity]].
    apply in_or_app. right. left. reflexivity.
  - discriminate.
  - rewrite Hw. discriminate.
  - rewrite Hw. intros [= ->]. congruence.
  - intros c ws e0 Hin. destruct (Hcre4 _ _ _ Hin).
  - intros r d t e0 Hin. apply in_app_or in Hin as [Hin | [Hin | []]].
    + destruct (Hins3 _ _ _ _ Hin).
    + subst write. congruence.
Qed.

Lemma _extract_text_outcome job (w1 w2 : World) :
  fst (_extract_text lib job w1) = fst (_extract_text lib job w2).
Proof.
  destruct (_extract_text_run job) as (o & evs & Hext & _).
  rewrite !Hext. reflexivity.
Qed.

Lemma events_since_step (w w' : World) evs :
  pipeline_step w w' evs -> events_since w w' = evs.
Proof.
  intros (T & _). unfold events_since. rewrite T.
  apply events_since_app_raw.
Qed.

(** With a free slot, [process] is [_process_internal] and gives the slot
    back. *)
Lemma process_run job (w : World) :
  0 < _semaphore w ->
  exists r w' evs,
    process lib env settings job w = (Return r, w')
    /\ processed lib job w w' evs r.
Proof.
  intros Hslot. apply Z.ltb_lt in Hslot.
  unfold process, bind, semaphore_acquire. rewrite Hslot.
  set (wa := set_semaphore (_semaphore w - 1) w).
  destruct (_process_internal_run job wa) as (r & wb & evs & Hrun & Hp).
  unfold try_finally. rewrite Hrun. unfold semaphore_release.
  exists r, (set_semaphore (_semaphore wb + 1) wb), evs.
  split; [reflexivity |].
  destruct Hp as [(T & S & R & C) Hloop Hids Hok Hfail Hext Hempty Hcre Hins].
  rewrite (_extract_text_outcome job wa w) in Hok, Hext, Hempty.
  constructor; auto.
  subst wa. cbn in T, S, R, C. repeat split; cbn; try assumption. lia.
Qed.

(** Without one, it waits. *)
Lemma process_suspends job (w : World) :
  _semaphore w <= 0 -> process lib env settings job w = (Suspend, w).
Proof.
  intros Hfull. unfold process, bind, semaphore_acquire.
  assert ((0 <? _semaphore w) = false) as -> by (apply Z.ltb_ge; lia).
  reflexivity.
Qed.
End PipelineRuns.

(** ** C6 and C7: the pipeline turns every failure into a result *)

Section Pipeline.
Variable lib : Library.
Variable env : Env.
Variable settings : Settings.
Import DocumentProcessor.

(** C7. [process] never raises. With a slot of the semaphore free it
    returns a [ProcessingResult] and gives the slot back; with none it
    waits, as the limiter has it. Every failure on the way is in that result,
    [success = False] with [error_message = str(e)]: an exception [e]
    from text extraction, a backend construction that failed with [e]
    inside the pool, a backend write that failed with [e]; and a result
    with [success = False] always carries a message. *)
Theorem process_returns_a_result (job : IndexingJobMessage.t) (w : World) :
  (forall e, fst (process lib env settings job w) = Raise e -> False)
  /\ (0 < _semaphore w ->
      exists r w',
        process lib env settings job w = (Return r, w')
        /\ _semaphore w' = _semaphore w
        /\ (ProcessingResult.success r = false ->
            exists msg, ProcessingResult.error_message r = Some msg)
        /\ (forall e, fst (_extract_text lib job w) = Raise e ->
            ProcessingResult.success r = false
            /\ ProcessingResult.error_message r = Some (str e))
        /\ (forall cid ws e,
              In (EvCreate cid ws (Some e)) (events_since w w') ->
              ProcessingResult.success r = false
              /\ ProcessingResult.error_message r = Some (str e))
        /\ (forall rag doc_id text e,
              In (EvInsert rag doc_id text (Some e)) (events_since w w') ->
              ProcessingResult.success r = false
              /\ ProcessingResult.error_message r = Some (str e)))
  /\ (_semaphore w <= 0 ->
      process lib env settings job w = (Suspend, w)).
Proof.
  split; [| split; [| apply process_suspends]].
  - intros e He. destruct (Z.lt_ge_cases 0 (_semaphore w)) as [Hslot | Hfull].
    + destruct (process_run lib env settings job w Hslot)
        as (r & w' & evs & Hrun & _).
      rewrite Hrun in He. discriminate.
    + rewrite process_suspends in He by exact Hfull. discriminate.
  - intros Hslot.
    destruct (process_run lib env settings job w Hslot)
      as (r & w' & evs & Hrun & Hp).
    exists r, w'. split; [exact Hrun |].
    destruct Hp as [Hstep Hloop Hids Hok Hfail Hext Hempty Hcre Hins].
    rewrite (events_since_step w w' evs Hstep).
    split; [apply Hstep |]. split; [exact Hfail |].
    split; [| split; [exact Hcre | exact Hins]].
    intros e He. destruct (Hext e He) as (H1 & H2 & _). auto.
Qed.

(** C6. A job whose content has empty [text] and empty [html] is
    refused before the pool is asked for anything: [process] makes no [get]
    on the pool and leaves the pool as it was; once it has its slot of the
    semaphore it returns [success = False] with the message of the
    [ValueError] that [_extract_text] raises for content without text,
    "Job has neither text nor HTML content" (the code has no error kinds:
    the message is what tells the failure); with no slot free it waits. *)
Theorem empty_content_fails_before_the_pool
    (job : IndexingJobMessage.t) (c : PageContent.t) (w : World) :
  IndexingJobMessage.content job = Some c ->
  PageContent.text c = "" ->
  PageContent.html c = "" ->
  let run := process lib env settings job w in
  (forall cid, In (EvPoolGet cid) (events_since w (snd run)) -> False)
  /\ instances (snd run) = instances w
  /\ (0 < _semaphore w ->
      exists r,
        fst run = Return r
        /\ ProcessingResult.success r = false
        /\ ProcessingResult.error_message r
           = Some "Job has neither text nor HTML content")
  /\ (_semaphore w <= 0 -> fst run = Suspend).
Proof.
  intros Hc Ht Hh run. subst run.
  assert (Hraise : fst (_extract_text lib job w)
                   = Raise (mkExn ValueError
                              "Job has neither text nor HTML content")).
  { unfold _extract_text. rewrite Hc, Ht, Hh. reflexivity. }
  destruct (Z.lt_ge_cases 0 (_semaphore w)) as [Hslot | Hfull].
  - destruct (process_run lib env settings job w Hslot)
      as (r & w' & evs & Hrun & Hp).
    rewrite Hrun. cbn [fst snd].
    destruct Hp as [Hstep _ _ _ _ Hext _ _ _].
    destruct (Hext _ Hraise) as (Hfail & Hmsg & Hnp & Hinst).
    rewrite (events_since_step w w' evs Hstep).
    split; [exact Hnp |]. split; [exact Hinst |].
    split; [intros _; exists r; auto | intros H; lia].
  - rewrite (process_suspends lib env settings job w Hfull). cbn [fst snd].
    rewrite events_since_refl.
    split; [intros cid [] |]. split; [reflexivity |].
    split; [intros H; lia | reflexivity].
Qed.
End Pipeline.

(** C6 at work: the job of the spec's scenario, on a backend that would
    fail if it were asked. *)
Lemma empty_content_witness :
  let run := DocumentProcessor.process Doubles.library Doubles.broken_backend
               default_settings (Examples.job (Some Examples.empty_content))
               Doubles.idle in
  (forall cid, In (EvPoolGet cid) (events_since Doubles.idle (snd run)) -> False)
  /\ instances (snd run) = instances Doubles.idle
  /\ exists r,
       fst run = Return r
       /\ ProcessingResult.success r = false
       /\ ProcessingResult.error_message r
          = Some "Job has neither text nor HTML content".
Proof.
  destruct (empty_content_fails_before_the_pool Doubles.library
              Doubles.broken_backend default_settings
              (Examples.job (Some Examples.empty_content))
              Examples.empty_content Doubles.idle eq_refl eq_refl eq_refl)
    as (Hnoget & Hpool & Hreturns & _).
  split; [exact Hnoget |]. split; [exact Hpool |].
  apply Hreturns. reflexivity.
Defined.

(** C7 at work: a job with text on a backend where every call fails. The
    construction failure comes back as a failed result with its message. *)
Lemma process_returns_a_result_witness :
  exists r w',
    DocumentProcessor.process Doubles.library Doubles.broken_backend
      default_settings (Examples.job (Some Examples.hello)) Doubles.idle
    = (Return r, w')
    /\ ProcessingResult.success r = false
    /\ ProcessingResult.error_message r = Some "connection refused".
Proof.
  destruct (process_returns_a_result Doubles.library Doubles.broken_backend
              default_settings (Examples.job (Some Examples.hello))
              Doubles.idle) as (_ & Hreturns & _).
  destruct (Hreturns eq_refl)
    as (r & w' & Hrun & _ & _ & _ & Hcreate & _).
  exists r, w'. split; [exact Hrun |].
  apply (Hcreate "t1" "ws_t1" Doubles.backend_error).
  vm_compute in Hrun. injection Hrun as _ <-.
  vm_compute. auto 10.
Defined.

(** ** The ingestion loop *)

Lemma filter_none {A} (f : A -> bool) (l : list A) :
  Forall (fun x => f x = false) l -> filter f l = [].
Proof.
  induction 1 as [| x l Hx _ IH]; cbn; [reflexivity |].
  rewrite Hx. exact IH.
Qed.

Section LoopRuns.
Variable lib : Library.
Variable env : Env.
Import IndexingJobConsumer.

(** Construction of the message never raises [JSONDecodeError]: not a
    mapping is a [TypeError], an invalid mapping a [ValidationError]. *)
Lemma init_error_is_not_JSONDecodeError (v : pyval) (e : exn) :
  messages.IndexingJobMessage_init lib v = inl e ->
  is_JSONDecodeError e = false.
Proof.
  unfold messages.IndexingJobMessage_init.
  destruct v; try (intros [= <-]; reflexivity).
  destruct (messages.IndexingJobMessage_validate lib items);
    intros [= <-]; reflexivity.
Qed.

Lemma consumer_commit_run (m : ConsumerRecord) (w : World) :
  consumer_commit env m w
  = (match commit_failure env (tick w) with
     | None => Return tt
     | Some e => Raise e
     end,
     advance w 1
       [EvCommit (partition m) (offset m) (commit_failure env (tick w))]
       (instances w)).
Proof.
  destruct w. unfold consumer_commit, commit_failure, bind, next_call,
    emit, ret, raise, advance. cbn.
  destruct (commit env tick0); reflexivity.
Qed.

(** A record whose value does not construct a message: the generic
    [except Exception] logs it, and that is all. *)
Lemma handle_message_unparsed handler (m : ConsumerRecord) (e : exn)
    (w : World) :
  messages.IndexingJobMessage_init lib (value m) = inl e ->
  handle_message lib env handler m w
  = (Return tt, logged w [EvLog ERROR "Error processing message"]).
Proof.
  intros Hparse.
  pose proof (init_error_is_not_JSONDecodeError _ _ Hparse) as Hclass.
  unfold handle_message, try_except, bind, lift. rewrite Hparse.
  unfold raise. rewrite Hclass. destruct w. reflexivity.
Qed.

(** A record whose handler returns: the loop commits, whatever the
    result says. *)
Lemma handle_message_returned handler (m : ConsumerRecord)
    (job : IndexingJobMessage.t) (r : ProcessingResult.t) (w wh : World) :
  messages.IndexingJobMessage_init lib (value m) = inr job ->
  handler job (logged w [EvDispatch (IndexingJobMessage.job_id job)])
  = (Return r, wh) ->
  handle_message lib env handler m w
  = (Return tt,
     advance wh 1
       (after_handler env m (IndexingJobMessage.job_id job)
          (ProcessingResult.success r) (tick wh))
       (instances wh)).
Proof.
  intros Hparse Hrun.
  unfold handle_message, try_except. unfold bind at 1. unfold lift.
  rewrite Hparse. unfold ret at 1. unfold bind at 1. unfold emit at 1.
  fold (logged w [EvDispatch (IndexingJobMessage.job_id job)]).
  replace (mkWorld (tick w)
             (trace w ++ [EvDispatch (IndexingJobMessage.job_id job)])
             (instances w) (_semaphore w) (_jobs_processed w)
             (_jobs_failed w) (_running w) (consumer w))
    with (logged w [EvDispatch (IndexingJobMessage.job_id job)])
    by reflexivity.
  unfold bind at 1. rewrite Hrun. unfold bind at 1. unfold emit at 1.
  rewrite consumer_commit_run. cbn [tick].
  unfold after_handler.
  destruct (commit_failure env (tick wh)) as [e |] eqn:Hcommit.
  - assert (Hclass : is_JSONDecodeError e = false).
    { unfold commit_failure in Hcommit.
      destruct (commit env (tick wh)); [| discriminate].
      injection Hcommit as <-. reflexivity. }
    rewrite Hclass. destruct wh. unfold emit, advance. cbn.
    rewrite <- !app_assoc. reflexivity.
  - destruct wh. unfold advance. cbn. rewrite <- !app_assoc. reflexivity.
Qed.

Lemma handle_message_suspended handler (m : ConsumerRecord)
    (job : IndexingJobMessage.t) (w wh : World) :
  messages.IndexingJobMessage_init lib (value m) = inr job ->
  handler job (logged w [EvDispatch (IndexingJobMessage.job_id job)])
  = (Suspend, wh) ->
  handle_message lib env handler m w = (Suspend, wh).
Proof.
  intros Hparse Hrun.
  unfold handle_message, try_except. unfold bind at 1. unfold lift.
  rewrite Hparse. unfold ret at 1. unfold bind at 1. unfold emit at 1.
  replace (mkWorld (tick w)
             (trace w ++ [EvDispatch (IndexingJobMessage.job_id job)])
             (instances w) (_semaphore w) (_jobs_processed w)
             (_jobs_failed w) (_running w) (consumer w))
    with (logged w [EvDispatch (IndexingJobMessage.job_id job)])
    by reflexivity.
  unfold bind at 1. rewrite Hrun. reflexivity.
Qed.
End LoopRuns.

(** ** C10: one record at a time *)

Lemma subseq_app_r {A} (l l1 l2 : list A) :
  subseq l l1 -> subseq l (l1 ++ l2)%list.
Proof. induction 1; cbn; constructor; assumption. Qed.

Lemma commits_filter (evs : list Event) :
  commits (filter is_loop_event evs) = commits evs.
Proof.
  induction evs as [| e evs IH]; [reflexivity |].
  destruct e; cbn; rewrite ?IH; reflexivity.
Qed.

Lemma peak_filter (evs : list Event) (cur : nat) :
  peak_in_flight cur (filter is_loop_event evs) = peak_in_flight cur evs.
Proof.
  revert cur. induction evs as [| e evs IH]; intros cur; [reflexivity |].
  destruct e; cbn; rewrite ?IH; reflexivity.
Qed.

Lemma sequential_peak ms evs :
  sequential ms evs -> (peak_in_flight 0 evs <= 1)%nat.
Proof.
  induction 1; cbn [peak_in_flight Nat.pred]; lia.
Qed.

Lemma sequential_commits ms evs :
  sequential ms evs -> subseq (commits evs) (map position ms).
Proof.
  induction 1; cbn.
  - constructor.
  - constructor. assumption.
  - apply sub_take. assumption.
  - constructor.
Qed.

Section Loop.
Variable lib : Library.
Variable env : Env.
Variable settings : Settings.
Import IndexingJobConsumer.

(** One turn of the loop with the pipeline as its handler. *)
Lemma handle_message_shape (m : ConsumerRecord) (w : World) :
  exists o w' evs,
    RAGAgent.handle_message lib env settings m w = (o, w')
    /\ trace w' = (trace w ++ evs)%list
    /\ ((o = Suspend
         /\ exists j, filter is_loop_event evs = [EvDispatch j])
        \/ (o = Return tt
            /\ (filter is_loop_event evs = []
                \/ exists j s c,
                     filter is_loop_event evs
                     = [EvDispatch j; EvResult j s;
                        EvCommit (partition m) (offset m) c]))).
Proof.
  unfold RAGAgent.handle_message.
  destruct (messages.IndexingJobMessage_init lib (value m))
    as [e | job] eqn:Hparse.
  { rewrite (handle_message_unparsed lib env _ m e w Hparse).
    do 3 eexists. split; [reflexivity |]. split; [reflexivity |].
    right. split; [reflexivity | left; reflexivity]. }
  set (wd := logged w [EvDispatch (IndexingJobMessage.job_id job)]).
  destruct (Z.lt_ge_cases 0 (_semaphore wd)) as [Hslot | Hfull].
  - destruct (process_run lib env settings job wd Hslot)
      as (r & wp & evs & Hrun & Hp).
    rewrite (handle_message_returned lib env _ m job r w wp Hparse Hrun).
    destruct Hp as [(T & _) Hloop _ _ _ _ _ _ _].
    do 3 eexists. split; [reflexivity |].
    split.
    { unfold advance. cbn [trace]. rewrite T. subst wd.
      unfold logged, advance. cbn [trace].
      rewrite <- !app_assoc. reflexivity. }
    right. split; [reflexivity |]. right.
    exists (IndexingJobMessage.job_id job), (ProcessingResult.success r),
      (commit_failure env (tick wp)).
    rewrite !filter_app, (filter_none _ _ Hloop). unfold after_handler.
    destruct (commit_failure env (tick wp)); reflexivity.
  - rewrite (handle_message_suspended lib env _ m job w wd Hparse
               (process_suspends lib env settings job wd Hfull)).
    do 3 eexists. split; [reflexivity |]. split; [reflexivity |].
    left. split; [reflexivity |]. eexists. reflexivity.
Qed.

Lemma consume_loop_run (stream : list delivery) : forall (w : World),
  exists o w' evs handled rest,
    consume_loop lib env (DocumentProcessor.process lib env settings)
      stream w = (o, w')
    /\ trace w' = (trace w ++ evs)%list
    /\ records stream = (handled ++ rest)%list
    /\ sequential handled (filter is_loop_event evs).
Proof.
  induction stream as [| item stream IH]; intros w.
  - exists (Return tt), w, [], [], []. cbn. rewrite app_nil_r.
    repeat split; constructor.
  - destruct item as [m | e |].
    + cbn [consume_loop records].
      destruct (_running w); cbn [negb].
      2: { exists (Return tt), w, [], [], (m :: records stream). cbn.
           rewrite app_nil_r. repeat split; constructor. }
      destruct (handle_message_shape m w)
        as (o & w1 & evs1 & Hrun & T1 & Hshape).
      unfold RAGAgent.handle_message in Hrun.
      unfold bind. rewrite Hrun.
      destruct Hshape as [(-> & j & Hevs) | (-> & Hevs)].
      * exists Suspend, w1, evs1, [m], (records stream).
        split; [reflexivity |]. split; [exact T1 |].
        split; [reflexivity |]. rewrite Hevs. apply seq_waiting.
      * destruct (IH w1) as (o2 & w2 & evs2 & handled & rest & Hrun2 & T2
                              & Hrec & Hseq).
        exists o2, w2, (evs1 ++ evs2)%list, (m :: handled), rest.
        split; [exact Hrun2 |].
        split; [rewrite T2, T1, app_assoc; reflexivity |].
        split; [rewrite Hrec; reflexivity |].
        rewrite filter_app.
        destruct Hevs as [-> | (j & s & c & ->)]; cbn [app].
        -- apply seq_skipped. exact Hseq.
        -- apply seq_handled. exact Hseq.
    + cbn [consume_loop records].
      exists (Raise e), w, [], [], (records stream). cbn.
      rewrite app_nil_r. repeat split; constructor.
    + cbn [consume_loop records]. unfold bind, set_running.
      match goal with |- context [consume_loop _ _ _ stream ?w0] =>
        destruct (IH w0) as (o2 & w2 & evs2 & handled & rest & Hrun2 & T2
                               & Hrec & Hseq) end.
      exists o2, w2, evs2, handled, rest.
      split; [exact Hrun2 |]. split; [exact T2 |]. split; assumption.
Qed.

(** C10. Whatever the stream delivers and the collaborators answer,
    the loop's events of a run of [consume] are those of a prefix of the
    delivered records, record by record in the order of delivery: for each
    record its dispatch to the pipeline, the pipeline's return and then
    the commit, all before the next record's dispatch. So no more than
    one pipeline call is ever awaited and not yet returned, and the
    offsets are committed in the order of consumption. *)
Theorem consume_is_sequential (stream : list delivery) (w : World) :
  let w' := snd (RAGAgent.consume lib env settings stream w) in
  let evs := events_since w w' in
  (exists handled rest,
     records stream = (handled ++ rest)%list
     /\ sequential handled (filter is_loop_event evs))
  /\ (peak_in_flight 0 evs <= 1)%nat
  /\ subseq (commits evs) (map position (records stream)).
Proof.
  cbv zeta.
  assert (Hmain : exists handled rest,
            records stream = (handled ++ rest)%list
            /\ sequential handled
                 (filter is_loop_event
                    (events_since w
                       (snd (RAGAgent.consume lib env settings stream w))))).
  { unfold RAGAgent.consume, consume.
    destruct (consumer w); cbn [negb].
    2: { exists [], (records stream). unfold raise. cbn [snd].
         rewrite events_since_refl. split; [reflexivity | constructor]. }
    destruct (consume_loop_run stream w)
      as (o & w' & evs & handled & rest & Hrun & T & Hrec & Hseq).
    exists handled, rest. split; [exact Hrec |].
    unfold try_except. rewrite Hrun.
    destruct o as [[] | e |]; cbn [snd].
    - unfold events_since. rewrite T, events_since_app_raw. exact Hseq.
    - destruct (is_KafkaError e).
      + unfold bind, emit, raise. cbn [snd]. unfold events_since.
        cbn [trace]. rewrite T, <- app_assoc, events_since_app_raw.
        rewrite filter_app. cbn. rewrite app_nil_r. exact Hseq.
      + unfold raise. cbn [snd]. unfold events_since.
        rewrite T, events_since_app_raw. exact Hseq.
    - unfold events_since. rewrite T, events_since_app_raw. exact Hseq. }
  split; [exact Hmain |].
  destruct Hmain as (handled & rest & Hrec & Hseq).
  split.
  - rewrite <- peak_filter. eapply sequential_peak. exact Hseq.
  - rewrite <- commits_filter, Hrec, map_app.
    apply subseq_app_r. apply sequential_commits. exact Hseq.
Qed.
End Loop.

(** ** C1 and C2: which records the loop commits *)

Section Commits.
Variable lib : Library.
Variable env : Env.
Variable settings : Settings.
Import IndexingJobConsumer.

(** A record that constructs a message is dispatched; if the pipeline
    has a slot, its call returns a result [r] and the loop then commits
    the record - once - without looking at [r]. *)
Lemma handled_record_is_committed (m : ConsumerRecord)
    (job : IndexingJobMessage.t) (w : World) :
  messages.IndexingJobMessage_init lib (value m) = inr job ->
  0 < _semaphore w ->
  exists r wp w',
    DocumentProcessor.process lib env settings job
      (logged w [EvDispatch (IndexingJobMessage.job_id job)])
    = (Return r, wp)
    /\ RAGAgent.handle_message lib env settings m w = (Return tt, w')
    /\ filter is_loop_event (events_since w w')
       = [EvDispatch (IndexingJobMessage.job_id job);
          EvResult (IndexingJobMessage.job_id job)
            (ProcessingResult.success r);
          EvCommit (partition m) (offset m) (commit_failure env (tick wp))]
    /\ commits (events_since w w') = [position m].
Proof.
  intros Hparse Hslot.
  set (wd := logged w [EvDispatch (IndexingJobMessage.job_id job)]).
  destruct (process_run lib env settings job wd Hslot)
    as (r & wp & evs & Hrun & Hp).
  exists r, wp. eexists. split; [exact Hrun |].
  unfold RAGAgent.handle_message.
  rewrite (handle_message_returned lib env _ m job r w wp Hparse Hrun).
  split; [reflexivity |].
  destruct Hp as [(T & _) Hloop _ _ _ _ _ _ _].
  assert (E : events_since w
                (advance wp 1
                   (after_handler env m (IndexingJobMessage.job_id job)
                      (ProcessingResult.success r) (tick wp))
                   (instances wp))
              = ([EvDispatch (IndexingJobMessage.job_id job)] ++ evs
                 ++ after_handler env m (IndexingJobMessage.job_id job)
                      (ProcessingResult.success r) (tick wp))%list).
  { unfold events_since, advance. cbn [trace]. rewrite T. subst wd.
    unfold logged, advance. cbn [trace].
    rewrite <- !app_assoc. apply events_since_app_raw. }
  rewrite E.
  assert (F : filter is_loop_event
                ([EvDispatch (IndexingJobMessage.job_id job)] ++ evs
                 ++ after_handler env m (IndexingJobMessage.job_id job)
                      (ProcessingResult.success r) (tick wp))%list
              = [EvDispatch (IndexingJobMessage.job_id job);
                 EvResult (IndexingJobMessage.job_id job)
                   (ProcessingResult.success r);
                 EvCommit (partition m) (offset m)
                   (commit_failure env (tick wp))]).
  { rewrite !filter_app, (filter_none _ _ Hloop). unfold after_handler.
    destruct (commit_failure env (tick wp)); reflexivity. }
  split; [exact F |].
  rewrite <- commits_filter, F. reflexivity.
Qed.

(** A record that does not construct a message is logged and left
    uncommitted, whatever the handler is. *)
Lemma unparsed_record_is_not_committed handler (m : ConsumerRecord)
    (e : exn) (w : World) :
  messages.IndexingJobMessage_init lib (value m) = inl e ->
  let run := handle_message lib env handler m w in
  fst run = Return tt
  /\ events_since w (snd run) = [EvLog ERROR "Error processing message"].
Proof.
  intros Hparse run. subst run.
  rewrite (handle_message_unparsed lib env handler m e w Hparse).
  cbn [fst snd]. unfold logged. rewrite events_since_advance.
  split; reflexivity.
Qed.
End Commits.

(** C1 on the code: the record at partition 0, offset 42 carries a job
    with empty content. The pipeline returns [success = False]
    ([EvResult 1 false]), and the loop awaits [commit()] for the record all
    the same. *)
Theorem failed_result_is_committed (env : Env) :
  let m := IndexingJobConsumer.mkRecord Payloads.empty_content_job 0 42 in
  let run := RAGAgent.handle_message Doubles.library env default_settings m
               (RAGAgent.started default_settings) in
  fst run = Return tt
  /\ filter is_loop_event (trace (snd run))
     = [EvDispatch 1; EvResult 1 false; EvCommit 0 42 (commit_failure env 2)]
  /\ commits (trace (snd run)) = [(0, 42)].
Proof.
  destruct env as [clock create close insert kafka_commit].
  cbv zeta. unfold commit_failure. vm_compute.
  destruct (kafka_commit 2%nat); repeat split; reflexivity.
Qed.

(** C2 on the code: a record whose value is the JSON object [{}] does
    not construct a message - pydantic raises [ValidationError], which is
    not a [JSONDecodeError] - so the loop takes the generic [except], logs,
    and does not commit. This holds for every field validator, every
    handler and every world. *)
Theorem malformed_record_is_not_committed (lib : Library) (env : Env)
    (handler : IndexingJobMessage.t -> M ProcessingResult.t)
    (partition offset : Z) (w : World) :
  let m := IndexingJobConsumer.mkRecord Payloads.no_fields partition offset in
  let run := IndexingJobConsumer.handle_message lib env handler m w in
  messages.IndexingJobMessage_init lib (IndexingJobConsumer.value m)
  = inl (mkExn ValidationError "validation error for IndexingJobMessage")
  /\ fst run = Return tt
  /\ events_since w (snd run) = [EvLog ERROR "Error processing message"]
  /\ commits (events_since w (snd run)) = [].
Proof.
  cbv zeta.
  assert (Hparse : messages.IndexingJobMessage_init lib Payloads.no_fields
                   = inl (mkExn ValidationError
                            "validation error for IndexingJobMessage"))
    by reflexivity.
  destruct (unparsed_record_is_not_committed lib env handler
              (IndexingJobConsumer.mkRecord Payloads.no_fields partition offset)
              _ w Hparse) as [Hout Hevs].
  rewrite Hevs. repeat split; assumption || reflexivity.
Qed.

(** C10 at work: three records - a job with text, an object without
    fields, a job without content - on a healthy backend. The first and the
    third are dispatched, answered and committed in turn; the second leaves
    no event of the loop. *)
Lemma consume_is_sequential_witness :
  let stream :=
    [IndexingJobConsumer.Message
       (IndexingJobConsumer.mkRecord
          (PyDict [("job_id", PyInt 7); ("request_id", PyInt 1);
                   ("project_id", PyInt 1); ("user_id", PyStr "u1");
                   ("collection_id", PyStr "t1");
                   ("url", PyStr "https://x/doc");
                   ("content", PyDict [("text", PyStr "hello world")])])
          0 40);
     IndexingJobConsumer.Message
       (IndexingJobConsumer.mkRecord Payloads.no_fields 0 41);
     IndexingJobConsumer.Message
       (IndexingJobConsumer.mkRecord Payloads.empty_content_job 0 42)] in
  let w := RAGAgent.started default_settings in
  let w' := snd (RAGAgent.consume Doubles.library Doubles.healthy
                   default_settings stream w) in
  (peak_in_flight 0 (events_since w w') <= 1)%nat
  /\ subseq (commits (events_since w w')) [(0, 40); (0, 41); (0, 42)]
  /\ filter is_loop_event (events_since w w')
     = [EvDispatch 7; EvResult 7 true; EvCommit 0 40 None;
        EvDispatch 1; EvResult 1 false; EvCommit 0 42 None].
Proof.
  cbv zeta.
  match goal with
  | |- context [RAGAgent.consume ?l ?e ?s ?st ?w0] =>
      destruct (consume_is_sequential l e s st w0) as (_ & Hpeak & Hsub)
  end.
  split; [exact Hpeak |]. split; [exact Hsub |].
  vm_compute. reflexivity.
Defined.

(** * More of the pool *)

Section PoolMore.
Variable env : Env.
Variable settings : Settings.
Import LightRAGPool LightRAGWrapper.

Lemma getitem_remove_other {V} k k' (d : OrderedDict.t V) :
  k' <> k ->
  OrderedDict.getitem k' (OrderedDict.remove k d) = OrderedDict.getitem k' d.
Proof.
  intros Hne. induction d as [| [k1 v1] d IH]; [reflexivity |].
  unfold OrderedDict.remove in *. cbn.
  destruct (String.eqb_spec k k1) as [<- | Hk]; cbn.
  - apply String.eqb_neq in Hne. rewrite Hne. exact IH.
  - rewrite IH. reflexivity.
Qed.

(** X1. [release(cid)] always returns. It takes exactly the entry of [cid]
    out of the pool - every other tenant keeps its entry and its place -
    and awaits [finalize_storages] on it once, when there was one; it
    constructs nothing; and releasing again changes nothing at all. *)
Theorem release_removes_that_tenant_only (cid : string) (w : World) :
  let run := release env cid w in
  fst run = Return tt
  /\ instances (snd run) = OrderedDict.remove cid (instances w)
  /\ OrderedDict.contains cid (instances (snd run)) = false
  /\ (forall k, k <> cid ->
        OrderedDict.getitem k (instances (snd run))
        = OrderedDict.getitem k (instances w))
  /\ finalized (events_since w (snd run))
     = (if OrderedDict.contains cid (instances w) then [cid] else [])
  /\ constructed (events_since w (snd run)) = []
  /\ release env cid (snd run) = (Return tt, snd run).
Proof.
  cbv zeta.
  destruct (OrderedDict.getitem cid (instances w)) as [wr |] eqn:Hget.
  - rewrite (release_present env cid w wr Hget). cbn [fst snd].
    rewrite events_since_advance. cbn [advance instances].
    rewrite (getitem_contains _ _ _ Hget).
    repeat split.
    + apply contains_remove_same.
    + intros k Hk. apply getitem_remove_other, Hk.
    + apply finalized_finalize_events.
    + apply constructed_finalize_events.
    + apply release_absent. cbn [advance instances].
      apply contains_remove_same.
  - pose proof (getitem_None_contains _ _ Hget) as Habs.
    rewrite (release_absent env cid w Habs). cbn [fst snd].
    rewrite events_since_refl, Habs, (remove_absent _ _ Habs).
    repeat split; try reflexivity; try assumption.
    apply release_absent, Habs.
Qed.

(** What a [get] that returned leaves: the tenant's entry at the tail,
    holding the handle it returned, stamped at the last call made. *)
Lemma get_returned (cid : string) (w w' : World) (r : LightRAG.t) :
  get env settings cid w = (Return r, w') ->
  exists rest wr,
    instances w' = (rest ++ [(cid, wr)])%list
    /\ OrderedDict.contains cid rest = false
    /\ rag wr = r
    /\ last_used wr = time_time env (Nat.pred (tick w'))
    /\ (NoDup (OrderedDict.keys (instances w)) ->
        NoDup (OrderedDict.keys rest)).
Proof.
  intros Hrun.
  destruct (OrderedDict.getitem cid (instances w)) as [wr |] eqn:Hget.
  - rewrite (get_hit env settings cid w wr Hget) in Hrun.
    inversion Hrun; subst. clear Hrun.
    exists (OrderedDict.remove cid (instances w)),
           (touch (time_time env (tick w)) wr).
    cbn [advance instances tick Nat.add Nat.pred touch rag last_used].
    repeat split.
    + apply contains_remove_same.
    + apply NoDup_keys_remove.
  - apply getitem_None_contains in Hget.
    pose proof (get_miss env settings cid w Hget) as Hmiss.
    cbv zeta in Hmiss. rewrite Hmiss in Hrun. clear Hmiss.
    destruct (max_rag_instances settings <=? 0); [discriminate |].
    destruct (initialize_storages env _); [discriminate |].
    inversion Hrun; subst. clear Hrun.
    eexists _, _. cbn [advance instances tick Nat.add Nat.pred rag last_used].
    split; [reflexivity |].
    repeat split.
    + apply contains_skipn_false, Hget.
    + apply NoDup_keys_skipn.
Qed.

Lemma remove_snoc_same {V} k (v : V) (d : OrderedDict.t V) :
  OrderedDict.contains k d = false ->
  OrderedDict.remove k (d ++ [(k, v)])%list = d.
Proof.
  intros Habs. unfold OrderedDict.remove. rewrite filter_app. cbn.
  rewrite String.eqb_refl. cbn. rewrite app_nil_r.
  apply (remove_absent _ _ Habs).
Qed.

(** X2. Once [get(cid)] has returned a handle, asking again returns the
    very same handle: nothing is constructed, nothing is closed, no other
    tenant moves. A tenant has one backend object for as long as it stays
    in the pool. *)
Theorem get_again_returns_the_same_handle
    (cid : string) (w w' : World) (r : LightRAG.t) :
  get env settings cid w = (Return r, w') ->
  let again := get env settings cid w' in
  fst again = Return r
  /\ events_since w' (snd again) = [EvPoolGet cid]
  /\ OrderedDict.keys (instances (snd again))
     = OrderedDict.keys (instances w')
  /\ forall k, k <> cid ->
       OrderedDict.getitem k (instances (snd again))
       = OrderedDict.getitem k (instances w').
Proof.
  intros Hrun again. subst again.
  destruct (get_returned cid w w' r Hrun)
    as (rest & wr & Hinst & Habs & Hrag & _ & _).
  assert (Hget : OrderedDict.getitem cid (instances w') = Some wr)
    by (rewrite Hinst; apply getitem_app_absent, Habs).
  rewrite (get_hit env settings cid w' wr Hget). cbn [fst snd].
  rewrite events_since_advance. cbn [advance instances].
  rewrite Hinst, (remove_snoc_same _ _ _ Habs), !keys_app, Hrag.
  repeat split.
  intros k Hk. clear - Hk.
  induction rest as [| [k1 v1] rest IH]; cbn.
  - apply String.eqb_neq in Hk. rewrite Hk. reflexivity.
  - destruct (String.eqb k k1); [reflexivity | exact IH].
Qed.

(** X6. A tenant that [get] has just handed out is still in the pool after
    the next [cleanup_expired] exactly when the clock reading of the
    clean-up is no more than [rag_instance_ttl] past the last reading the
    [get] took. *)
Theorem tenant_just_used_outlives_the_ttl_only
    (cid : string) (w w' : World) (r : LightRAG.t) :
  NoDup (OrderedDict.keys (instances w)) ->
  get env settings cid w = (Return r, w') ->
  let used := time_time env (Nat.pred (tick w')) in
  let now := time_time env (tick w') in
  let run := cleanup_expired env settings w' in
  OrderedDict.contains cid (instances (snd run))
  = (now - used <=? rag_instance_ttl settings)
  /\ (now - used <= rag_instance_ttl settings ->
      fst (get env settings cid (snd run)) = Return r).
Proof.
  intros Hnd Hrun used now run. subst used now run.
  destruct (get_returned cid w w' r Hrun)
    as (rest & wr & Hinst & Habs & Hrag & Hused & Hnd').
  specialize (Hnd' Hnd).
  assert (Hndw' : NoDup (OrderedDict.keys (instances w')))
    by (rewrite Hinst; apply NoDup_keys_snoc; assumption).
  pose proof (cleanup_expired_run env settings w' Hndw') as Hc.
  cbv zeta in Hc. rewrite Hc. clear Hc. cbn [snd advance instances].
  rewrite Hinst, filter_app. cbn [filter].
  set (now := time_time env (tick w')).
  set (used := time_time env (Nat.pred (tick w'))).
  set (kept := filter _ rest).
  assert (Hexp : expired settings now (cid, wr)
                 = (rag_instance_ttl settings <? now - used))
    by (unfold expired, ttl_seconds; cbn [snd]; rewrite Hused; reflexivity).
  rewrite Hexp.
  assert (Hkept : OrderedDict.contains cid kept = false).
  { apply contains_false_In. intros Hin.
    apply In_keys_filter in Hin. apply contains_false_In in Habs.
    exact (Habs Hin). }
  destruct (rag_instance_ttl settings <? now - used) eqn:Hlt; cbn [negb].
  - rewrite app_nil_r, Hkept. apply Z.ltb_lt in Hlt.
    split; [symmetry; apply Z.leb_gt; lia | intros; lia].
  - apply Z.ltb_ge in Hlt. split.
    + rewrite (getitem_contains cid _ wr (getitem_app_absent _ _ _ Hkept)).
      symmetry. apply Z.leb_le. exact Hlt.
    + intros _. rewrite (get_hit env settings cid _ wr); [| cbn [advance instances]; apply getitem_app_absent, Hkept].
      cbn [fst]. rewrite Hrag. reflexivity.
Qed.

(** What one operation makes of the dictionary: it keeps some entries in
    their order, or it moves a touched entry to the tail, or it drops
    oldest entries and appends a new one. *)
Lemma run_op_shape (op : pool_op) (w : World) :
  NoDup (OrderedDict.keys (instances w)) ->
  let w' := snd (run_op env settings op w) in
  (tick w <= tick w')%nat
  /\ ((exists p, instances w' = filter p (instances w))
      \/ (exists n, instances w' = skipn n (instances w))
      \/ (exists cid wr,
            In (cid, wr) (instances w)
            /\ tick w' = S (tick w)
            /\ instances w'
               = (OrderedDict.remove cid (instances w)
                  ++ [(cid, touch (time_time env (tick w)) wr)])%list)
      \/ (exists cid n t,
            (tick w <= t)%nat
            /\ tick w' = (3 + t)%nat
            /\ instances w'
               = (skipn n (instances w)
                  ++ [(cid, LightRAGWrapper.mk
                              (LightRAG.mk (workspace_name cid) t) cid
                              (time_time env (1 + t))
                              (time_time env (2 + t)))])%list)).
Proof.
  intros Hnd. destruct op as [cid | cid | |]; cbn [run_op].
  - rewrite snd_bind_ret.
    destruct (OrderedDict.getitem cid (instances w)) as [wr |] eqn:Hget.
    + rewrite (get_hit env settings cid w wr Hget).
      cbn [snd advance instances tick]. split; [lia |].
      right. right. left. exists cid, wr.
      split; [apply getitem_In, Hget | split; reflexivity].
    + apply getitem_None_contains in Hget.
      pose proof (get_miss env settings cid w Hget) as Hrun.
      cbv zeta in Hrun. rewrite Hrun. clear Hrun.
      destruct (max_rag_instances settings <=? 0);
        [cbn [snd advance instances tick]; split; [lia |];
         right; left; eexists; reflexivity |].
      destruct (initialize_storages env _);
        cbn [snd advance instances tick]; (split; [lia |]).
      * right. left. eexists. reflexivity.
      * right. right. right.
        exists cid, (evicted settings (instances w)),
               (evicted settings (instances w) + tick w)%nat.
        split; [lia | split; reflexivity].
  - destruct (OrderedDict.getitem cid (instances w)) as [wr |] eqn:Hget.
    + rewrite (release_present env cid w wr Hget).
      cbn [snd advance instances tick]. split; [lia |].
      left. eexists. reflexivity.
    + rewrite release_absent by (apply getitem_None_contains, Hget).
      cbn [snd]. split; [lia |]. right. left. exists 0%nat. reflexivity.
  - rewrite snd_bind_ret.
    pose proof (cleanup_expired_run env settings w Hnd) as Hrun.
    cbv zeta in Hrun. rewrite Hrun.
    cbn [snd advance instances tick]. split; [lia |].
    left. eexists. reflexivity.
  - rewrite close_all_run. cbn [snd advance instances tick].
    split; [lia |]. right. left. exists (List.length (instances w)).
    rewrite skipn_all. reflexivity.
Qed.

Lemma incl_skipn {A} (n : nat) (l : list A) : incl (skipn n l) l.
Proof.
  intros x Hx. rewrite <- (firstn_skipn n l). apply in_or_app. right.
  exact Hx.
Qed.

Lemma run_op_well_keyed (op : pool_op) (w : World) :
  pool_ok settings w -> well_keyed (instances w) ->
  well_keyed (instances (snd (run_op env settings op w))).
Proof.
  intros [_ Hnd] Hwk. unfold well_keyed in *.
  destruct (run_op_shape op w Hnd)
    as (_ & [(p & ->) | [(n & ->) | [(cid & wr & Hin & _ & ->)
                                    | (cid & n & t & _ & _ & ->)]]]).
  - eapply incl_Forall; [apply incl_filter | exact Hwk].
  - eapply incl_Forall; [apply incl_skipn | exact Hwk].
  - apply Forall_app. split.
    + eapply incl_Forall; [apply incl_filter | exact Hwk].
    + rewrite Forall_forall in Hwk. specialize (Hwk _ Hin).
      constructor; [exact Hwk | constructor].
  - apply Forall_app. split.
    + eapply incl_Forall; [apply incl_skipn | exact Hwk].
    + constructor; [split; reflexivity | constructor].
Qed.

Lemma run_ops_well_keyed (ops : list pool_op) (w : World) :
  pool_ok settings w -> well_keyed (instances w) ->
  well_keyed (instances (run_ops env settings ops w)).
Proof.
  revert w. induction ops as [| op ops IH]; intros w Hok Hwk.
  - exact Hwk.
  - cbn. apply IH.
    + apply run_op_preserves, Hok.
    + apply run_op_well_keyed; assumption.
Qed.

Lemma empty_pool_ok (w : World) : instances w = [] -> pool_ok settings w.
Proof.
  intros E. split; rewrite E; [cbn; lia | constructor].
Qed.

(** X3. Tenant isolation. From the empty pool, after any operations, every
    entry is stored under the tenant its wrapper names and holds a backend
    built for that tenant's workspace; so the handle [get(cid)] returns -
    reused or new - is always one for the workspace of [cid]. *)
Theorem get_returns_the_tenants_own_workspace
    (ops : list pool_op) (w0 : World) (cid : string) :
  instances w0 = [] ->
  let w := run_ops env settings ops w0 in
  well_keyed (instances w)
  /\ forall r, fst (get env settings cid w) = Return r ->
       LightRAG.workspace r = workspace_name cid.
Proof.
  intros Hempty w.
  assert (Hwk : well_keyed (instances w)).
  { apply run_ops_well_keyed; [apply empty_pool_ok, Hempty |].
    rewrite Hempty. constructor. }
  split; [exact Hwk |].
  intros r Hr.
  destruct (OrderedDict.getitem cid (instances w)) as [wr |] eqn:Hget.
  - rewrite (get_hit env settings cid w wr Hget) in Hr.
    cbn [fst] in Hr. inversion Hr; subst r.
    unfold well_keyed in Hwk. rewrite Forall_forall in Hwk.
    apply (Hwk (cid, wr)). apply getitem_In, Hget.
  - apply getitem_None_contains in Hget.
    pose proof (get_miss env settings cid w Hget) as Hmiss.
    cbv zeta in Hmiss. rewrite Hmiss in Hr. clear Hmiss.
    destruct (max_rag_instances settings <=? 0); [discriminate |].
    destruct (initialize_storages env _); [discriminate |].
    cbn [fst] in Hr. inversion Hr. reflexivity.
Qed.

(** X7. [close_all] always returns and leaves the pool empty. It awaits
    [finalize_storages] on every instance once, oldest first, on the very
    handle the pool held, whether or not closing fails; it constructs
    nothing, and closing again does nothing. *)
Theorem close_all_closes_every_instance_once (w : World) :
  let run := close_all env w in
  fst run = Return tt
  /\ instances (snd run) = []
  /\ finalized (events_since w (snd run)) = OrderedDict.keys (instances w)
  /\ constructed (events_since w (snd run)) = []
  /\ (forall cid wr,
        In (cid, wr) (instances w) ->
        exists err,
          In (EvFinalize cid (rag wr) err) (events_since w (snd run)))
  /\ close_all env (snd run) = (Return tt, snd run).
Proof.
  cbv zeta. rewrite close_all_run. cbn [fst snd].
  rewrite events_since_advance. cbn [advance instances].
  split; [reflexivity |]. split; [reflexivity |].
  split; [apply finalized_close_events |].
  split; [| split].
  - generalize (tick w). induction (instances w) as [| [k v] d IH];
      intros t; cbn [close_events]; [reflexivity |].
    rewrite constructed_app, constructed_finalize_events, IH. reflexivity.
  - generalize (tick w). induction (instances w) as [| [k v] d IH];
      intros t cid wr; [intros [] |].
    intros [[= -> ->] | Hin]; cbn [close_events].
    + exists (finalize_storages env t). apply in_or_app. left. left.
      reflexivity.
    + destruct (IH (S t) cid wr Hin) as (err & Herr).
      exists err. apply in_or_app. right. exact Herr.
  - rewrite close_all_run. cbn [advance instances tick List.length].
    f_equal. unfold advance. cbn. rewrite app_nil_r. reflexivity.
Qed.

(** *** The order of the dictionary and the timestamps *)

Lemma stamped_before_mono (t t' : nat) d :
  (t <= t')%nat -> stamped_before env t d -> stamped_before env t' d.
Proof.
  intros Hle H. unfold stamped_before in *.
  eapply Forall_impl; [| exact H].
  intros kv (c & u & Hcu & Hu & Hc & Hl). exists c, u.
  repeat split; try assumption. lia.
Qed.

Lemma StronglySorted_filter {A} (R : A -> A -> Prop) (p : A -> bool) l :
  StronglySorted R l -> StronglySorted R (filter p l).
Proof.
  induction 1 as [| a l Hl IH Ha]; cbn; [constructor |].
  destruct (p a); [| exact IH].
  constructor; [exact IH |].
  eapply incl_Forall; [apply incl_filter | exact Ha].
Qed.

Lemma StronglySorted_skipn {A} (R : A -> A -> Prop) n (l : list A) :
  StronglySorted R l -> StronglySorted R (skipn n l).
Proof.
  revert l. induction n as [| n IH]; intros l H; [exact H |].
  destruct l as [| a l]; [constructor |].
  cbn. apply IH. inversion H; assumption.
Qed.

Lemma StronglySorted_snoc {A} (R : A -> A -> Prop) (l : list A) x :
  StronglySorted R l -> Forall (fun a => R a x) l ->
  StronglySorted R (l ++ [x])%list.
Proof.
  induction 1 as [| a l Hl IH Ha]; intros Hx; cbn.
  - repeat constructor.
  - inversion Hx as [| ? ? Hax Hlx]; subst.
    constructor; [apply IH, Hlx |].
    apply Forall_app. split; [exact Ha | repeat constructor; exact Hax].
Qed.

Lemma stamped_used_before (t u : nat) d x :
  monotone_clock env ->
  stamped_before env t d -> (t <= u)%nat ->
  last_used (snd x) = time_time env u ->
  Forall (fun a => used_before a x) d.
Proof.
  intros Hmono H Hle Hx. unfold stamped_before in H.
  eapply Forall_impl; [| exact H].
  intros kv (c & u' & _ & Hu' & _ & Hl). unfold used_before.
  rewrite Hl, Hx. apply Hmono. lia.
Qed.

Lemma run_op_ordered (op : pool_op) (w : World) :
  monotone_clock env ->
  NoDup (OrderedDict.keys (instances w)) ->
  stamped_before env (tick w) (instances w) ->
  StronglySorted used_before (instances w) ->
  let w' := snd (run_op env settings op w) in
  stamped_before env (tick w') (instances w')
  /\ StronglySorted used_before (instances w').
Proof.
  intros Hmono Hnd Hst Hso w'. subst w'.
  destruct (run_op_shape op w Hnd)
    as (Hle & [(p & ->) | [(n & ->) | [(cid & wr & Hin & Ht & ->)
                                      | (cid & n & t & Ht & Ht' & ->)]]]).
  - split.
    + apply (stamped_before_mono (tick w)); [exact Hle |].
      eapply incl_Forall; [apply incl_filter | exact Hst].
    + apply StronglySorted_filter, Hso.
  - split.
    + apply (stamped_before_mono (tick w)); [exact Hle |].
      eapply incl_Forall; [apply incl_skipn | exact Hst].
    + apply StronglySorted_skipn, Hso.
  - assert (Hrem : stamped_before env (tick w)
                     (OrderedDict.remove cid (instances w)))
      by (eapply incl_Forall; [apply incl_filter | exact Hst]).
    split.
    + rewrite Ht. apply Forall_app. split.
      * apply (stamped_before_mono (tick w)); [lia | exact Hrem].
      * unfold stamped_before in Hst. rewrite Forall_forall in Hst.
        destruct (Hst _ Hin) as (c & u & Hcu & Hu & Hc & _).
        constructor; [| constructor].
        exists c, (tick w). cbn [snd touch created_at last_used].
        repeat split; try assumption; lia.
    + apply StronglySorted_snoc.
      * apply StronglySorted_filter, Hso.
      * apply (stamped_used_before (tick w) (tick w)); auto.
  - assert (Hrem : stamped_before env (tick w) (skipn n (instances w)))
      by (eapply incl_Forall; [apply incl_skipn | exact Hst]).
    split.
    + rewrite Ht'. apply Forall_app. split.
      * apply (stamped_before_mono (tick w)); [lia | exact Hrem].
      * constructor; [| constructor].
        exists (1 + t)%nat, (2 + t)%nat. cbn [snd created_at last_used].
        repeat split; lia.
    + apply StronglySorted_snoc.
      * apply StronglySorted_skipn, Hso.
      * apply (stamped_used_before (tick w) (2 + t)); auto. lia.
Qed.

Lemma run_ops_ordered (ops : list pool_op) (w : World) :
  monotone_clock env ->
  pool_ok settings w ->
  stamped_before env (tick w) (instances w) ->
  StronglySorted used_before (instances w) ->
  let w' := run_ops env settings ops w in
  stamped_before env (tick w') (instances w')
  /\ StronglySorted used_before (instances w').
Proof.
  intros Hmono. revert w.
  induction ops as [| op ops IH]; intros w Hok Hst Hso; [split; assumption |].
  cbn. destruct (run_op_ordered op w Hmono (proj2 Hok) Hst Hso) as [H1 H2].
  apply IH; [apply run_op_preserves, Hok | exact H1 | exact H2].
Qed.

(** In a dictionary ordered by last use, the expired entries are the
    oldest ones. *)
Lemma expired_is_a_prefix (now : Z) d :
  StronglySorted used_before d ->
  let n := List.length (filter (expired settings now) d) in
  filter (expired settings now) d = firstn n d
  /\ filter (fun kv => negb (expired settings now kv)) d = skipn n d.
Proof.
  induction 1 as [| a l Hl IH Ha]; cbn zeta; [split; reflexivity |].
  cbn [filter]. destruct (expired settings now a) eqn:Ha'; cbn [negb].
  - cbn [List.length firstn skipn]. destruct IH as [IH1 IH2].
    split; [f_equal; exact IH1 | exact IH2].
  - assert (Hnone : forall kv, In kv l -> expired settings now kv = false).
    { rewrite Forall_forall in Ha. intros kv Hin. specialize (Ha kv Hin).
      unfold used_before in Ha. unfold expired in *.
      apply Z.ltb_ge in Ha'. apply Z.ltb_ge. lia. }
    assert (E : filter (expired settings now) l = []).
    { clear - Hnone. induction l as [| b l IH]; [reflexivity |].
      cbn. rewrite (Hnone b) by (left; reflexivity).
      apply IH. intros kv Hin. apply Hnone. right. exact Hin. }
    rewrite E. cbn [List.length firstn skipn]. split; [reflexivity |].
    f_equal. apply forallb_filter_id. apply forallb_forall.
    intros kv Hin. rewrite (Hnone kv Hin). reflexivity.
Qed.

(** X5. When the clock never goes back, the order of the dictionary is the
    order of last use: from the empty pool, after any operations, the
    entries are sorted by [last_used], oldest first, and none was used
    before it was created. The head that [get] evicts is then the entry
    with the smallest [last_used], and [cleanup_expired] closes and removes
    a prefix of the dictionary - the [n] oldest entries, for the [n] it
    returns. *)
Theorem lru_order_is_the_order_of_last_use
    (ops : list pool_op) (w0 : World) :
  monotone_clock env ->
  instances w0 = [] ->
  let w := run_ops env settings ops w0 in
  StronglySorted used_before (instances w)
  /\ Forall (fun kv => created_at (snd kv) <= last_used (snd kv))
       (instances w)
  /\ (let run := cleanup_expired env settings w in
      exists n : nat,
        fst run = Return (Z.of_nat n)
        /\ instances (snd run) = skipn n (instances w)
        /\ finalized (events_since w (snd run))
           = firstn n (OrderedDict.keys (instances w))).
Proof.
  intros Hmono Hempty w.
  assert (Hok : pool_ok settings w)
    by (apply run_ops_preserves, empty_pool_ok, Hempty).
  destruct (run_ops_ordered ops w0 Hmono (empty_pool_ok w0 Hempty))
    as [Hst Hso]; [rewrite Hempty; constructor .. |].
  fold w in Hst, Hso.
  split; [exact Hso |]. split.
  - unfold stamped_before in Hst. eapply Forall_impl; [| exact Hst].
    intros kv (c & u & Hcu & _ & -> & ->). apply Hmono, Hcu.
  - cbv zeta.
    pose proof (cleanup_expired_run env settings w (proj2 Hok)) as Hrun.
    cbv zeta in Hrun. rewrite Hrun. clear Hrun. cbn [fst snd].
    rewrite events_since_advance. cbn [advance instances].
    destruct (expired_is_a_prefix (time_time env (tick w)) (instances w) Hso)
      as [E1 E2].
    eexists. split; [reflexivity |]. split; [exact E2 |].
    rewrite finalized_close_events. rewrite E1 at 1.
    unfold OrderedDict.keys. symmetry. apply firstn_map.
Qed.
End PoolMore.

(** X2 on a backend where everything succeeds: the second [get] of a
    tenant returns the handle the first one built. *)
Lemma get_again_returns_the_same_handle_witness :
  let w' := snd (LightRAGPool.get Doubles.healthy default_settings "t1"
                   Doubles.idle) in
  let again := LightRAGPool.get Doubles.healthy default_settings "t1" w' in
  fst again = Return (LightRAG.mk "ws_t1" 0)
  /\ events_since w' (snd again) = [EvPoolGet "t1"]
  /\ OrderedDict.keys (instances (snd again)) = ["t1"].
Proof.
  intros w' again.
  destruct (get_again_returns_the_same_handle Doubles.healthy
              default_settings "t1" Doubles.idle w'
              (LightRAG.mk "ws_t1" 0) eq_refl) as (H1 & H2 & H3 & _).
  split; [exact H1 | split; [exact H2 | exact H3]].
Defined.

(** X3 at work: after tenants came and went, [get] hands out a handle for
    the workspace of the tenant that asks. *)
Lemma get_returns_the_tenants_own_workspace_witness :
  let w := run_ops Doubles.healthy (mkSettings 5 2 300)
             [Get "a-1"; Get "b-2"; Release "a-1"; Get "c-3"]
             Doubles.idle in
  well_keyed (instances w)
  /\ forall r,
       fst (LightRAGPool.get Doubles.healthy (mkSettings 5 2 300) "b-2" w)
       = Return r ->
       LightRAG.workspace r = "ws_b_2".
Proof.
  exact (get_returns_the_tenants_own_workspace Doubles.healthy
           (mkSettings 5 2 300)
           [Get "a-1"; Get "b-2"; Release "a-1"; Get "c-3"]
           Doubles.idle "b-2" eq_refl).
Defined.

(** X5 with a clock that reads the call index. *)
Lemma lru_order_is_the_order_of_last_use_witness :
  let w := run_ops Doubles.healthy (mkSettings 5 2 300)
             [Get "A"; Get "B"; Get "A"; Get "C"] Doubles.idle in
  StronglySorted used_before (instances w)
  /\ Forall (fun kv => LightRAGWrapper.created_at (snd kv)
                       <= LightRAGWrapper.last_used (snd kv))
       (instances w)
  /\ (let run := LightRAGPool.cleanup_expired Doubles.healthy
                   (mkSettings 5 2 300) w in
      exists n : nat,
        fst run = Return (Z.of_nat n)
        /\ instances (snd run) = skipn n (instances w)
        /\ finalized (events_since w (snd run))
           = firstn n (OrderedDict.keys (instances w))).
Proof.
  apply (lru_order_is_the_order_of_last_use Doubles.healthy
           (mkSettings 5 2 300)
           [Get "A"; Get "B"; Get "A"; Get "C"] Doubles.idle).
  - intros t t' H. cbn. lia.
  - reflexivity.
Defined.

(** X6 with a clock that reads the call index and a TTL of 300: the
    tenant is still there after the clean-up, and is handed out again. *)
Lemma tenant_just_used_outlives_the_ttl_only_witness :
  let w' := snd (LightRAGPool.get Doubles.healthy default_settings "t1"
                   Doubles.idle) in
  let run := LightRAGPool.cleanup_expired Doubles.healthy default_settings
               w' in
  OrderedDict.contains "t1" (instances (snd run)) = true
  /\ fst (LightRAGPool.get Doubles.healthy default_settings "t1" (snd run))
     = Return (LightRAG.mk "ws_t1" 0).
Proof.
  intros w' run.
  destruct (tenant_just_used_outlives_the_ttl_only Doubles.healthy
              default_settings "t1" Doubles.idle w'
              (LightRAG.mk "ws_t1" 0) (NoDup_nil _) eq_refl) as [H1 H2].
  split; [exact H1 | apply H2; vm_compute; discriminate].
Defined.

(** ** The workspace of a tenant *)

Lemma replace_char_no_hyphen (s : string) :
  has_char "-" (LightRAGPool.replace_char "-" "_" s) = false.
Proof.
  induction s as [| c s IH]; [reflexivity |].
  cbn [LightRAGPool.replace_char has_char]. rewrite IH, orb_false_r.
  destruct (Ascii.eqb_spec c "-"%char) as [-> | Hc]; [reflexivity |].
  apply Ascii.eqb_neq. exact Hc.
Qed.

Lemma replace_char_injective (s1 s2 : string) :
  has_char "_" s1 = false -> has_char "_" s2 = false ->
  LightRAGPool.replace_char "-" "_" s1 = LightRAGPool.replace_char "-" "_" s2 ->
  s1 = s2.
Proof.
  revert s2. induction s1 as [| c1 s1 IH]; intros [| c2 s2];
    cbn [LightRAGPool.replace_char has_char]; try discriminate;
    [reflexivity |].
  intros H1 H2 E.
  apply orb_false_iff in H1 as [Hc1 H1].
  apply orb_false_iff in H2 as [Hc2 H2].
  injection E as Ec Es. f_equal; [| apply IH; assumption].
  apply Ascii.eqb_neq in Hc1, Hc2.
  destruct (Ascii.eqb_spec c1 "-"%char) as [-> | N1];
    destruct (Ascii.eqb_spec c2 "-"%char) as [-> | N2]; congruence.
Qed.

(** X4. Tenants whose ids hold no underscore - UUIDs, as the pool expects -
    never share a workspace: the workspace name determines the id. *)
Theorem workspace_name_separates_tenants (cid1 cid2 : string) :
  has_char "_" cid1 = false ->
  has_char "_" cid2 = false ->
  workspace_name cid1 = workspace_name cid2 ->
  cid1 = cid2.
Proof.
  intros H1 H2 E. unfold workspace_name in E. cbn in E.
  injection E as E. apply replace_char_injective; assumption.
Qed.

Lemma workspace_name_separates_tenants_witness :
  has_char "_" "0a1b-2c3d" = false
  /\ workspace_name "0a1b-2c3d" = "ws_0a1b_2c3d"
  /\ "0a1b-2c3d" = "0a1b-2c3d".
Proof.
  split; [reflexivity |]. split; [reflexivity |].
  apply (workspace_name_separates_tenants "0a1b-2c3d" "0a1b-2c3d");
    reflexivity.
Defined.

(** X8. A workspace name holds no hyphen, and the id is not recovered from
    it in general: an id with a hyphen shares its workspace with another
    id, the one that has underscores in their place. The pool keeps the
    two tenants under two keys, on the same workspace of the backend. *)
Theorem hyphenated_id_shares_its_workspace (cid : string) :
  has_char "-" cid = true ->
  has_char "-" (workspace_name cid) = false
  /\ exists cid',
       cid' <> cid /\ workspace_name cid' = workspace_name cid.
Proof.
  intros Hh. split.
  - unfold workspace_name. cbn. apply replace_char_no_hyphen.
  - exists (LightRAGPool.replace_char "-" "_" cid). split.
    + intros E. pose proof (replace_char_no_hyphen cid) as N.
      rewrite E in N. congruence.
    + unfold workspace_name. f_equal.
      clear Hh. induction cid as [| c s IH]; [reflexivity |].
      cbn [LightRAGPool.replace_char]. rewrite IH. f_equal.
      destruct (Ascii.eqb_spec c "-"%char) as [-> | Hc]; [reflexivity |].
      apply Ascii.eqb_neq in Hc. rewrite Hc. reflexivity.
Qed.

Lemma hyphenated_id_shares_its_workspace_witness :
  has_char "-" (workspace_name "a-b") = false
  /\ exists cid', cid' <> "a-b" /\ workspace_name cid' = workspace_name "a-b".
Proof.
  apply (hyphenated_id_shares_its_workspace "a-b"). reflexivity.
Defined.

(** * More of the pipeline *)

Lemma writes_app (a b : list Event) :
  writes (a ++ b)%list = (writes a ++ writes b)%list.
Proof.
  induction a as [| e a IH]; [reflexivity |].
  destruct e; cbn; rewrite ?IH; reflexivity.
Qed.

Lemma writes_none (evs : list Event) :
  (forall r d t err, ~ In (EvInsert r d t err) evs) -> writes evs = [].
Proof.
  induction evs as [| e evs IH]; [reflexivity |].
  intros H. destruct e as [| | | r0 d0 t0 err0 | | | |]; cbn;
    try (apply IH; intros ? ? ? ? Hin; eapply H; right; exact Hin).
  destruct (H r0 d0 t0 err0). left. reflexivity.
Qed.

Section PipelineMore.
Variable lib : Library.
Variable env : Env.
Variable settings : Settings.
Import DocumentProcessor.

Lemma process_except_account job start e (w wk : World) evsk :
  account w wk evsk 0 0 ->
  exists r w' ev,
    process_except env job start e wk = (Return r, w')
    /\ account w w' (evsk ++ [ev]) 0 1
    /\ is_log ev = true
    /\ instances w' = instances wk
    /\ ProcessingResult.success r = false.
Proof.
  intros [T S P F]. destruct wk. cbn in T, S, P, F. do 3 eexists.
  split.
  { unfold process_except, LightRAGPool.time, bind, next_call,
      incr_jobs_failed, emit, ret. cbn. reflexivity. }
  split.
  { constructor; cbn; [rewrite T, app_assoc; reflexivity | assumption | lia
                       | lia]. }
  repeat split.
Qed.

(** One run of [_process_internal], by the books. *)
Lemma _process_internal_account job (w : World) :
  exists r w' evs,
    _process_internal lib env settings job w = (Return r, w')
    /\ account w w' evs
         (if ProcessingResult.success r then 1 else 0)
         (if ProcessingResult.success r then 0 else 1)
    /\ match writes evs with
       | [] => ProcessingResult.success r = false
       | [(rag, doc_id, text, err)] =>
           doc_id = IndexingJobMessage.url job
           /\ fst (_extract_text lib job w) = Return text
           /\ text <> ""
           /\ ProcessingResult.success r
              = match err with None => true | Some _ => false end
           /\ exists wr,
                OrderedDict.getitem (IndexingJobMessage.collection_id job)
                  (instances w') = Some wr
                /\ LightRAGWrapper.rag wr = rag
       | _ => False
       end.
Proof.
  destruct (_extract_text_run lib job) as (oe & evse & Hext & Hoe & Hlogs).
  pose proof (Hext w) as Hw. apply (f_equal fst) in Hw. cbn [fst] in Hw.
  unfold _process_internal. unfold bind at 1. unfold LightRAGPool.time at 1.
  unfold bind at 1. unfold next_call at 1. unfold ret at 1.
  set (start := time_time env (tick w)).
  set (w1 := mkWorld _ _ _ _ _ _ _ _).
  assert (Hacc1 : account w (logged w1 evse) evse 0 0).
  { subst w1. constructor; cbn; try reflexivity; lia. }
  assert (Hwe : writes evse = []).
  { apply writes_none. intros r d t err Hin.
    exact (logs_no_insert _ _ _ _ _ Hlogs Hin). }
  unfold try_except, process_try. unfold bind at 1. rewrite Hext.
  destruct oe as [text | e |]; [| | congruence].
  2: { destruct (process_except_account job start e w _ evse Hacc1)
         as (r & w' & ev & Hrun & Hacc & Hev & _ & Hfail).
       exists r, w', (evse ++ [ev])%list. rewrite Hfail.
       split; [exact Hrun |]. split; [exact Hacc |].
       rewrite writes_app, Hwe. destruct ev; try discriminate. reflexivity. }
  destruct (is_empty text) eqn:Hempty.
  { unfold raise.
    destruct (process_except_account job start
                (mkExn ValueError "No text content extracted from document")
                w _ evse Hacc1)
      as (r & w' & ev & Hrun & Hacc & Hev & _ & Hfail).
    exists r, w', (evse ++ [ev])%list. rewrite Hfail.
    split; [exact Hrun |]. split; [exact Hacc |].
    rewrite writes_app, Hwe. destruct ev; try discriminate. reflexivity. }
  apply is_empty_false in Hempty.
  destruct (get_summary env settings (IndexingJobMessage.collection_id job)
              (logged w1 evse))
    as (og & n & evsg & d' & Hget & Hog & _ & _ & Hgins & _).
  unfold bind at 1. rewrite Hget.
  set (w3 := advance (logged w1 evse) n evsg d') in *.
  assert (Hacc3 : account w w3 (evse ++ evsg) 0 0).
  { destruct Hacc1 as [T S P F]. subst w3.
    constructor; cbn [advance trace _semaphore _jobs_processed _jobs_failed];
      try assumption.
    rewrite T, app_assoc. reflexivity. }
  assert (Hwg : writes (evse ++ evsg) = []).
  { rewrite writes_app, Hwe. apply writes_none. exact Hgins. }
  destruct og as [rag | e |]; [| | congruence].
  2: { destruct (process_except_account job start e w _ _ Hacc3)
         as (r & w' & ev & Hrun & Hacc & Hev & _ & Hfail).
       exists r, w', ((evse ++ evsg) ++ [ev])%list. rewrite Hfail.
       split; [exact Hrun |]. split; [exact Hacc |].
       rewrite writes_app, Hwg. destruct ev; try discriminate. reflexivity. }
  destruct (get_returned env settings _ _ _ _ Hget)
    as (rest & wr & Hinst & Habs & Hrag & _ & _).
  assert (Hheld : OrderedDict.getitem (IndexingJobMessage.collection_id job)
                    (instances w3) = Some wr)
    by (rewrite Hinst; apply getitem_app_absent, Habs).
  unfold bind at 1. unfold rag_ainsert. unfold bind at 1.
  unfold next_call at 1. unfold bind at 1. unfold emit at 1.
  cbn [tick trace instances _semaphore _jobs_processed _jobs_failed
       _running consumer].
  set (write := EvInsert rag (IndexingJobMessage.url job) text
                  (ainsert env (tick w3))).
  set (w4 := mkWorld _ _ _ _ _ _ _ _).
  assert (Hacc4 : account w w4 ((evse ++ evsg) ++ [write]) 0 0).
  { destruct Hacc3 as [T S P F]. subst w4.
    constructor; cbn [trace _semaphore _jobs_processed _jobs_failed];
      try assumption.
    rewrite T, <- app_assoc. reflexivity. }
  assert (Hw4 : writes ((evse ++ evsg) ++ [write])
                = [(rag, IndexingJobMessage.url job, text,
                    ainsert env (tick w3))]).
  { rewrite writes_app, Hwg. reflexivity. }
  destruct (ainsert env (tick w3)) as [e |] eqn:Hwrite.
  { unfold raise.
    destruct (process_except_account job start e w _ _ Hacc4)
      as (r & w' & ev & Hrun & Hacc & Hev & Hi & Hfail).
    exists r, w', (((evse ++ evsg) ++ [write]) ++ [ev])%list. rewrite Hfail.
    split; [exact Hrun |]. split; [exact Hacc |].
    rewrite writes_app, Hw4.
    assert (writes [ev] = []) as -> by (destruct ev; try discriminate;
                                        reflexivity).
    cbn [app]. repeat split; try assumption.
    exists wr. rewrite Hi. split; [exact Hheld | exact Hrag]. }
  unfold ret at 1. unfold bind at 1. unfold LightRAGPool.time, bind,
    next_call, ret, incr_jobs_processed.
  cbn [tick trace instances _semaphore _jobs_processed _jobs_failed
       _running consumer].
  do 3 eexists. split; [reflexivity |].
  cbn [ProcessingResult.success].
  split.
  - destruct Hacc4 as [T S P F]. subst w4.
    cbn [trace _semaphore _jobs_processed _jobs_failed] in *.
    constructor; cbn [trace _semaphore _jobs_processed _jobs_failed];
      [exact T | exact S | lia | lia].
  - rewrite Hw4. repeat split; try assumption.
    exists wr. split; [exact Hheld | exact Hrag].
Qed.

Lemma events_since_account (w w' : World) evs done failed :
  account w w' evs done failed -> events_since w w' = evs.
Proof.
  intros [T _ _ _]. unfold events_since. rewrite T.
  apply events_since_app_raw.
Qed.

(** With a free slot, [process] keeps the same books and gives the slot
    back. *)
Lemma process_account job (w : World) :
  0 < _semaphore w ->
  exists r w' evs,
    process lib env settings job w = (Return r, w')
    /\ account w w' evs
         (if ProcessingResult.success r then 1 else 0)
         (if ProcessingResult.success r then 0 else 1)
    /\ match writes evs with
       | [] => ProcessingResult.success r = false
       | [(rag, doc_id, text, err)] =>
           doc_id = IndexingJobMessage.url job
           /\ fst (_extract_text lib job w) = Return text
           /\ text <> ""
           /\ ProcessingResult.success r
              = match err with None => true | Some _ => false end
           /\ exists wr,
                OrderedDict.getitem (IndexingJobMessage.collection_id job)
                  (instances w') = Some wr
                /\ LightRAGWrapper.rag wr = rag
       | _ => False
       end.
Proof.
  intros Hslot. apply Z.ltb_lt in Hslot.
  unfold process, bind, semaphore_acquire. rewrite Hslot.
  set (wa := set_semaphore (_semaphore w - 1) w).
  destruct (_process_internal_account job wa)
    as (r & wb & evs & Hrun & [T S P F] & Hwrites).
  unfold try_finally. rewrite Hrun. unfold semaphore_release.
  exists r, (set_semaphore (_semaphore wb + 1) wb), evs.
  split; [reflexivity |]. split.
  - subst wa. cbn in T, S, P, F.
    constructor; cbn; try assumption. lia.
  - rewrite (_extract_text_outcome lib job wa w) in Hwrites.
    exact Hwrites.
Qed.

(** X9. The processor's statistics count every job once. A call of
    [process] that gets a slot returns a result; it adds one to
    [jobs_processed] when the result says success and one to [jobs_failed]
    when it says failure, never both; and [active_workers] afterwards is
    what it was before. *)
Theorem process_counts_every_job_once
    (job : IndexingJobMessage.t) (w : World) :
  0 < _semaphore w ->
  let run := process lib env settings job w in
  exists r,
    fst run = Return r
    /\ _jobs_processed (snd run)
       = _jobs_processed w + (if ProcessingResult.success r then 1 else 0)
    /\ _jobs_failed (snd run)
       = _jobs_failed w + (if ProcessingResult.success r then 0 else 1)
    /\ _jobs_processed (snd run) + _jobs_failed (snd run)
       = _jobs_processed w + _jobs_failed w + 1
    /\ active_workers settings (snd run) = active_workers settings w.
Proof.
  intros Hslot run. subst run.
  destruct (process_account job w Hslot)
    as (r & w' & evs & Hrun & [T S P F] & _).
  rewrite Hrun. cbn [fst snd]. exists r.
  split; [reflexivity |]. split; [exact P |]. split; [exact F |].
  split.
  - rewrite P, F. destruct (ProcessingResult.success r); lia.
  - unfold active_workers. rewrite S. reflexivity.
Qed.


(** X18. Html that yields no text fails the job before the pool. For a job
    without pre-extracted text whose html decodes to [h]: when [h] is
    empty, or the parser fails on it, or nothing readable is left of it,
    [clean_html_to_text] gives the empty string - a parser failure is
    logged and swallowed there - and the job ends as a failure with the
    message "No text content extracted from document", not with the
    parser's error; the pool is not asked and stays as it was. *)
Theorem html_without_text_fails_the_job
    (job : IndexingJobMessage.t) (c : PageContent.t) (h : string)
    (w : World) :
  0 < _semaphore w ->
  IndexingJobMessage.content job = Some c ->
  PageContent.text c = "" ->
  PageContent.html c <> "" ->
  fst (html_cleaner.decompress_html lib (PageContent.html c)
         (PageContent.encoding c) w) = Return h ->
  h = "" \/ (exists e, soup_text lib h = inl e) \/ soup_text lib h = inr "" ->
  let run := process lib env settings job w in
  fst (html_cleaner.clean_html_to_text lib h w) = Return ""
  /\ (forall e, h <> "" -> soup_text lib h = inl e ->
        events_since w (snd (html_cleaner.clean_html_to_text lib h w))
        = [EvLog ERROR ("Failed to clean HTML: " ++ str e)])
  /\ exists r,
       fst run = Return r
       /\ ProcessingResult.success r = false
       /\ ProcessingResult.error_message r
          = Some "No text content extracted from document"
       /\ no_pool_get (events_since w (snd run))
       /\ writes (events_since w (snd run)) = []
       /\ instances (snd run) = instances w.
Proof.
  intros Hslot Hc Ht Hh Hdec Hbad run. subst run.
  assert (Hclean : forall w0,
            fst (html_cleaner.clean_html_to_text lib h w0) = Return "").
  { intros w0. unfold html_cleaner.clean_html_to_text.
    destruct (is_empty h) eqn:He; [reflexivity |].
    apply is_empty_false in He. unfold try_except, lift.
    destruct Hbad as [-> | [(e & ->) | ->]]; [congruence | |]; reflexivity. }
  assert (Hext : fst (_extract_text lib job w) = Return "").
  { unfold _extract_text. rewrite Hc, Ht. cbn [is_empty negb].
    apply is_empty_false in Hh. rewrite Hh. cbn [negb].
    destruct (decompress_html_run lib (PageContent.html c)
                (PageContent.encoding c)) as (o & evs & Hrun & _).
    rewrite Hrun in Hdec. cbn [fst] in Hdec. subst o.
    unfold bind at 1. rewrite Hrun.
    specialize (Hclean (logged w evs)).
    unfold bind.
    destruct (html_cleaner.clean_html_to_text lib h (logged w evs))
      as [[t | e |] w1]; cbn [fst] in Hclean; try discriminate.
    injection Hclean as ->. reflexivity. }
  split; [apply Hclean |]. split.
  { intros e Hne He. apply is_empty_false in Hne.
    unfold html_cleaner.clean_html_to_text, try_except, lift.
    rewrite Hne, He. unfold raise, bind, emit, ret. cbn [snd].
    unfold events_since. cbn [trace]. apply events_since_app_raw. }
  destruct (process_run lib env settings job w Hslot)
    as (r & w' & evs & Hrun & Hp).
  destruct (process_account job w Hslot)
    as (r' & w'' & evs' & Hrun' & Hacc & Hwrites).
  rewrite Hrun in Hrun'. injection Hrun' as <- <-.
  rewrite Hrun. cbn [fst snd]. exists r.
  destruct Hp as [Hstep _ _ _ _ _ Hnone _ _].
  destruct (Hnone Hext) as (Hfail & Hmsg & Hnp & Hinst).
  pose proof (events_since_account _ _ _ _ _ Hacc) as E.
  rewrite (events_since_step w w' evs Hstep) in E. subst evs'.
  rewrite (events_since_step w w' evs Hstep).
  repeat (split; [assumption || reflexivity |]).
  split; [| exact Hinst].
  destruct (writes evs) as [| [[[rag d] t] err] [| ? ?]];
    [reflexivity | | destruct Hwrites].
  destruct Hwrites as (_ & Ht' & Hne & _). congruence.
Qed.
End PipelineMore.

(** X9 at work: one job with text on a healthy backend, one processed. *)
Lemma process_counts_every_job_once_witness :
  let run := DocumentProcessor.process Doubles.library Doubles.healthy
               default_settings (Examples.job (Some Examples.hello))
               Doubles.idle in
  exists r,
    fst run = Return r
    /\ _jobs_processed (snd run)
       = _jobs_processed Doubles.idle
         + (if ProcessingResult.success r then 1 else 0)
    /\ _jobs_failed (snd run)
       = _jobs_failed Doubles.idle
         + (if ProcessingResult.success r then 0 else 1)
    /\ _jobs_processed (snd run) + _jobs_failed (snd run)
       = _jobs_processed Doubles.idle + _jobs_failed Doubles.idle + 1
    /\ DocumentProcessor.active_workers default_settings (snd run)
       = DocumentProcessor.active_workers default_settings Doubles.idle.
Proof.
  apply (process_counts_every_job_once Doubles.library Doubles.healthy
           default_settings (Examples.job (Some Examples.hello))
           Doubles.idle).
  reflexivity.
Defined.


(** * More of the loop *)

Lemma dispatched_app (a b : list Event) :
  dispatched (a ++ b)%list = (dispatched a ++ dispatched b)%list.
Proof.
  induction a as [| e a IH]; [reflexivity |].
  destruct e; cbn; rewrite ?IH; reflexivity.
Qed.

Lemma commits_app (a b : list Event) :
  commits (a ++ b)%list = (commits a ++ commits b)%list.
Proof.
  induction a as [| e a IH]; [reflexivity |].
  destruct e; cbn; rewrite ?IH; reflexivity.
Qed.

Lemma backend_events_no_commit (evs : list Event) :
  Forall (fun e => is_loop_event e = false) evs ->
  commits evs = [] /\ dispatched evs = [].
Proof.
  induction 1 as [| e evs He _ [IH1 IH2]]; [split; reflexivity |].
  destruct e; try discriminate; cbn; auto.
Qed.

Section LoopMore.
Variable lib : Library.
Variable env : Env.
Variable settings : Settings.
Import IndexingJobConsumer.

(** One record, with a slot of the pipeline free: the turn always ends,
    the record is committed when it constructs a message and only then. *)
Lemma handle_message_turn (m : ConsumerRecord) (w : World) :
  0 < _semaphore w ->
  exists w' evs,
    RAGAgent.handle_message lib env settings m w = (Return tt, w')
    /\ turn w w' evs
    /\ commits evs = (if constructs lib m then [position m] else [])
    /\ dispatched evs = job_ids lib [m].
Proof.
  intros Hslot. unfold constructs, job_ids, RAGAgent.handle_message.
  cbn [flat_map]. rewrite app_nil_r.
  destruct (messages.IndexingJobMessage_init lib (value m))
    as [e | job] eqn:Hparse.
  { rewrite (handle_message_unparsed lib env _ m e w Hparse).
    do 2 eexists. split; [reflexivity |].
    split; [constructor; reflexivity | split; reflexivity]. }
  set (wd := logged w [EvDispatch (IndexingJobMessage.job_id job)]).
  destruct (process_run lib env settings job wd Hslot)
    as (r & wp & evs & Hrun & Hp).
  rewrite (handle_message_returned lib env _ m job r w wp Hparse Hrun).
  destruct Hp as [(T & S & R & C) Hloop _ _ _ _ _ _ _].
  destruct (backend_events_no_commit evs Hloop) as [Hc Hd].
  exists (advance wp 1
            (after_handler env m (IndexingJobMessage.job_id job)
               (ProcessingResult.success r) (tick wp))
            (instances wp)),
         ([EvDispatch (IndexingJobMessage.job_id job)] ++ evs
          ++ after_handler env m (IndexingJobMessage.job_id job)
               (ProcessingResult.success r) (tick wp))%list.
  split; [reflexivity |]. split; [| split].
  - constructor; cbn [advance trace _semaphore _running consumer];
      try assumption.
    rewrite T. subst wd. unfold logged, advance. cbn [trace].
    rewrite <- !app_assoc. reflexivity.
  - rewrite !commits_app, Hc. unfold after_handler.
    destruct (commit_failure env (tick wp)); reflexivity.
  - rewrite !dispatched_app, Hd. unfold after_handler.
    destruct (commit_failure env (tick wp)); reflexivity.
Qed.

Lemma turn_refl (w : World) : turn w w [].
Proof. constructor; try reflexivity. rewrite app_nil_r. reflexivity. Qed.

Lemma turn_trans (w w1 w2 : World) evs1 evs2 :
  turn w w1 evs1 -> turn w1 w2 evs2 -> turn w w2 (evs1 ++ evs2).
Proof.
  intros [T1 S1 R1 C1] [T2 S2 R2 C2].
  constructor; try congruence. rewrite T2, T1, app_assoc. reflexivity.
Qed.

Lemma events_since_turn (w w' : World) evs :
  turn w w' evs -> events_since w w' = evs.
Proof.
  intros [T _ _ _]. unfold events_since. rewrite T.
  apply events_since_app_raw.
Qed.

(** The records delivered while the consumer runs are handled one after
    the other; the loop then goes on with what follows them. *)
Lemma consume_loop_records (ms : list ConsumerRecord) :
  forall (w : World),
  0 < _semaphore w -> _running w = true ->
  exists w' evs,
    (forall tail : list delivery,
       consume_loop lib env (DocumentProcessor.process lib env settings)
         (map Message ms ++ tail)%list w
       = consume_loop lib env (DocumentProcessor.process lib env settings)
           tail w')
    /\ turn w w' evs
    /\ commits evs = map position (filter (constructs lib) ms)
    /\ dispatched evs = job_ids lib ms.
Proof.
  induction ms as [| m ms IH]; intros w Hslot Hrun.
  - exists w, []. split; [reflexivity |].
    split; [apply turn_refl | split; reflexivity].
  - destruct (handle_message_turn m w Hslot)
      as (w1 & evs1 & Hm & Ht1 & Hc1 & Hd1).
    unfold RAGAgent.handle_message in Hm.
    destruct (IH w1) as (w2 & evs2 & Hloop & Ht2 & Hc2 & Hd2).
    { rewrite (turn_semaphore _ _ _ Ht1). exact Hslot. }
    { rewrite (turn_running _ _ _ Ht1). exact Hrun. }
    exists w2, (evs1 ++ evs2)%list. split.
    { intros tail. cbn [map app consume_loop]. rewrite Hrun. cbn [negb].
      unfold bind at 1. rewrite Hm. apply Hloop. }
    split; [eapply turn_trans; eassumption |].
    split.
    + rewrite commits_app, Hc1, Hc2. cbn [filter].
      destruct (constructs lib m); reflexivity.
    + rewrite dispatched_app, Hd1, Hd2. unfold job_ids. cbn [flat_map].
      rewrite app_nil_r. reflexivity.
Qed.

(** Once [_running] is false the loop handles nothing more. *)
Lemma consume_loop_stopped (stream : list delivery) : forall (w : World),
  _running w = false ->
  exists o w',
    consume_loop lib env (DocumentProcessor.process lib env settings)
      stream w = (o, w')
    /\ trace w' = trace w
    /\ instances w' = instances w
    /\ _running w' = false
    /\ (o = Return tt \/ exists e, o = Raise e /\ In (IteratorError e) stream).
Proof.
  induction stream as [| item stream IH]; intros w Hstop.
  - exists (Return tt), w. cbn. auto 10.
  - destruct item as [m | e |]; cbn [consume_loop].
    + rewrite Hstop. cbn [negb]. exists (Return tt), w. auto 10.
    + exists (Raise e), w. unfold raise.
      repeat split; try assumption. right. exists e.
      split; [reflexivity | left; reflexivity].
    + unfold bind, set_running.
      match goal with |- context [consume_loop _ _ _ stream ?w0] =>
        destruct (IH w0 eq_refl) as (o & w' & Hrun & T & I & R & Ho) end.
      exists o, w'. split; [exact Hrun |].
      repeat split; try assumption.
      destruct Ho as [-> | (e & -> & Hin)]; [left; reflexivity |].
      right. exists e. split; [reflexivity | right; exact Hin].
Qed.

(** X11. No record stops the loop. Given records only, a started and
    running consumer with a slot of the pipeline free handles every one of
    them and returns: whatever the records hold and whatever the backend
    and Kafka answer - failed jobs and failed commits included - [consume]
    does not raise. It awaits the handler for the records that construct a
    message, in order, and [commit] once after each of them, and never for
    the others. *)
Theorem consume_handles_every_record
    (ms : list ConsumerRecord) (w : World) :
  consumer w = true ->
  _running w = true ->
  0 < _semaphore w ->
  let run := RAGAgent.consume lib env settings (map Message ms) w in
  fst run = Return tt
  /\ commits (events_since w (snd run))
     = map position (filter (constructs lib) ms)
  /\ dispatched (events_since w (snd run)) = job_ids lib ms
  /\ _semaphore (snd run) = _semaphore w
  /\ _running (snd run) = true.
Proof.
  intros Hstarted Hrun Hslot run. subst run.
  unfold RAGAgent.consume, consume. rewrite Hstarted. cbn [negb].
  destruct (consume_loop_records ms w Hslot Hrun)
    as (w' & evs & Hloop & Ht & Hc & Hd).
  specialize (Hloop []). rewrite app_nil_r in Hloop.
  unfold try_except. rewrite Hloop.
  cbn [consume_loop ret fst snd].
  rewrite (events_since_turn _ _ _ Ht).
  split; [reflexivity |]. split; [exact Hc |]. split; [exact Hd |].
  split; [apply Ht | rewrite (turn_running _ _ _ Ht); exact Hrun].
Qed.

(** X12. What the iterator raises ends the loop and leaves [consume]: the
    records delivered before it were handled and committed as usual,
    nothing delivered after it is touched, and a [KafkaError] is logged on
    its way out - the last event of the run. *)
Theorem consume_reraises_what_the_iterator_raises
    (ms : list ConsumerRecord) (e : exn) (rest : list delivery) (w : World) :
  consumer w = true ->
  _running w = true ->
  0 < _semaphore w ->
  let run := RAGAgent.consume lib env settings
               (map Message ms ++ IteratorError e :: rest)%list w in
  fst run = Raise e
  /\ commits (events_since w (snd run))
     = map position (filter (constructs lib) ms)
  /\ dispatched (events_since w (snd run)) = job_ids lib ms
  /\ events_since w (snd run)
     = (events_since w
          (snd (RAGAgent.consume lib env settings (map Message ms) w))
        ++ if is_KafkaError e
           then [EvLog ERROR ("Kafka error: " ++ str e)] else [])%list.
Proof.
  intros Hstarted Hrun Hslot run. subst run.
  unfold RAGAgent.consume, consume. rewrite Hstarted. cbn [negb].
  destruct (consume_loop_records ms w Hslot Hrun)
    as (w' & evs & Hloop & Ht & Hc & Hd).
  pose proof (Hloop []) as Hloop0. rewrite app_nil_r in Hloop0.
  unfold try_except. rewrite Hloop, Hloop0.
  cbn [consume_loop ret raise fst snd].
  rewrite (events_since_turn _ _ _ Ht).
  pose proof (turn_trace _ _ _ Ht) as T.
  destruct (is_KafkaError e); unfold bind, emit, raise; cbn [fst snd].
  - assert (E : events_since w
                  (mkWorld (tick w')
                     (trace w' ++ [EvLog ERROR ("Kafka error: " ++ str e)])
                     (instances w') (_semaphore w') (_jobs_processed w')
                     (_jobs_failed w') (_running w') (consumer w'))
                = (evs ++ [EvLog ERROR ("Kafka error: " ++ str e)])%list).
    { unfold events_since. cbn [trace]. rewrite T, <- app_assoc.
      apply events_since_app_raw. }
    rewrite E, commits_app, dispatched_app, Hc, Hd. cbn. rewrite !app_nil_r.
    repeat split; reflexivity.
  - rewrite (events_since_turn _ _ _ Ht), app_nil_r.
    split; [reflexivity |]. split; [exact Hc |]. split; [exact Hd |].
    reflexivity.
Qed.

(** X13. Once [stop()] has set [_running] to false the loop handles
    nothing more: the records delivered before it were handled and
    committed as usual, those delivered after it are neither dispatched nor
    committed, and the pool is not touched again. *)
Theorem stop_ends_consumption
    (ms : list ConsumerRecord) (rest : list delivery) (w : World) :
  consumer w = true ->
  _running w = true ->
  0 < _semaphore w ->
  let run := RAGAgent.consume lib env settings
               (map Message ms ++ StopRequested :: rest)%list w in
  let before := snd (RAGAgent.consume lib env settings (map Message ms) w) in
  commits (events_since w (snd run))
  = map position (filter (constructs lib) ms)
  /\ dispatched (events_since w (snd run)) = job_ids lib ms
  /\ instances (snd run) = instances before
  /\ _running (snd run) = false
  /\ (fst run = Return tt
      \/ exists e, fst run = Raise e /\ In (IteratorError e) rest).
Proof.
  intros Hstarted Hrun Hslot run before. subst run before.
  unfold RAGAgent.consume, consume. rewrite Hstarted. cbn [negb].
  destruct (consume_loop_records ms w Hslot Hrun)
    as (w' & evs & Hloop & Ht & Hc & Hd).
  pose proof (Hloop []) as Hloop0. rewrite app_nil_r in Hloop0.
  destruct (consume_loop_stopped rest (snd (set_running false w')) eq_refl)
    as (o & w2 & Hstop & T2 & I2 & R2 & Ho).
  assert (Hs : consume_loop lib env
                 (DocumentProcessor.process lib env settings)
                 (StopRequested :: rest) w' = (o, w2))
    by (cbn [consume_loop]; unfold bind; exact Hstop).
  unfold try_except. rewrite Hloop, Hloop0, Hs.
  cbn [consume_loop ret fst snd].
  cbn [set_running snd trace instances] in T2, I2.
  pose proof (turn_trace _ _ _ Ht) as T.
  assert (Tw2 : trace w2 = (trace w ++ evs)%list)
    by (rewrite T2; exact T).
  destruct Ho as [-> | (e & -> & Hin)].
  - cbn [fst snd]. unfold events_since. rewrite Tw2, events_since_app_raw.
    repeat split; try assumption. left. reflexivity.
  - destruct (is_KafkaError e); unfold bind, emit, raise; cbn [fst snd].
    + unfold events_since. cbn [trace instances _running].
      rewrite Tw2, <- app_assoc, events_since_app_raw.
      rewrite commits_app, dispatched_app, Hc, Hd. cbn. rewrite !app_nil_r.
      repeat split; try assumption. right. exists e. auto.
    + unfold events_since. rewrite Tw2, events_since_app_raw.
      repeat split; try assumption. right. exists e. auto.
Qed.
End LoopMore.

(** X11 at work: two records - a job with text, an object without fields -
    on a cluster where every commit fails. The loop returns; the first
    record was dispatched and its commit attempted, the second neither. *)
Lemma consume_handles_every_record_witness :
  let run := RAGAgent.consume Doubles.library MoreDoubles.failing_commits
               default_settings
               (map IndexingJobConsumer.Message MoreDoubles.two_records)
               (RAGAgent.started default_settings) in
  fst run = Return tt
  /\ commits (events_since (RAGAgent.started default_settings) (snd run))
     = [(0, 40)]
  /\ dispatched (events_since (RAGAgent.started default_settings) (snd run))
     = [7].
Proof.
  intros run.
  destruct (consume_handles_every_record Doubles.library
              MoreDoubles.failing_commits default_settings
              MoreDoubles.two_records (RAGAgent.started default_settings)
              eq_refl eq_refl eq_refl) as (H1 & H2 & H3 & _).
  split; [exact H1 | split; [exact H2 | exact H3]].
Defined.

(** X12 at work: the broker goes away after the two records. *)
Lemma consume_reraises_what_the_iterator_raises_witness :
  let run := RAGAgent.consume Doubles.library Doubles.healthy
               default_settings
               (map IndexingJobConsumer.Message MoreDoubles.two_records
                ++ [IndexingJobConsumer.IteratorError MoreDoubles.broker_gone;
                    IndexingJobConsumer.Message
                      (IndexingJobConsumer.mkRecord
                         Payloads.empty_content_job 0 42)])%list
               (RAGAgent.started default_settings) in
  fst run = Raise MoreDoubles.broker_gone
  /\ commits (events_since (RAGAgent.started default_settings) (snd run))
     = [(0, 40)]
  /\ dispatched (events_since (RAGAgent.started default_settings) (snd run))
     = [7].
Proof.
  intros run.
  destruct (consume_reraises_what_the_iterator_raises Doubles.library
              Doubles.healthy default_settings MoreDoubles.two_records
              MoreDoubles.broker_gone
              [IndexingJobConsumer.Message
                 (IndexingJobConsumer.mkRecord Payloads.empty_content_job
                    0 42)]
              (RAGAgent.started default_settings)
              eq_refl eq_refl eq_refl) as (H1 & H2 & H3 & _).
  split; [exact H1 | split; [exact H2 | exact H3]].
Defined.

(** X13 at work: [stop()] after the two records; a third one is
    delivered and left alone. *)
Lemma stop_ends_consumption_witness :
  let run := RAGAgent.consume Doubles.library Doubles.healthy
               default_settings
               (map IndexingJobConsumer.Message MoreDoubles.two_records
                ++ [IndexingJobConsumer.StopRequested;
                    IndexingJobConsumer.Message
                      (IndexingJobConsumer.mkRecord
                         Payloads.empty_content_job 0 42)])%list
               (RAGAgent.started default_settings) in
  commits (events_since (RAGAgent.started default_settings) (snd run))
  = [(0, 40)]
  /\ dispatched (events_since (RAGAgent.started default_settings) (snd run))
     = [7]
  /\ _running (snd run) = false.
Proof.
  intros run.
  destruct (stop_ends_consumption Doubles.library Doubles.healthy
              default_settings MoreDoubles.two_records
              [IndexingJobConsumer.Message
                 (IndexingJobConsumer.mkRecord Payloads.empty_content_job
                    0 42)]
              (RAGAgent.started default_settings)
              eq_refl eq_refl eq_refl) as (H1 & H2 & _ & H4 & _).
  split; [exact H1 | split; [exact H2 | exact H4]].
Defined.

(** * The life cycle of the consumer *)

Section Lifecycle.
Variable lib : Library.
Variable env : Env.
Variable kafka : KafkaClient.
Variable settings : Settings.
Import IndexingJobConsumer ConsumerLifecycle.

Abbreviation handler := (DocumentProcessor.process lib env settings).

(** With a slot of the pipeline free the loop never waits: it returns or
    raises, and leaves the slot free. *)
Lemma consume_loop_ends (stream : list delivery) : forall (w : World),
  0 < _semaphore w ->
  exists o w' evs,
    consume_loop lib env handler stream w = (o, w')
    /\ o <> Suspend
    /\ trace w' = (trace w ++ evs)%list
    /\ _semaphore w' = _semaphore w
    /\ consumer w' = consumer w.
Proof.
  induction stream as [| item stream IH]; intros w Hslot.
  - exists (Return tt), w, []. cbn. rewrite app_nil_r.
    repeat split; discriminate.
  - destruct item as [m | e |]; cbn [consume_loop].
    + destruct (_running w); cbn [negb].
      2: { exists (Return tt), w, []. rewrite app_nil_r.
           repeat split; discriminate. }
      destruct (handle_message_turn lib env settings m w Hslot)
        as (w1 & evs1 & Hm & [T1 S1 R1 C1] & _).
      unfold RAGAgent.handle_message in Hm. unfold bind. rewrite Hm.
      destruct (IH w1) as (o & w2 & evs2 & Hrun & Ho & T2 & S2 & C2);
        [rewrite S1; exact Hslot |].
      exists o, w2, (evs1 ++ evs2)%list. split; [exact Hrun |].
      split; [exact Ho |].
      split; [rewrite T2, T1, app_assoc; reflexivity |].
      split; congruence.
    + exists (Raise e), w, []. unfold raise. rewrite app_nil_r.
      repeat split; discriminate.
    + unfold bind, set_running.
      match goal with |- context [consume_loop _ _ _ stream ?w0] =>
        destruct (IH w0 Hslot) as (o & w2 & evs2 & Hrun & Ho & T2 & S2 & C2)
      end.
      exists o, w2, evs2. repeat split; assumption.
Qed.

Lemma consume_ends (stream : list delivery) (w : World) :
  0 < _semaphore w ->
  exists o w',
    consume lib env handler stream w = (o, w')
    /\ o <> Suspend
    /\ consumer w' = consumer w.
Proof.
  intros Hslot. unfold consume.
  destruct (consumer w) eqn:Hc; cbn [negb].
  2: { eexists _, w. unfold raise. split; [reflexivity |].
       split; [discriminate | exact Hc]. }
  destruct (consume_loop_ends stream w Hslot)
    as (o & w' & evs & Hrun & Ho & _ & _ & C).
  unfold try_except. rewrite Hrun.
  destruct o as [[] | e |]; [| | congruence].
  - exists (Return tt), w'. split; [reflexivity |].
    split; [discriminate | congruence].
  - destruct (is_KafkaError e); unfold bind, emit, raise;
      eexists _, _; (split; [reflexivity |]);
      (split; [discriminate |]); cbn [consumer]; congruence.
Qed.

(** The world once [start] has gone through. *)
Lemma start_run (w : World) :
  AIOKafkaConsumer kafka (tick w) = None ->
  consumer_start kafka (S (tick w)) = None ->
  start kafka w
  = (Return tt,
     mkWorld (2 + tick w) (trace w) (instances w) (_semaphore w)
             (_jobs_processed w) (_jobs_failed w) true true).
Proof.
  intros Hbuild Hstart.
  unfold start, kafka_call, bind, next_call, set_consumer, set_running, ret.
  cbn. rewrite Hbuild. cbn. rewrite Hstart. reflexivity.
Qed.

(** X14. [run] stops the consumer it started. When the client is built
    and starts, and the pipeline has a slot free, [run] consumes the
    stream and then always goes through [stop]: however [consume] ended,
    [_running] is false afterwards. [run] ends as [consume] ended, unless
    stopping the client fails: then it raises that failure, and what
    [consume] had raised is lost. *)
Theorem run_stops_the_consumer_it_started
    (stream : list delivery) (w : World) :
  0 < _semaphore w ->
  AIOKafkaConsumer kafka (tick w) = None ->
  consumer_start kafka (S (tick w)) = None ->
  let started := snd (start kafka w) in
  let consumed := consume lib env handler stream started in
  let r := run lib env kafka handler stream w in
  _running started = true
  /\ consumer started = true
  /\ fst consumed <> Suspend
  /\ trace (snd r) = trace (snd consumed)
  /\ instances (snd r) = instances (snd consumed)
  /\ _running (snd r) = false
  /\ fst r = match consumer_stop kafka (tick (snd consumed)) with
             | Some e => Raise e
             | None => fst consumed
             end.
Proof.
  intros Hslot Hbuild Hstart started consumed r. subst r consumed started.
  unfold run, bind.
  rewrite (start_run w Hbuild Hstart). cbn [fst snd].
  set (ws := mkWorld _ _ _ _ _ _ _ _).
  destruct (consume_ends stream ws Hslot) as (o & wc & Hrun & Ho & Hc).
  cbn [consumer ws] in Hc.
  unfold try_finally. rewrite Hrun. cbn [fst snd].
  split; [reflexivity |]. split; [reflexivity |]. split; [exact Ho |].
  assert (Hstop : stop kafka wc
                  = (match consumer_stop kafka (tick wc) with
                     | Some e => Raise e
                     | None => Return tt
                     end,
                     mkWorld (S (tick wc)) (trace wc) (instances wc)
                       (_semaphore wc) (_jobs_processed wc) (_jobs_failed wc)
                       false (consumer wc))).
  { unfold stop, kafka_call, bind, set_running, get_consumer, next_call,
      ret, raise. cbn. rewrite Hc. cbn.
    destruct (consumer_stop kafka (tick wc)); rewrite ?Hc; reflexivity. }
  destruct o as [[] | e |]; [| | congruence]; rewrite Hstop;
    destruct (consumer_stop kafka (tick wc)); repeat split; reflexivity.
Qed.

(** X15. When the client cannot be built or cannot start, [run] raises
    that failure and reads no record. It does not go through [stop]
    either: [_running] is left as it was, and a client that was built but
    did not start stays assigned. *)
Theorem run_raises_when_start_fails
    (stream : list delivery) (w : World) (e : exn) :
  AIOKafkaConsumer kafka (tick w) = Some e
  \/ (AIOKafkaConsumer kafka (tick w) = None
      /\ consumer_start kafka (S (tick w)) = Some e) ->
  let r := run lib env kafka handler stream w in
  fst r = Raise e
  /\ trace (snd r) = trace w
  /\ instances (snd r) = instances w
  /\ _running (snd r) = _running w
  /\ consumer (snd r)
     = match AIOKafkaConsumer kafka (tick w) with
       | Some _ => consumer w
       | None => true
       end.
Proof.
  intros Hfail r. subst r.
  unfold run, start, kafka_call, bind, next_call, set_consumer, ret, raise.
  cbn.
  destruct Hfail as [Hbuild | [Hbuild Hstart]]; rewrite Hbuild; cbn.
  - repeat split; reflexivity.
  - rewrite Hstart. cbn. repeat split; reflexivity.
Qed.
End Lifecycle.

Lemma run_stops_the_consumer_it_started_witness :
  let r := ConsumerLifecycle.run Doubles.library Doubles.healthy
             MoreDoubles.kafka_up
             (DocumentProcessor.process Doubles.library Doubles.healthy
                default_settings)
             (map IndexingJobConsumer.Message MoreDoubles.two_records)
             (mkWorld 0 [] [] 5 0 0 false false) in
  fst r = Return tt
  /\ _running (snd r) = false
  /\ commits (trace (snd r)) = [(0, 40)].
Proof.
  intros r.
  destruct (run_stops_the_consumer_it_started Doubles.library Doubles.healthy
              MoreDoubles.kafka_up default_settings
              (map IndexingJobConsumer.Message MoreDoubles.two_records)
              (mkWorld 0 [] [] 5 0 0 false false)
              eq_refl eq_refl eq_refl) as (_ & _ & _ & H4 & _ & H6 & H7).
  split; [exact H7 |]. split; [exact H6 |].
  unfold r. rewrite H4. vm_compute. reflexivity.
Defined.

Lemma run_raises_when_start_fails_witness :
  let r := ConsumerLifecycle.run Doubles.library Doubles.healthy
             MoreDoubles.kafka_down
             (DocumentProcessor.process Doubles.library Doubles.healthy
                default_settings)
             (map IndexingJobConsumer.Message MoreDoubles.two_records)
             (mkWorld 0 [] [] 5 0 0 false false) in
  fst r = Raise MoreDoubles.broker_gone
  /\ trace (snd r) = []
  /\ _running (snd r) = false
  /\ consumer (snd r) = true.
Proof.
  intros r.
  destruct (run_raises_when_start_fails Doubles.library Doubles.healthy
              MoreDoubles.kafka_down default_settings
              (map IndexingJobConsumer.Message MoreDoubles.two_records)
              (mkWorld 0 [] [] 5 0 0 false false) MoreDoubles.broker_gone
              (or_intror (conj eq_refl eq_refl)))
    as (H1 & H2 & _ & H4 & H5).
  split; [exact H1 |]. split; [exact H2 |]. split; [exact H4 | exact H5].
Defined.

(** * The agent *)

Section AgentMore.
Variable env : Env.
Variable kafka : KafkaClient.
Variable settings : Settings.
Variable setLevel : option exn.

(** [stop] clears [_running], and stops the client if there is one. *)
Lemma stop_run (w : World) :
  ConsumerLifecycle.stop kafka w
  = (match (if consumer w then consumer_stop kafka (tick w) else None) with
     | Some e => Raise e
     | None => Return tt
     end,
     mkWorld (if consumer w then S (tick w) else tick w) (trace w)
       (instances w) (_semaphore w) (_jobs_processed w) (_jobs_failed w)
       false (consumer w)).
Proof.
  unfold ConsumerLifecycle.stop, ConsumerLifecycle.kafka_call,
    ConsumerLifecycle.get_consumer, bind, set_running, next_call, ret, raise.
  cbn. destruct (consumer w) eqn:Hc; [| reflexivity].
  cbn. destruct (consumer_stop kafka (tick w)); rewrite ?Hc; reflexivity.
Qed.

(** X16. [shutdown] closes the pool only when the consumer stopped. With
    a pool, and a consumer whose client was built, [shutdown] first stops
    the consumer: if stopping the client fails, [shutdown] raises that
    failure and the pool is left as it is, no instance closed; otherwise
    - also when there is no consumer or no client to stop - it closes
    every instance once and leaves the pool empty. *)
Theorem shutdown_closes_the_pool_unless_stop_fails (a : Agent.t) :
  Agent.rag_pool a = true ->
  let r := Agent.shutdown env kafka a in
  let w := Agent.world a in
  let w' := Agent.world (snd r) in
  Agent._running (snd r) = false
  /\ (Agent.consumer a = true -> _running w' = false)
  /\ match (if Agent.consumer a && consumer w
            then consumer_stop kafka (tick w) else None) with
     | Some e =>
         fst r = Raise e
         /\ instances w' = instances w
         /\ events_since w w' = []
     | None =>
         fst r = Return tt
         /\ instances w' = []
         /\ finalized (events_since w w') = OrderedDict.keys (instances w)
     end.
Proof.
  intros Hpool r w w'. subst r w w'.
  destruct a as [run pool proc cons w]. cbn in Hpool. subst pool.
  unfold Agent.shutdown, Co.bind, Agent.set_running, Agent.get_consumer,
    Agent.get_rag_pool, Agent.on_world, Co.ret.
  cbn [Agent.consumer Agent.rag_pool Agent.world Agent._running
       Agent.processor].
  destruct cons;
    cbn [andb Agent.consumer Agent.rag_pool Agent.world Agent._running
         Agent.processor].
  - rewrite stop_run.
    cbn [consumer tick trace instances _semaphore _jobs_processed
         _jobs_failed _running].
    destruct (consumer w); [destruct (consumer_stop kafka (tick w)) |];
      cbn [Agent.consumer Agent.rag_pool Agent.world Agent._running
           Agent.processor fst snd];
      try rewrite close_all_run;
      cbn [Agent.consumer Agent.rag_pool Agent.world Agent._running
           Agent.processor fst snd advance instances _running tick trace];
      (split; [reflexivity |]); (split; [reflexivity |]);
      (split; [reflexivity |]); (split; [reflexivity |]);
      unfold events_since; cbn [trace advance];
      rewrite ?events_since_app_raw, ?skipn_all;
      try reflexivity; apply finalized_close_events.
  - cbn [Agent.consumer Agent.rag_pool Agent.world Agent._running
         Agent.processor fst snd].
    rewrite close_all_run.
    cbn [Agent.consumer Agent.rag_pool Agent.world Agent._running
         Agent.processor fst snd].
    split; [reflexivity |]. split; [discriminate |].
    split; [reflexivity |]. split; [reflexivity |].
    rewrite events_since_advance. apply finalized_close_events.
Qed.

(** How far [initialize] gets. *)
Lemma initialize_run (a : Agent.t) :
  Agent.initialize settings setLevel a
  = match setLevel with
    | Some e => (Raise e, a)
    | None =>
        if max_workers settings <? 0 then
          (Raise (mkExn ValueError "Semaphore initial value must be >= 0"),
           Agent.mk (Agent._running a) true (Agent.processor a)
             (Agent.consumer a)
             (mkWorld (tick (Agent.world a)) (trace (Agent.world a)) []
                (_semaphore (Agent.world a))
                (_jobs_processed (Agent.world a))
                (_jobs_failed (Agent.world a))
                (_running (Agent.world a)) (consumer (Agent.world a))))
        else
          (Raise (mkExn TypeError
                    "IndexingJobConsumer.__init__() got an unexpected keyword argument 'metrics'"),
           Agent.mk (Agent._running a) true true (Agent.consumer a)
             (mkWorld (tick (Agent.world a)) (trace (Agent.world a)) []
                (max_workers settings) 0 0
                (_running (Agent.world a)) (consumer (Agent.world a))))
    end.
Proof.
  destruct a as [run0 pool proc cons w0].
  unfold Agent.initialize, Co.bind, Agent.on_world, Co.raise,
    Co.ret, Agent.set_rag_pool, Agent.set_processor,
    Components.LightRAGPool_init, Components.DocumentProcessor_init,
    set_instances.
  destruct setLevel as [e |]; [reflexivity |].
  cbn [Agent.world Agent.consumer Agent._running Agent.rag_pool
       Agent.processor fst snd tick trace instances _semaphore
       _jobs_processed _jobs_failed _running consumer].
  destruct (max_workers settings <? 0); reflexivity.
Qed.

Lemma shutdown_without_consumer (a : Agent.t) :
  Agent.consumer a = false ->
  Agent.shutdown env kafka a
  = if Agent.rag_pool a then
      (fst (LightRAGPool.close_all env (Agent.world a)),
       Agent.mk false true (Agent.processor a) false
         (snd (LightRAGPool.close_all env (Agent.world a))))
    else
      (Return tt,
       Agent.mk false false (Agent.processor a) false (Agent.world a)).
Proof.
  destruct a as [run0 pool proc cons w0]. cbn [Agent.consumer]. intros ->.
  unfold Agent.shutdown, Co.bind, Agent.set_running, Agent.get_consumer,
    Agent.get_rag_pool, Agent.on_world, Co.ret.
  cbn [Agent.world Agent.consumer Agent._running Agent.rag_pool
       Agent.processor].
  destruct pool; [| reflexivity].
  cbn [Agent.world Agent.consumer Agent._running Agent.rag_pool
       Agent.processor].
  destruct (LightRAGPool.close_all env w0) as [o w']. reflexivity.
Qed.

(** X17. As it is wired, the agent never starts. [initialize] calls
    [IndexingJobConsumer(...)] with a keyword [metrics] that its
    [__init__] does not take, so it raises - a [TypeError], unless the log
    level or a negative [max_workers] stopped it earlier - and never
    returns. [main] therefore never gets to [run]: from a new agent it
    raises the same exception after a [shutdown] that finds no consumer,
    having made no call to Kafka or to the backend and consumed
    nothing. *)
Theorem main_raises_before_it_consumes (run : Agent.A unit) (w : World) :
  let r := Agent.main env kafka settings setLevel run (Agent.new w) in
  (forall a, exists e,
     fst (Agent.initialize settings setLevel a) = Raise e
     /\ Agent.consumer (snd (Agent.initialize settings setLevel a))
        = Agent.consumer a)
  /\ (exists e, fst r = Raise e)
  /\ (setLevel = None -> 0 <= max_workers settings ->
      fst r
      = Raise (mkExn TypeError
                 "IndexingJobConsumer.__init__() got an unexpected keyword argument 'metrics'"))
  /\ Agent.consumer (snd r) = false
  /\ trace (Agent.world (snd r)) = trace w
  /\ tick (Agent.world (snd r)) = tick w.
Proof.
  cbv zeta. split.
  { intros a. rewrite initialize_run.
    destruct setLevel as [e |]; [exists e; split; reflexivity |].
    destruct (max_workers settings <? 0); eexists; split; reflexivity. }
  unfold Agent.main, Co.try_finally, Co.bind.
  rewrite initialize_run. unfold Agent.new.
  destruct setLevel as [e |].
  { rewrite shutdown_without_consumer by reflexivity.
    cbn [Agent.rag_pool fst snd Agent.world Agent.consumer].
    split; [eexists; reflexivity |].
    split; [discriminate |]. repeat split; reflexivity. }
  destruct (max_workers settings <? 0) eqn:Hneg;
    rewrite shutdown_without_consumer by reflexivity;
    cbn [Agent.rag_pool Agent.world]; rewrite close_all_run;
    cbn [fst snd Agent.world Agent.consumer advance instances tick trace
         List.length close_events Nat.add];
    rewrite app_nil_r.
  - split; [eexists; reflexivity |].
    split; [intros _ H; apply Z.ltb_lt in Hneg; lia |].
    repeat split; reflexivity.
  - split; [eexists; reflexivity |].
    split; [intros _ _; reflexivity |].
    repeat split; reflexivity.
Qed.
End AgentMore.

(** X16 at work: two tenants in the pool, a client that does not stop. *)
Lemma shutdown_closes_the_pool_unless_stop_fails_witness :
  let w := run_ops Doubles.healthy default_settings [Get "A"; Get "B"]
             Doubles.idle in
  let stuck := Agent.shutdown Doubles.healthy MoreDoubles.kafka_down
                 (Agent.mk true true true true w) in
  let clean := Agent.shutdown Doubles.healthy MoreDoubles.kafka_up
                 (Agent.mk true true true true w) in
  (fst stuck = Raise MoreDoubles.broker_gone
   /\ OrderedDict.keys (instances (Agent.world (snd stuck))) = ["A"; "B"])
  /\ (fst clean = Return tt
      /\ instances (Agent.world (snd clean)) = []
      /\ finalized (events_since w (Agent.world (snd clean))) = ["A"; "B"]).
Proof.
  intros w stuck clean. split.
  - pose proof (shutdown_closes_the_pool_unless_stop_fails Doubles.healthy
                  MoreDoubles.kafka_down (Agent.mk true true true true w)
                  eq_refl) as H.
    vm_compute in H. destruct H as (_ & _ & H1 & H2 & _).
    split; vm_compute; [exact H1 | reflexivity].
  - pose proof (shutdown_closes_the_pool_unless_stop_fails Doubles.healthy
                  MoreDoubles.kafka_up (Agent.mk true true true true w)
                  eq_refl) as H.
    vm_compute in H. destruct H as (_ & _ & H1 & H2 & H3).
    split; [| split]; vm_compute; assumption.
Defined.

(** X18 at work: a page of plain html and a parser that fails. *)
Lemma html_without_text_fails_the_job_witness :
  let run := DocumentProcessor.process MoreDoubles.broken_parser
               Doubles.healthy default_settings
               (Examples.job (Some MoreDoubles.html_only)) Doubles.idle in
  exists r,
    fst run = Return r
    /\ ProcessingResult.success r = false
    /\ ProcessingResult.error_message r
       = Some "No text content extracted from document"
    /\ instances (snd run) = [].
Proof.
  intros run.
  destruct (html_without_text_fails_the_job MoreDoubles.broken_parser
              Doubles.healthy default_settings
              (Examples.job (Some MoreDoubles.html_only))
              MoreDoubles.html_only "<p>hello</p>" Doubles.idle
              eq_refl eq_refl eq_refl)
    as (_ & _ & r & H1 & H2 & H3 & _ & _ & H6).
  - discriminate.
  - reflexivity.
  - right. left. eexists. reflexivity.
  - exists r. split; [exact H1 |]. split; [exact H2 |].
    split; [exact H3 | exact H6].
Defined.

(** * The status client *)

Section StatusClientFacts.
Variable http : StatusClient.Http.
Import StatusClient.

Lemma _get_session_run (c : t) :
  _get_session http c
  = match open_session c with
    | Some session => (Return session, c)
    | None =>
        match ClientSession_init http (calls c) with
        | Some e =>
            (Raise e,
             mk (base_url c) (timeout c) (internal_api_key c) (_session c)
                (S (calls c)) (sessions_created c) (exchanges c))
        | None =>
            let session :=
              mkSession (timeout c) (api_key_headers (internal_api_key c))
                false in
            (Return session,
             mk (base_url c) (timeout c) (internal_api_key c) (Some session)
                (S (calls c)) (S (sessions_created c)) (exchanges c))
        end
    end.
Proof.
  destruct c as [base tmo key session n built sent].
  unfold _get_session, open_session, new_session, Co.bind, Co.get, Co.ret,
    Co.raise, next_call, set_session, api_key_headers.
  cbn [calls exchanges base_url timeout internal_api_key _session
       sessions_created].
  destruct session as [s |]; [destruct (closed s) |]; try reflexivity;
    cbn; destruct (ClientSession_init http n); reflexivity.
Qed.

(** Unfolds a call that reports on one request, case by case. *)
Ltac report_cases c :=
  unfold Co.try_except, Co.bind, Co.get;
  rewrite _get_session_run;
  destruct (open_session c) as [s |];
    [| destruct (ClientSession_init http (calls c));
       [eexists; split; [reflexivity | left; split; reflexivity] |]];
  unfold send, text, Co.bind, Co.ret, Co.raise, next_call, record;
  cbn [calls exchanges base_url timeout internal_api_key _session
       sessions_created];
  let Hanswer := fresh "Hanswer" in
  let Hok := fresh "Hok" in
  let status := fresh "status" in
  match goal with
  | |- context [request http ?k] =>
      destruct (request http k) as [? | status] eqn:Hanswer
  end;
  [eexists; split; [reflexivity |];
   right; eexists; split; [reflexivity |];
   cbn [method url json answer]; rewrite ?Hanswer;
   repeat split; reflexivity
  | try (destruct (status =? 200) eqn:Hok;
         [| match goal with
            | |- context [resp_text http ?k] => destruct (resp_text http k)
            end]);
    eexists; (split; [reflexivity |]);
    right; eexists; (split; [reflexivity |]);
    cbn [method url json answer]; rewrite ?Hanswer, ?Hok;
    repeat split; reflexivity].

(** X19. The three calls that report on the backend never raise: whatever
    aiohttp does - no session, a connection error, a time-out, a response
    that cannot be read - they return a [bool]. Each sends at most one
    request, to the url built from [base_url] and with the body the source
    gives it - for [update_job_status] the status, and [error_msg] only when
    there is one - and returns [True] exactly when that request was
    answered by a response with status 200. *)
Theorem status_client_reports_what_the_backend_answered
    (c : t) (job_id request_id : Z) (status : string)
    (error_msg : option string) :
  (exists b,
     update_job_status http job_id status error_msg c
     = (Return b, snd (update_job_status http job_id status error_msg c))
     /\ reports c (snd (update_job_status http job_id status error_msg c)) b
          "PUT"
          (base_url c ++ "/api/indexing/jobs/"
             ++ DocumentProcessor.str_of_int job_id ++ "/status")
          (Some (PyDict
                   (("status", PyStr status)
                    :: match error_msg with
                       | Some msg => [("error_msg", PyStr msg)]
                       | None => []
                       end))))
  /\ (exists b,
        increment_completed_jobs http request_id c
        = (Return b, snd (increment_completed_jobs http request_id c))
        /\ reports c (snd (increment_completed_jobs http request_id c)) b
             "PUT"
             (base_url c ++ "/api/indexing/requests/"
                ++ DocumentProcessor.str_of_int request_id ++ "/status")
             (Some (PyDict [("increment_completed_jobs", PyBool true)])))
  /\ (exists b,
        health_check http c = (Return b, snd (health_check http c))
        /\ reports c (snd (health_check http c)) b
             "GET" (base_url c ++ "/health") None).
Proof.
  unfold reports. split; [| split].
  - unfold update_job_status. report_cases c.
  - unfold increment_completed_jobs. report_cases c.
  - unfold health_check. report_cases c.
Qed.

Lemma rstrip_ends (c : ascii) (s : string) :
  ends_with c (rstrip c s) = false.
Proof.
  induction s as [| a s IH]; [reflexivity |].
  cbn [rstrip]. destruct (rstrip c s) as [| b r] eqn:E.
  - destruct (Ascii.eqb a c) eqn:Ea; [reflexivity |]. cbn. exact Ea.
  - cbn [ends_with] in *. exact IH.
Qed.

(** What a call that reports does to the client: it may build a session
    when none is open, and may add one exchange. *)
Lemma report_step (url0 key : string) (n : nat) (c : t)
    (meth path : string) (body : option pyval) (k : Z -> Co.t t bool) :
  (forall z c1, exists o c2,
      k z c1 = (o, c2)
      /\ base_url c2 = base_url c1 /\ internal_api_key c2 = internal_api_key c1
      /\ _session c2 = _session c1
      /\ sessions_created c2 = sessions_created c1
      /\ exchanges c2 = exchanges c1) ->
  client_ok url0 key n c ->
  client_ok url0 key n
    (snd (Co.try_except
            (Co.bind (_get_session http)
               (fun session =>
                  Co.bind (send http session meth
                             (base_url c ++ String "/" path) body) k))
            (fun _ => Co.ret false) c)).
Proof.
  intros Hk [Hbase Hkey Hsession Hsent Hcount].
  unfold Co.try_except, Co.bind. rewrite _get_session_run.
  assert (Hnew : forall x,
            sent_headers x = api_key_headers key ->
            url x = base_url c ++ String "/" path ->
            Forall (fun x =>
                      sent_headers x = api_key_headers key
                      /\ exists path,
                           url x = rstrip "/" url0 ++ String "/" path)
              (exchanges c ++ [x])).
  { intros x Hh Hu. apply Forall_app. split; [exact Hsent |].
    constructor; [| constructor]. split; [exact Hh |].
    exists path. rewrite Hu, Hbase. reflexivity. }
  destruct (open_session c) as [s |] eqn:Hopen.
  - assert (Hs : _session c = Some s).
    { unfold open_session in Hopen. destruct (_session c) as [s0 |];
        [| discriminate]. destruct (closed s0); congruence. }
    unfold send, Co.bind, Co.ret, Co.raise, next_call, record.
    cbn [calls exchanges base_url timeout internal_api_key _session
         sessions_created].
    set (x := mkExchange _ _ _ _ _).
    set (c1 := mk _ _ _ _ _ _ _).
    assert (Hok1 : client_ok url0 key n c1).
    { subst c1. constructor; cbn [base_url internal_api_key _session
        sessions_created exchanges]; try assumption.
      - apply Hnew; [apply Hsession, Hs | reflexivity].
      - unfold open_session in *. cbn [_session]. rewrite Hopen.
        exact Hcount. }
    destruct (request http (calls c)) as [e | z]; [exact Hok1 |].
    destruct (Hk z c1) as (o & c2 & Hrun & B & K & S & N & X).
    rewrite Hrun.
    assert (Hok2 : client_ok url0 key n c2).
    { destruct Hok1 as [B1 K1 S1 X1 N1].
      constructor; try congruence.
      - intros s0 Hs0. apply S1. congruence.
      - unfold open_session in *. rewrite S, N. exact N1. }
    destruct o; exact Hok2.
  - destruct (ClientSession_init http (calls c)).
    + unfold Co.ret. cbn [snd]. constructor;
        cbn [base_url internal_api_key _session sessions_created exchanges];
        try assumption.
      unfold open_session in *. cbn [_session]. rewrite Hopen.
      exact Hcount.
    + cbv zeta.
      unfold send, Co.bind, Co.ret, Co.raise, next_call, record.
      cbn [calls exchanges base_url timeout internal_api_key _session
           sessions_created headers].
      set (x := mkExchange _ _ _ _ _).
      set (c1 := mk _ _ _ _ _ _ _).
      assert (Hok1 : client_ok url0 key n c1).
      { subst c1. constructor; cbn [base_url internal_api_key _session
          sessions_created exchanges]; try assumption.
        - intros s0 [= <-]. cbn [headers]. rewrite Hkey. reflexivity.
        - apply Hnew; [cbn [sent_headers x]; rewrite Hkey |]; reflexivity.
        - unfold open_session in *. cbn [_session closed]. lia. }
      destruct (request http (S (calls c))) as [e | z]; [exact Hok1 |].
      destruct (Hk z c1) as (o & c2 & Hrun & B & K & S & N & X).
      rewrite Hrun.
      assert (Hok2 : client_ok url0 key n c2).
      { destruct Hok1 as [B1 K1 S1 X1 N1].
        constructor; try congruence.
        - intros s0 Hs0. apply S1. congruence.
        - unfold open_session in *. rewrite S, N. exact N1. }
      destruct o; exact Hok2.
Qed.

Lemma client_ok_more (url0 key : string) (n n' : nat) (c : t) :
  (n <= n')%nat -> client_ok url0 key n c -> client_ok url0 key n' c.
Proof.
  intros Hle [B K S X N]. constructor; try assumption. lia.
Qed.

Lemma close_step (url0 key : string) (n : nat) (c : t) :
  client_ok url0 key n c -> client_ok url0 key (S n) (snd (close http c)).
Proof.
  intros Hok. pose proof Hok as [B K S X N].
  unfold close, Co.bind, Co.get, Co.ret, Co.raise, next_call, set_session.
  destruct (_session c) as [s |] eqn:Hs;
    [| apply (client_ok_more url0 key n); [lia | exact Hok]].
  destruct (closed s) eqn:Hc;
    [apply (client_ok_more url0 key n); [lia | exact Hok] |].
  cbn [calls exchanges base_url timeout internal_api_key _session
       sessions_created].
  destruct (session_close http (calls c)); cbn [snd].
  - constructor; cbn [base_url internal_api_key _session sessions_created
      exchanges]; try assumption.
    + rewrite Hs. exact S.
    + unfold open_session in *. cbn [_session]. rewrite Hs, Hc in *. lia.
  - constructor; cbn [base_url internal_api_key _session sessions_created
      exchanges]; try assumption.
    + intros s0 [= <-]. cbn [headers]. apply S. reflexivity.
    + unfold open_session in *. cbn [_session closed].
      rewrite Hs, Hc in N. lia.
Qed.

Lemma run_client_op_ok (url0 key : string) (n : nat) (op : client_op)
    (c : t) :
  client_ok url0 key n c ->
  client_ok url0 key (if is_close op then S n else n)
    (run_client_op http op c).
Proof.
  intros Hok.
  assert (Hret : forall (b : bool) (z : Z) (c1 : t), exists o c2,
            Co.ret (S := t) b c1 = (o, c2)
            /\ base_url c2 = base_url c1
            /\ internal_api_key c2 = internal_api_key c1
            /\ _session c2 = _session c1
            /\ sessions_created c2 = sessions_created c1
            /\ exchanges c2 = exchanges c1).
  { intros b z c1. exists (Return b), c1. repeat split. }
  assert (Htext : forall (z : Z) (c1 : t), exists o c2,
            (if z =? 200 then Co.ret true
             else Co.bind (text http) (fun _ => Co.ret false)) c1 = (o, c2)
            /\ base_url c2 = base_url c1
            /\ internal_api_key c2 = internal_api_key c1
            /\ _session c2 = _session c1
            /\ sessions_created c2 = sessions_created c1
            /\ exchanges c2 = exchanges c1).
  { intros z c1. destruct (z =? 200); [apply (Hret true z) |].
    unfold text, Co.bind, Co.ret, Co.raise, next_call.
    destruct (resp_text http (calls c1)); eexists _, _;
      repeat split; reflexivity. }
  destruct op as [job_id status error_msg | request_id | |];
    cbn [run_client_op is_close].
  - unfold update_job_status. unfold Co.bind at 1. unfold Co.get at 1.
    apply (report_step url0 key n c "PUT"
             ("api/indexing/jobs/" ++ DocumentProcessor.str_of_int job_id
                ++ "/status")
             _ _ Htext Hok).
  - unfold increment_completed_jobs. unfold Co.bind at 1.
    unfold Co.get at 1.
    apply (report_step url0 key n c "PUT"
             ("api/indexing/requests/"
                ++ DocumentProcessor.str_of_int request_id ++ "/status")
             _ _ Htext Hok).
  - unfold health_check. unfold Co.bind at 1. unfold Co.get at 1.
    apply (report_step url0 key n c "GET" "health" None
             (fun z => Co.ret (z =? 200))
             (fun z => Hret (z =? 200) z) Hok).
  - apply close_step, Hok.
Qed.

Lemma run_client_ops_ok (url0 key : string) (ops : list client_op) :
  forall (n : nat) (c : t),
  client_ok url0 key n c ->
  client_ok url0 key (n + List.length (filter is_close ops))
    (run_client_ops http ops c).
Proof.
  induction ops as [| op ops IH]; intros n c Hok.
  - cbn. rewrite Nat.add_0_r. exact Hok.
  - cbn [run_client_ops fold_left filter].
    pose proof (run_client_op_ok url0 key n op c Hok) as Hstep.
    apply IH in Hstep. unfold run_client_ops in *.
    destruct (is_close op); cbn [List.length] in *.
    + rewrite Nat.add_succ_r. exact Hstep.
    + exact Hstep.
Qed.

(** X20. The client holds on to one session. Whatever calls are made on
    a new client and whatever aiohttp answers, it builds a session only
    when it holds none that is open: no more sessions than calls of [close]
    plus one - at most one when [close] is never called, also when requests
    fail. Every request carries the [X-Internal-API-Key] header exactly
    when a key is configured, and goes to a path under the configured url
    with its trailing slashes removed. *)
Theorem status_client_keeps_one_session
    (go_backend_url : string) (go_backend_timeout : Z) (key : string)
    (ops : list client_op) :
  let c := run_client_ops http ops
             (__init__ go_backend_url go_backend_timeout key) in
  (sessions_created c <= 1 + List.length (filter is_close ops))%nat
  /\ Forall (fun x =>
               sent_headers x
               = (if is_empty key then [] else [("X-Internal-API-Key", key)])
               /\ exists path,
                    url x = rstrip "/" go_backend_url ++ String "/" path)
       (exchanges c)
  /\ base_url c = rstrip "/" go_backend_url
  /\ ends_with "/" (base_url c) = false.
Proof.
  intros c.
  assert (Hok : client_ok go_backend_url key
                  (0 + List.length (filter is_close ops)) c).
  { apply run_client_ops_ok. constructor; cbn; auto. intros s [=]. }
  destruct Hok as [B K S X N].
  split; [destruct (open_session c); lia |].
  split; [exact X |]. split; [exact B |].
  rewrite B. apply rstrip_ends.
Qed.
End StatusClientFacts.

(** * The scraper *)

Section Scraper.
Variable web : scrapper.Web.
Variable base_url : string.
Variable max_depth : Z.
Variable domain : string.
Import scrapper.

Abbreviation state := (crawl_state web base_url domain).

Abbreviation crawled := (crawled web base_url domain).

Lemma new_links_on_domain (u : string) (depth : Z) hrefs links :
  new_links web domain u depth hrefs = inr links ->
  Forall (fun entry => netloc web (fst entry) = inr domain) links.
Proof.
  revert links. induction hrefs as [| [href |] rest IH]; intros links;
    cbn [new_links].
  - intros [= <-]. constructor.
  - destruct (is_empty href); [apply IH |].
    destruct (urljoin web u href) as [e | full]; [discriminate |].
    destruct (netloc web full) as [e | n] eqn:Hn; [discriminate |].
    destruct (new_links web domain u depth rest) as [e | more];
      [discriminate |].
    destruct (String.eqb_spec n domain) as [-> | Hne]; intros [= <-].
    + constructor; [exact Hn | apply IH; reflexivity].
    + apply IH. reflexivity.
  - apply IH.
Qed.

Lemma existsb_eqb_In (u : string) (l : list string) :
  existsb (String.eqb u) l = false -> ~ In u l.
Proof.
  intros H Hin. assert (existsb (String.eqb u) l = true); [| congruence].
  apply existsb_exists. exists u. split; [exact Hin | apply String.eqb_refl].
Qed.

Lemma scan_crawled
    (k : list (string * Z) -> list string -> list Page -> exn + list Page)
    (bound : nat) (pages : list Page) :
  (forall queue visited page,
     state queue visited (pages ++ [page])%list ->
     crawled bound (pages ++ [page])%list
       (k queue visited (pages ++ [page])%list)) ->
  forall queue visited,
    state queue visited pages ->
    crawled (S bound) pages
      (scan web base_url max_depth domain k pages queue visited).
Proof.
  intros Hk. induction queue as [| [u depth] rest IH];
    intros visited (Hnd & Hgood & Hseen & Hqueue); cbn [scan].
  - intros result [= <-]. split; [lia |]. split; [exact Hnd |].
    split; [exact Hgood |]. exists []. rewrite app_nil_r. reflexivity.
  - inversion Hqueue as [| ? ? Hu Hrest]; subst.
    assert (Hskip : forall visited',
              (forall p, In p pages -> In (url p) visited') ->
              crawled (S bound) pages
                (scan web base_url max_depth domain k pages rest visited')).
    { intros visited' Hseen'. apply IH. repeat split; assumption. }
    destruct (max_depth <? depth); [apply Hskip, Hseen |].
    destruct (existsb (String.eqb u) visited) eqn:Hnew;
      [apply Hskip, Hseen |].
    apply existsb_eqb_In in Hnew.
    assert (Hseen' : forall p, In p pages -> In (url p) (u :: visited))
      by (intros p Hp; right; apply Hseen, Hp).
    cbv zeta.
    destruct (is_relevant_docs_url web u base_url) as [e | [|]] eqn:Hrel;
      [intros ? [=] | | apply Hskip, Hseen'].
    destruct (requests_get web u) as [res_text |] eqn:Hget;
      [| apply Hskip, Hseen'].
    destruct (soup web res_text) as [e | [txt hrefs]] eqn:Hsoup;
      [intros ? [=] |].
    destruct (new_links web domain u depth hrefs) as [e | links] eqn:Hlinks;
      [intros ? [=] |].
    set (page := mkPage u res_text txt).
    assert (Hstate : state (rest ++ links)%list (u :: visited)
                       (pages ++ [page])%list).
    { repeat split.
      - rewrite map_app. cbn. apply NoDup_app; [exact Hnd | | ].
        + repeat constructor. intros [].
        + intros x Hx [<- | []]. apply Hnew.
          apply in_map_iff in Hx as (p & <- & Hp). apply Hseen, Hp.
      - apply Forall_app. split; [exact Hgood |].
        constructor; [| constructor]. unfold scraped. subst page.
        cbn [url html text].
        repeat split; try assumption. exists hrefs. exact Hsoup.
      - intros p Hp. apply in_app_or in Hp as [Hp | [<- | []]].
        + right. apply Hseen, Hp.
        + left. reflexivity.
      - apply Forall_app. split; [exact Hrest |].
        eapply new_links_on_domain. exact Hlinks. }
    intros result Hresult.
    destruct (Hk _ _ _ Hstate result Hresult) as (Hlen & Hnd' & Hgood' & more & ->).
    split; [rewrite !length_app in *; cbn [List.length] in *; lia |].
    split; [exact Hnd' |]. split; [exact Hgood' |].
    exists (page :: more). rewrite <- app_assoc. reflexivity.
Qed.

Lemma crawl_crawled (budget : nat) :
  forall queue visited pages,
    state queue visited pages ->
    crawled budget pages
      (crawl web base_url max_depth domain budget queue visited pages).
Proof.
  induction budget as [| budget IH]; intros queue visited pages Hstate.
  - cbn. intros result [= <-]. destruct Hstate as (Hnd & Hgood & _).
    split; [lia |]. split; [exact Hnd |]. split; [exact Hgood |].
    exists []. rewrite app_nil_r. reflexivity.
  - cbn [crawl]. apply scan_crawled; [| exact Hstate].
    intros queue' visited' page Hstate'. apply IH, Hstate'.
Qed.
End Scraper.

Lemma scrape_site_crawled (web : scrapper.Web) (base_url : string)
    (max_pages max_depth : Z) (pages : list scrapper.Page) :
  scrapper.scrape_site web base_url max_pages max_depth = inr pages ->
  exists domain,
    scrapper.netloc web base_url = inr domain
    /\ crawled web base_url domain (Z.to_nat max_pages) [] (inr pages).
Proof.
  unfold scrapper.scrape_site.
  destruct (scrapper.netloc web base_url) as [e | domain] eqn:Hd;
    [discriminate |].
  intros Hrun. exists domain. split; [reflexivity |]. rewrite <- Hrun.
  apply crawl_crawled. repeat split; try constructor.
  - intros p [].
  - exact Hd.
  - constructor.
Qed.

(** X21. [scrape_site] keeps to its budget: what it returns holds at most
    [max_pages] pages - none when [max_pages] is not positive - and no url
    twice. *)
Theorem scrape_site_returns_at_most_max_pages
    (web : scrapper.Web) (base_url : string) (max_pages max_depth : Z)
    (pages : list scrapper.Page) :
  scrapper.scrape_site web base_url max_pages max_depth = inr pages ->
  Z.of_nat (List.length pages) <= Z.max 0 max_pages
  /\ NoDup (map scrapper.url pages).
Proof.
  intros Hrun.
  destruct (scrape_site_crawled web base_url max_pages max_depth pages Hrun)
    as (domain & _ & Hc).
  destruct (Hc pages eq_refl) as (Hlen & Hnd & _).
  split; [cbn in Hlen; lia | exact Hnd].
Qed.

(** X22. [scrape_site] returns pages of the site only: every page it
    returns lies on the host of the base url, was judged relevant by
    [is_relevant_docs_url], and holds the body that [requests.get] fetched
    for its url and the text BeautifulSoup made of that body. *)
Theorem scrape_site_returns_pages_of_the_site
    (web : scrapper.Web) (base_url : string) (max_pages max_depth : Z)
    (pages : list scrapper.Page) :
  scrapper.scrape_site web base_url max_pages max_depth = inr pages ->
  exists domain,
    scrapper.netloc web base_url = inr domain
    /\ forall p, In p pages ->
         scrapper.netloc web (scrapper.url p) = inr domain
         /\ scrapper.is_relevant_docs_url web (scrapper.url p) base_url
            = inr true
         /\ scrapper.requests_get web (scrapper.url p)
            = Some (scrapper.html p)
         /\ exists hrefs,
              scrapper.soup web (scrapper.html p)
              = inr (scrapper.text p, hrefs).
Proof.
  intros Hrun.
  destruct (scrape_site_crawled web base_url max_pages max_depth pages Hrun)
    as (domain & Hd & Hc).
  exists domain. split; [exact Hd |].
  destruct (Hc pages eq_refl) as (_ & _ & Hgood & _).
  rewrite Forall_forall in Hgood. intros p Hp.
  destruct (Hgood p Hp) as (H1 & H2 & H3 & H4). auto.
Qed.

Section ScraperReturns.
Variable web : scrapper.Web.
Variable base_url : string.
Variable max_depth : Z.
Variable domain : string.
Import scrapper.

(** Pages are only ever appended. *)
Lemma scan_extends
    (k : list (string * Z) -> list string -> list Page -> exn + list Page)
    (pages : list Page) :
  (forall queue visited pages1 result,
     k queue visited pages1 = inr result ->
     exists more, result = (pages1 ++ more)%list) ->
  forall queue visited result,
    scan web base_url max_depth domain k pages queue visited = inr result ->
    exists more, result = (pages ++ more)%list.
Proof.
  intros Hk. induction queue as [| [u depth] rest IH]; intros visited result;
    cbn [scan].
  - intros [= <-]. exists []. rewrite app_nil_r. reflexivity.
  - destruct (max_depth <? depth); [apply IH |].
    destruct (existsb (String.eqb u) visited); [apply IH |].
    cbv zeta.
    destruct (is_relevant_docs_url web u base_url) as [e | [|]];
      [discriminate | | apply IH].
    destruct (requests_get web u) as [res_text |]; [| apply IH].
    destruct (soup web res_text) as [e | [txt hrefs]]; [discriminate |].
    destruct (new_links web domain u depth hrefs) as [e | links];
      [discriminate |].
    intros Hrun. destruct (Hk _ _ _ _ Hrun) as (more & ->).
    exists (mkPage u res_text txt :: more). rewrite <- app_assoc.
    reflexivity.
Qed.

Lemma crawl_extends (budget : nat) :
  forall queue visited pages result,
    crawl web base_url max_depth domain budget queue visited pages
    = inr result ->
    exists more, result = (pages ++ more)%list.
Proof.
  induction budget as [| budget IH]; intros queue visited pages result;
    cbn [crawl].
  - intros [= <-]. exists []. rewrite app_nil_r. reflexivity.
  - apply scan_extends. exact IH.
Qed.

Hypothesis Hlib : libraries_return web.

Lemma new_links_returns (u : string) (depth : Z) hrefs :
  exists links, new_links web domain u depth hrefs = inr links.
Proof.
  destruct Hlib as (Hnetloc & Hjoin & _).
  induction hrefs as [| [href |] rest (links & IH)]; cbn [new_links].
  - exists []. reflexivity.
  - destruct (is_empty href); [exists links; exact IH |].
    destruct (Hjoin u href) as (full & ->).
    destruct (Hnetloc full) as (n & ->). rewrite IH.
    eexists. reflexivity.
  - exists links. exact IH.
Qed.

Lemma scan_returns
    (k : list (string * Z) -> list string -> list Page -> exn + list Page)
    (pages : list Page) :
  (forall queue visited pages1, exists result,
     k queue visited pages1 = inr result) ->
  forall queue visited, exists result,
    scan web base_url max_depth domain k pages queue visited = inr result.
Proof.
  intros Hk. destruct Hlib as (_ & _ & Hrel & Hsoup).
  induction queue as [| [u depth] rest IH]; intros visited; cbn [scan].
  - exists pages. reflexivity.
  - destruct (max_depth <? depth); [apply IH |].
    destruct (existsb (String.eqb u) visited); [apply IH |].
    cbv zeta. destruct (Hrel u base_url) as ([|] & ->); [| apply IH].
    destruct (requests_get web u) as [res_text |]; [| apply IH].
    destruct (Hsoup res_text) as ([txt hrefs] & ->).
    destruct (new_links_returns u depth hrefs) as (links & ->).
    apply Hk.
Qed.

Lemma crawl_returns (budget : nat) :
  forall queue visited pages, exists result,
    crawl web base_url max_depth domain budget queue visited pages
    = inr result.
Proof.
  induction budget as [| budget IH]; intros queue visited pages;
    cbn [crawl].
  - exists pages. reflexivity.
  - apply scan_returns. exact IH.
Qed.
End ScraperReturns.

(** X23. When no library call raises, [scrape_site] returns - the loop
    ends, however the site is linked. It returns no page when [max_pages]
    is not positive or [max_depth] is negative; otherwise, when the base
    url is relevant and can be fetched, its page is the first of the
    result. *)
Theorem scrape_site_returns_and_starts_at_the_base_url
    (web : scrapper.Web) (base_url : string) (max_pages max_depth : Z) :
  libraries_return web ->
  exists pages,
    scrapper.scrape_site web base_url max_pages max_depth = inr pages
    /\ (max_pages <= 0 \/ max_depth < 0 -> pages = [])
    /\ (0 < max_pages -> 0 <= max_depth ->
        forall body,
          scrapper.is_relevant_docs_url web base_url base_url = inr true ->
          scrapper.requests_get web base_url = Some body ->
          exists first rest,
            pages = first :: rest
            /\ scrapper.url first = base_url
            /\ scrapper.html first = body).
Proof.
  intros Hlib. pose proof Hlib as (Hnetloc & _ & _ & Hsoup).
  unfold scrapper.scrape_site.
  destruct (Hnetloc base_url) as (domain & ->).
  destruct (crawl_returns web base_url max_depth domain Hlib
              (Z.to_nat max_pages) [(base_url, 0)] [] [])
    as (pages & Hrun).
  exists pages. split; [exact Hrun |]. split.
  - intros [Hpages | Hdepth].
    + replace (Z.to_nat max_pages) with O in Hrun by lia.
      cbn in Hrun. congruence.
    + destruct (Z.to_nat max_pages); cbn in Hrun; [congruence |].
      assert ((max_depth <? 0) = true) as E by (apply Z.ltb_lt; lia).
      rewrite E in Hrun. congruence.
  - intros Hpages Hdepth body Hrel Hget.
    destruct (Z.to_nat max_pages) as [| budget] eqn:Hb; [lia |].
    cbn [scrapper.crawl scrapper.scan existsb] in Hrun.
    assert ((max_depth <? 0) = false) as E by (apply Z.ltb_ge; lia).
    rewrite E, Hrel, Hget in Hrun.
    destruct (Hsoup body) as ([txt hrefs] & Hparsed).
    rewrite Hparsed in Hrun.
    destruct (new_links_returns web domain Hlib base_url 0 hrefs)
      as (links & Hlinks).
    rewrite Hlinks in Hrun. cbn [app] in Hrun.
    destruct (crawl_extends web base_url max_depth domain budget _ _ _ _ Hrun)
      as (more & ->).
    eexists _, more. split; [reflexivity |]. split; reflexivity.
Qed.

(** The site of two pages: both are scraped, each once, the other host is
    left alone. *)
Lemma scrape_site_returns_at_most_max_pages_witness :
  scrapper.scrape_site MoreDoubles.two_pages "http://d/a" 10 3
  = inr [scrapper.mkPage "http://d/a" "A" "page a";
         scrapper.mkPage "http://d/b" "B" "page b"]
  /\ Z.of_nat 2 <= Z.max 0 10
  /\ NoDup ["http://d/a"; "http://d/b"].
Proof.
  assert (Hrun : scrapper.scrape_site MoreDoubles.two_pages "http://d/a" 10 3
                 = inr [scrapper.mkPage "http://d/a" "A" "page a";
                        scrapper.mkPage "http://d/b" "B" "page b"])
    by (vm_compute; reflexivity).
  split; [exact Hrun |].
  exact (scrape_site_returns_at_most_max_pages MoreDoubles.two_pages
           "http://d/a" 10 3 _ Hrun).
Defined.

Lemma scrape_site_returns_pages_of_the_site_witness :
  exists domain,
    scrapper.netloc MoreDoubles.two_pages "http://d/a" = inr domain
    /\ forall p,
         In p [scrapper.mkPage "http://d/a" "A" "page a";
               scrapper.mkPage "http://d/b" "B" "page b"] ->
         scrapper.netloc MoreDoubles.two_pages (scrapper.url p) = inr domain
         /\ scrapper.is_relevant_docs_url MoreDoubles.two_pages
              (scrapper.url p) "http://d/a" = inr true
         /\ scrapper.requests_get MoreDoubles.two_pages (scrapper.url p)
            = Some (scrapper.html p)
         /\ exists hrefs,
              scrapper.soup MoreDoubles.two_pages (scrapper.html p)
              = inr (scrapper.text p, hrefs).
Proof.
  apply (scrape_site_returns_pages_of_the_site MoreDoubles.two_pages
           "http://d/a" 10 3).
  vm_compute. reflexivity.
Defined.

Lemma scrape_site_returns_and_starts_at_the_base_url_witness :
  exists pages,
    scrapper.scrape_site MoreDoubles.two_pages "http://d/a" 1 3 = inr pages
    /\ exists first rest,
         pages = first :: rest
         /\ scrapper.url first = "http://d/a"
         /\ scrapper.html first = "A".
Proof.
  destruct (scrape_site_returns_and_starts_at_the_base_url
              MoreDoubles.two_pages "http://d/a" 1 3) as (pages & H1 & _ & H3).
  - repeat split; intros; cbn;
      try (match goal with |- context [String.eqb ?h "A"] =>
             destruct (String.eqb h "A") end);
      eexists; reflexivity.
  - exists pages. split; [exact H1 |].
    apply (H3 ltac:(lia) ltac:(lia) "A"); reflexivity.
Defined.

(** * The API key *)

Section ApiKey.
Import config.

Lemma load_dotenv_keeps (vars : list (string * option string)) :
  forall environ name value,
    OrderedDict.getitem name environ = Some value ->
    OrderedDict.getitem name (load_dotenv vars environ) = Some value.
Proof.
  induction vars as [| [k v] rest IH]; intros environ name value Hget;
    cbn [load_dotenv]; [exact Hget |].
  apply IH. destruct (OrderedDict.contains k environ) eqn:Hk; [exact Hget |].
  destruct v as [v |]; [| exact Hget].
  clear - Hget. induction environ as [| [k1 v1] environ IH]; cbn in *;
    [discriminate |].
  destruct (String.eqb name k1); [exact Hget | apply IH, Hget].
Qed.

Lemma load_dotenv_sets (vars : list (string * option string)) :
  forall environ name value,
    OrderedDict.getitem name vars = Some (Some value) ->
    OrderedDict.contains name environ = false ->
    OrderedDict.getitem name (load_dotenv vars environ) = Some value.
Proof.
  induction vars as [| [k v] rest IH]; intros environ name value Hvar Hnew;
    cbn [load_dotenv]; [discriminate |].
  cbn in Hvar. destruct (String.eqb_spec name k) as [<- | Hne].
  - injection Hvar as ->. rewrite Hnew. apply load_dotenv_keeps.
    apply getitem_app_absent, Hnew.
  - apply IH; [exact Hvar |].
    destruct (OrderedDict.contains k environ); [exact Hnew |].
    destruct v as [v |]; [| exact Hnew].
    rewrite contains_app, Hnew. cbn.
    apply String.eqb_neq in Hne. rewrite Hne. reflexivity.
Qed.


Lemma get_api_key_from_environment project_name projects_dir (os : Os) key :
  env_api_key os = Some key ->
  get_api_key project_name projects_dir os = (Return (PyStr key), os).
Proof.
  intros H. unfold get_api_key, Co.bind, Co.get, Co.ret. rewrite H.
  reflexivity.
Qed.

Lemma fs_write_run (os : Os) :
  fs_write os
  = (match fs_error os with Some e => Raise e | None => Return tt end, os).
Proof.
  unfold fs_write, Co.bind, Co.get, Co.ret, Co.raise.
  destruct (fs_error os); reflexivity.
Qed.

Lemma third_source (os : Os) :
  Co.bind _get_global_config_path
    (fun _ =>
       Co.bind Co.get
         (fun os2 =>
            match global_config os2 with
            | Holds (PyDict items) =>
                let api_key :=
                  py_or (dict_get "openai_api_key" items)
                        (dict_get "OPENAI_API_KEY" items) in
                if truthy api_key then Co.ret api_key else Co.ret PyNone
            | Holds _ =>
                Co.raise (mkExn OtherException
                            "AttributeError: object has no attribute 'get'")
            | Missing | Unreadable | Malformed => Co.ret PyNone
            end)) os
  = (from_global_config os, os).
Proof.
  unfold _get_global_config_path, from_global_config. unfold Co.bind at 1 2.
  rewrite fs_write_run.
  destruct (fs_error os); [reflexivity |].
  unfold Co.bind, Co.get, Co.ret, Co.raise.
  destruct (global_config os) as [| | | [| | | | | items]]; try reflexivity.
  cbv zeta. destruct (truthy _); reflexivity.
Qed.

(** Without a project file to load, the key is that of the global
    configuration. *)
Lemma get_api_key_without_project project_name projects_dir (os : Os) :
  env_api_key os = None ->
  match project_given project_name projects_dir with
  | Some (name, dir) =>
      dotenv_available os = false
      \/ OrderedDict.getitem (_get_project_env_path name dir) (env_files os)
         = None
  | None => True
  end ->
  get_api_key project_name projects_dir os = (from_global_config os, os).
Proof.
  intros Henv Hproject. unfold get_api_key. unfold Co.bind at 1.
  unfold Co.get at 1. rewrite Henv.
  destruct (project_given project_name projects_dir) as [[name dir] |].
  - destruct (OrderedDict.getitem _ (env_files os)) as [vars |].
    + destruct Hproject as [Hno | Hno]; [| discriminate]. rewrite Hno.
      unfold Co.bind at 1. unfold Co.ret at 1. apply third_source.
    + unfold Co.bind at 1. unfold Co.ret at 1. apply third_source.
  - unfold Co.bind at 1. unfold Co.ret at 1. apply third_source.
Qed.

(** With one, its variables are loaded first. *)
Lemma get_api_key_with_project project_name projects_dir (os : Os)
    name dir vars :
  env_api_key os = None ->
  project_given project_name projects_dir = Some (name, dir) ->
  OrderedDict.getitem (_get_project_env_path name dir) (env_files os)
  = Some vars ->
  dotenv_available os = true ->
  get_api_key project_name projects_dir os
  = (match env_api_key (with_dotenv vars os) with
     | Some key => Return (PyStr key)
     | None => from_global_config (with_dotenv vars os)
     end,
     with_dotenv vars os).
Proof.
  intros Henv Hproject Hfile Hdotenv. unfold get_api_key.
  unfold Co.bind at 1. unfold Co.get at 1. rewrite Henv, Hproject, Hfile,
    Hdotenv.
  unfold Co.bind at 1. unfold Co.bind at 1. unfold set_environ at 1.
  fold (with_dotenv vars os).
  unfold Co.bind at 1. unfold Co.get at 1. unfold Co.ret at 1.
  destruct (env_api_key (with_dotenv vars os)); [reflexivity |].
  apply third_source.
Qed.

(** X24. The environment comes first, and an empty variable still hides
    the project. When [OPENAI_API_KEY] is set to a non-empty value,
    [get_api_key] returns it and touches nothing, whatever the files hold.
    When it is set but empty, the key of the project's [.env] file is not
    used either - python-dotenv does not override a variable that is set -
    and [get_api_key] answers as it does without a project, from the global
    configuration. *)
Theorem environment_variable_comes_first
    (project_name projects_dir : option string) (os : Os) (value : string) :
  getenv "OPENAI_API_KEY" os = Some value ->
  if is_empty value then
    fst (get_api_key project_name projects_dir os)
    = fst (get_api_key None None os)
    /\ fst (get_api_key None None os) = from_global_config os
  else
    get_api_key project_name projects_dir os = (Return (PyStr value), os).
Proof.
  intros Hset. destruct (is_empty value) eqn:Hempty.
  - assert (Henv : env_api_key os = None)
      by (unfold env_api_key; rewrite Hset, Hempty; reflexivity).
    rewrite (get_api_key_without_project None None os Henv I). cbn [fst].
    split; [| reflexivity].
    destruct (project_given project_name projects_dir) as [[name dir] |]
      eqn:Hproject.
    + destruct (OrderedDict.getitem (_get_project_env_path name dir)
                  (env_files os)) as [vars |] eqn:Hfile.
      * destruct (dotenv_available os) eqn:Hdotenv.
        -- rewrite (get_api_key_with_project _ _ os name dir vars Henv
                      Hproject Hfile Hdotenv). cbn [fst].
           assert (E : env_api_key (with_dotenv vars os) = None).
           { unfold env_api_key, getenv, with_dotenv. cbn [environ].
             rewrite (load_dotenv_keeps vars _ _ _ Hset), Hempty.
             reflexivity. }
           rewrite E. reflexivity.
        -- rewrite get_api_key_without_project; [reflexivity | exact Henv |].
           rewrite Hproject. left. exact Hdotenv.
      * rewrite get_api_key_without_project; [reflexivity | exact Henv |].
        rewrite Hproject. right. exact Hfile.
    + rewrite get_api_key_without_project; [reflexivity | exact Henv |].
      rewrite Hproject. exact I.
  - apply get_api_key_from_environment.
    unfold env_api_key. rewrite Hset, Hempty. reflexivity.
Qed.

(** X25. A key found in one project's [.env] stays in the environment.
    When [OPENAI_API_KEY] is not set and the [.env] file of a project gives
    it a non-empty value, [get_api_key] for that project returns the value
    - and leaves it in [os.environ], so that from then on [get_api_key]
    returns that same key for every project, and without one: the other
    projects' own files are no longer read. *)
Theorem project_key_stays_in_the_environment
    (name dir : string) (vars : list (string * option string))
    (key : string) (os : Os) :
  getenv "OPENAI_API_KEY" os = None ->
  dotenv_available os = true ->
  name <> "" ->
  OrderedDict.getitem (_get_project_env_path name dir) (env_files os)
  = Some vars ->
  OrderedDict.getitem "OPENAI_API_KEY" vars = Some (Some key) ->
  key <> "" ->
  let first := get_api_key (Some name) (Some dir) os in
  fst first = Return (PyStr key)
  /\ getenv "OPENAI_API_KEY" (snd first) = Some key
  /\ forall project_name projects_dir,
       get_api_key project_name projects_dir (snd first)
       = (Return (PyStr key), snd first).
Proof.
  intros Hunset Hdotenv Hname Hfile Hvar Hkey first. subst first.
  apply is_empty_false in Hname, Hkey.
  assert (Henv : env_api_key os = None)
    by (unfold env_api_key; rewrite Hunset; reflexivity).
  assert (Hproject : project_given (Some name) (Some dir) = Some (name, dir))
    by (unfold project_given; rewrite Hname; reflexivity).
  rewrite (get_api_key_with_project _ _ os name dir vars Henv Hproject Hfile
             Hdotenv).
  cbn [fst snd].
  assert (Hloaded : getenv "OPENAI_API_KEY" (with_dotenv vars os) = Some key).
  { unfold getenv, with_dotenv. cbn [environ].
    apply load_dotenv_sets; [exact Hvar |].
    apply getitem_None_contains. exact Hunset. }
  assert (E : env_api_key (with_dotenv vars os) = Some key)
    by (unfold env_api_key; rewrite Hloaded, Hkey; reflexivity).
  rewrite E. split; [reflexivity |]. split; [exact Hloaded |].
  intros project_name projects_dir.
  apply get_api_key_from_environment, E.
Qed.

Lemma getitem_setitem_same {V} (k : string) (v : V) (d : OrderedDict.t V) :
  OrderedDict.getitem k (OrderedDict.setitem k v d) = Some v.
Proof.
  induction d as [| [k1 v1] d IH]; cbn.
  - rewrite String.eqb_refl. reflexivity.
  - destruct (String.eqb k k1) eqn:E; cbn; rewrite E; [reflexivity | exact IH].
Qed.

Lemma getitem_setitem_other {V} (k k' : string) (v : V)
    (d : OrderedDict.t V) :
  k' <> k ->
  OrderedDict.getitem k' (OrderedDict.setitem k v d)
  = OrderedDict.getitem k' d.
Proof.
  intros Hne. induction d as [| [k1 v1] d IH]; cbn.
  - apply String.eqb_neq in Hne. rewrite Hne. reflexivity.
  - destruct (String.eqb_spec k k1) as [<- | Hk]; cbn.
    + apply String.eqb_neq in Hne. rewrite Hne. reflexivity.
    + rewrite IH. reflexivity.
Qed.

Variable written : list (string * option string)
                   -> list (string * option string).

(** Saving in the global scope. *)
Lemma save_api_key_global (api_key scope : string)
    (project_name projects_dir : option string) (os : Os) :
  String.eqb scope "project" = false ->
  save_api_key written api_key scope project_name projects_dir os
  = match fs_error os with
    | Some e => (Raise e, os)
    | None =>
        match (match global_config os with
               | Holds v => v
               | Missing | Unreadable | Malformed => PyDict []
               end) with
        | PyDict items =>
            (Return global_config_path,
             mkOs (environ os) (dotenv_available os) (env_files os)
               (Holds (PyDict (OrderedDict.setitem "openai_api_key"
                                 (PyStr api_key) items)))
               (fs_error os))
        | _ =>
            (Raise (mkExn TypeError "object does not support item assignment"),
             os)
        end
    end.
Proof.
  intros Hscope. unfold save_api_key. rewrite Hscope.
  unfold _get_global_config_path. unfold Co.bind at 1 2.
  rewrite fs_write_run.
  destruct (fs_error os) eqn:Hfs; [reflexivity |].
  unfold Co.ret at 1. unfold Co.bind at 1. unfold Co.get at 1.
  destruct (match global_config os with
            | Holds v => v
            | _ => PyDict []
            end) as [| | | | | items]; try reflexivity.
  unfold Co.bind at 1. rewrite fs_write_run, Hfs.
  unfold Co.bind, set_global_config, Co.ret. rewrite Hfs. reflexivity.
Qed.

(** X26. A key saved in the global scope is the key found. When
    [save_api_key] returns for a scope other than ['project'], the global
    configuration is a JSON object that holds the key under
    [openai_api_key] and every other entry it held before - a file that
    was missing, unreadable or not JSON is replaced by a new object. Unless
    the environment has a key, [get_api_key()] - asked without a project -
    then returns the saved key, if it is not empty. *)
Theorem saved_global_key_is_found
    (api_key scope : string) (project_name projects_dir : option string)
    (os os' : Os) (path : string) :
  String.eqb scope "project" = false ->
  save_api_key written api_key scope project_name projects_dir os
  = (Return path, os') ->
  (exists items',
     global_config os' = Holds (PyDict items')
     /\ OrderedDict.getitem "openai_api_key" items' = Some (PyStr api_key)
     /\ (forall items key,
           global_config os = Holds (PyDict items) ->
           key <> "openai_api_key" ->
           OrderedDict.getitem key items' = OrderedDict.getitem key items)
     /\ ((forall v, global_config os <> Holds v) ->
         items' = [("openai_api_key", PyStr api_key)]))
  /\ environ os' = environ os
  /\ (env_api_key os = None -> api_key <> "" ->
      get_api_key None None os' = (Return (PyStr api_key), os')).
Proof.
  intros Hscope Hsave.
  rewrite (save_api_key_global _ _ _ _ _ Hscope) in Hsave.
  destruct (fs_error os) eqn:Hfs; [discriminate |].
  destruct (match global_config os with
            | Holds v => v
            | _ => PyDict []
            end) as [| | | | | items] eqn:Hold; try discriminate.
  injection Hsave as <- <-. cbn [global_config environ].
  split; [| split; [reflexivity |]].
  - eexists. split; [reflexivity |].
    split; [apply getitem_setitem_same |]. split.
    + intros items0 key Hobj Hkey. rewrite Hobj in Hold.
      injection Hold as ->. apply getitem_setitem_other, Hkey.
    + intros Hnone. destruct (global_config os) as [| | | v];
        try (injection Hold as <-; reflexivity).
      destruct (Hnone v eq_refl).
  - intros Henv Hkey. apply is_empty_false in Hkey.
    rewrite get_api_key_without_project; [| exact Henv | exact I].
    unfold from_global_config. cbn [fs_error global_config].
    unfold dict_get. rewrite getitem_setitem_same.
    unfold py_or. cbn [truthy]. rewrite Hkey. cbn [negb truthy].
    rewrite Hkey. reflexivity.
Qed.

(** X27. A global configuration that is JSON but no object is not
    repaired. When [config.json] holds a list, a string, a number or
    [null], [save_api_key] in the global scope raises [TypeError] and
    leaves the file as it is; and [get_api_key], once the environment and
    the project gave no key, raises as well - the exception of [list.get]
    is none of the two it guards against - instead of returning [None]. *)
Theorem global_config_that_is_no_object_breaks_both
    (api_key scope : string) (project_name projects_dir : option string)
    (os : Os) (v : pyval) :
  global_config os = Holds v ->
  (forall items, v <> PyDict items) ->
  fs_error os = None ->
  String.eqb scope "project" = false ->
  save_api_key written api_key scope project_name projects_dir os
  = (Raise (mkExn TypeError "object does not support item assignment"), os)
  /\ (env_api_key os = None ->
      get_api_key None None os
      = (Raise (mkExn OtherException
                  "AttributeError: object has no attribute 'get'"), os)).
Proof.
  intros Hv Hnot Hfs Hscope. split.
  - rewrite (save_api_key_global _ _ _ _ _ Hscope), Hfs, Hv.
    destruct v; try reflexivity. destruct (Hnot items eq_refl).
  - intros Henv.
    rewrite get_api_key_without_project; [| exact Henv | exact I].
    unfold from_global_config. rewrite Hfs, Hv.
    destruct v; try reflexivity. destruct (Hnot items eq_refl).
Qed.

Variable strip : string -> string.
Variable lower : string -> string.

(** X28. [prompt_api_key] returns only a key that was typed, stripped and
    not empty; and a key that does not start with [sk-] only after the next
    answer, stripped and lowered, was [y]. *)
Theorem prompt_api_key_returns_a_confirmed_key
    (reads : list string) (api_key : string) :
  prompt_api_key strip lower reads = inr api_key ->
  api_key <> ""
  /\ exists before typed after,
       reads = (before ++ typed :: after)%list
       /\ api_key = strip typed
       /\ (String.prefix "sk-" api_key = true
           \/ exists answer rest,
                after = answer :: rest /\ lower (strip answer) = "y").
Proof.
  remember (List.length reads) as n eqn:Hn.
  revert reads Hn. induction n as [n IH] using lt_wf_ind.
  intros [| typed reads'] Hn; cbn [prompt_api_key]; [discriminate |].
  cbv zeta. cbn [List.length] in Hn.
  assert (Hlater : forall skipped later,
            reads' = (skipped ++ later)%list ->
            prompt_api_key strip lower later = inr api_key ->
            api_key <> ""
            /\ exists before typed0 after,
                 (typed :: reads') = (before ++ typed0 :: after)%list
                 /\ api_key = strip typed0
                 /\ (String.prefix "sk-" api_key = true
                     \/ exists answer rest,
                          after = answer :: rest
                          /\ lower (strip answer) = "y")).
  { intros skipped later Hsplit Hrun.
    destruct (IH (List.length later)) with (reads := later)
      as (Hne & before & typed0 & after & -> & Hkey & Hok);
      [subst reads'; rewrite length_app in Hn; lia | reflexivity | exact Hrun
      |].
    split; [exact Hne |].
    exists (typed :: skipped ++ before)%list, typed0, after.
    split; [subst reads'; cbn; rewrite <- app_assoc; reflexivity |].
    split; assumption. }
  destruct (is_empty (strip typed)) eqn:Hempty;
    [apply (Hlater [] reads' eq_refl) |].
  apply is_empty_false in Hempty.
  destruct (String.prefix "sk-" (strip typed)) eqn:Hprefix.
  - intros [= <-]. split; [exact Hempty |].
    exists [], typed, reads'. split; [reflexivity |].
    split; [reflexivity | left; exact Hprefix].
  - destruct reads' as [| answer reads'']; [discriminate |].
    destruct (String.eqb_spec (lower (strip answer)) "y") as [Hyes | Hno].
    + intros [= <-]. split; [exact Hempty |].
      exists [], typed, (answer :: reads''). split; [reflexivity |].
      split; [reflexivity |]. right. exists answer, reads''. auto.
    + apply (Hlater [answer] reads'' eq_refl).
Qed.

End ApiKey.

(** X24 at work: the variable is set, the project's own key is not
    looked at. *)
Lemma environment_variable_comes_first_witness :
  config.get_api_key (Some "a") (Some "projects")
    MoreDoubles.key_in_environment
  = (Return (PyStr "sk-env"), MoreDoubles.key_in_environment).
Proof.
  exact (environment_variable_comes_first (Some "a") (Some "projects")
           MoreDoubles.key_in_environment "sk-env" eq_refl).
Defined.

(** X25 at work: after project [a] was asked for, project [b] gets the key
    of [a]. *)
Lemma project_key_stays_in_the_environment_witness :
  let first := config.get_api_key (Some "a") (Some "projects")
                 MoreDoubles.two_projects in
  fst first = Return (PyStr "sk-a")
  /\ config.get_api_key (Some "b") (Some "projects") (snd first)
     = (Return (PyStr "sk-a"), snd first).
Proof.
  intros first.
  destruct (project_key_stays_in_the_environment "a" "projects"
              [("OPENAI_API_KEY", Some "sk-a")] "sk-a"
              MoreDoubles.two_projects eq_refl eq_refl)
    as (H1 & _ & H3); try reflexivity; try discriminate.
  split; [exact H1 | apply H3].
Defined.

(** X26 at work, on a machine without a key. *)
Lemma saved_global_key_is_found_witness :
  let saved := config.save_api_key (fun vars => vars) "sk-1" "global" None
                 None MoreDoubles.no_key in
  fst saved = Return config.global_config_path
  /\ config.get_api_key None None (snd saved)
     = (Return (PyStr "sk-1"), snd saved).
Proof.
  intros saved. split; [reflexivity |].
  destruct (saved_global_key_is_found (fun vars => vars) "sk-1" "global"
              None None MoreDoubles.no_key (snd saved)
              config.global_config_path eq_refl eq_refl) as (_ & _ & H).
  apply H; [reflexivity | discriminate].
Defined.

(** X27 at work: [config.json] holds [[]]. *)
Lemma global_config_that_is_no_object_breaks_both_witness :
  fst (config.save_api_key (fun vars => vars) "sk-1" "global" None None
         MoreDoubles.list_in_config)
  = Raise (mkExn TypeError "object does not support item assignment")
  /\ fst (config.get_api_key None None MoreDoubles.list_in_config)
     = Raise (mkExn OtherException
                "AttributeError: object has no attribute 'get'").
Proof.
  destruct (global_config_that_is_no_object_breaks_both (fun vars => vars)
              "sk-1" "global" None None MoreDoubles.list_in_config
              (PyList []) eq_refl) as [H1 H2];
    try reflexivity; try (intros items; discriminate).
  rewrite H1, (H2 eq_refl). split; reflexivity.
Defined.

(** X28 at work: an empty line, a key without the prefix that is turned
    down, then a key. *)
Lemma prompt_api_key_returns_a_confirmed_key_witness :
  config.prompt_api_key (fun s => s) (fun s => s)
    [""; "key"; "n"; "sk-1"] = inr "sk-1"
  /\ exists before typed after,
       [""; "key"; "n"; "sk-1"] = (before ++ typed :: after)%list
       /\ "sk-1" = typed.
Proof.
  split; [reflexivity |].
  destruct (prompt_api_key_returns_a_confirmed_key (fun s => s) (fun s => s)
              [""; "key"; "n"; "sk-1"] "sk-1" eq_refl)
    as (_ & before & typed & after & H1 & H2 & _).
  exists before, typed, after. split; assumption.
Defined.

